(** * ShaderToyRecorder: the capture-and-encode pipeline of the content script

    A shallow embedding of [src/content.ts] (module [Modern]) and of the
    older [shadertoy-recorder/content.js] (module [Legacy]).

    The content script is straight-line browser-API orchestration around
    two module-level variables, [mediaRecorder] and [recordedBlobs], and
    three callbacks installed on a [MediaRecorder].  The embedding keeps
    that shape:

    - the page state is a record [World] that is threaded through every
      function (explicit state passing);
    - [MediaRecorder] objects live in a heap indexed by allocation order,
      the variable [mediaRecorder] holds an index into it, and the
      closures [ondataavailable], [onstop], [onerror] read the variables
      they capture ([combinedStream], [selectedMimeType]) from the heap
      cell of their recorder;
    - everything the script does to the outside (alerts, console output,
      [track.stop()], the download click) is appended to an effect log;
    - the browser is an event source: [step] delivers one call or one
      callback at a time, [run] folds it over a trace. *)

From Stdlib Require Import ZArith String Ascii List Lia Bool.
From stdpp Require Import base decidable list strings.
Import ListNotations.
Open Scope string_scope.
Open Scope list_scope.

(** ** JavaScript string primitives used by the script *)

(** [s.startsWith(pre)] *)
Definition startsWith (s pre : string) : bool := String.prefix pre s.

(** [s.replace(/[:.]/g, '-')]: every colon and every period becomes a dash. *)
Definition isColonOrPeriod (c : ascii) : bool :=
  (Ascii.eqb c ":" || Ascii.eqb c ".")%char.

Fixpoint replaceColonsAndPeriods (s : string) : string :=
  match s with
  | EmptyString => EmptyString
  | String c s' =>
      String (if isColonOrPeriod c then "-"%char else c)
             (replaceColonsAndPeriods s')
  end.

(** [s.replace(c, d)] with a one-character string pattern: only the first
    occurrence is replaced. *)
Fixpoint replaceFirst (c d : ascii) (s : string) : string :=
  match s with
  | EmptyString => EmptyString
  | String x s' =>
      if Ascii.eqb x c then String d s' else String x (replaceFirst c d s')
  end.

(** [s.slice(0, n)] *)
Fixpoint slice0 (n : nat) (s : string) : string :=
  match n, s with
  | S n', String c s' => String c (slice0 n' s')
  | _, _ => EmptyString
  end.

(** Every character of [s] passes [P]. *)
Fixpoint allChars (P : ascii -> bool) (s : string) : bool :=
  match s with
  | EmptyString => true
  | String c s' => P c && allChars P s'
  end.

(** ASCII lowercase: U+0041..U+005A are mapped to U+0061..U+007A, every
    other character is kept. *)
Definition asciiLowerChar (c : ascii) : ascii :=
  let n := nat_of_ascii c in
  if (65 <=? n)%nat && (n <=? 90)%nat then ascii_of_nat (n + 32) else c.

Fixpoint asciiLowercase (s : string) : string :=
  match s with
  | EmptyString => EmptyString
  | String c s' => String (asciiLowerChar c) (asciiLowercase s')
  end.

(** A character in the range U+0020..U+007E. *)
Definition printableChar (c : ascii) : bool :=
  (32 <=? nat_of_ascii c)%nat && (nat_of_ascii c <=? 126)%nat.

(** ** [Date] and [Date.prototype.toISOString] *)

(** A [Date] is read through its UTC getters; [utcMonth] is zero-based as
    in JavaScript. *)
Record Date := mkDate {
  utcFullYear : Z;
  utcMonth : nat;
  utcDate : nat;
  utcHours : nat;
  utcMinutes : nat;
  utcSeconds : nat;
  utcMilliseconds : nat
}.

Definition digit (n : nat) : ascii :=
  match n mod 10 with
  | 0 => "0" | 1 => "1" | 2 => "2" | 3 => "3" | 4 => "4"
  | 5 => "5" | 6 => "6" | 7 => "7" | 8 => "8" | _ => "9"
  end%char.

(** The [k] low decimal digits of [n], most significant first, zero padded. *)
Fixpoint decimal (k n : nat) : string :=
  match k with
  | O => EmptyString
  | S k' => String (digit (n / 10 ^ k')) (decimal k' n)
  end.

(** Years 0..9999 print with four digits, every other year in the expanded
    form: a sign and six digits (ECMAScript, Date Time String Format). *)
Definition isoYear (y : Z) : string :=
  if ((0 <=? y) && (y <=? 9999))%Z then decimal 4 (Z.to_nat y)
  else String (if (y <? 0)%Z then "-" else "+")%char (decimal 6 (Z.abs_nat y)).

Definition toISOString (d : Date) : string :=
  isoYear (utcFullYear d) +:+ "-" +:+ decimal 2 (utcMonth d + 1) +:+ "-"
    +:+ decimal 2 (utcDate d) +:+ "T" +:+ decimal 2 (utcHours d) +:+ ":"
    +:+ decimal 2 (utcMinutes d) +:+ ":" +:+ decimal 2 (utcSeconds d) +:+ "."
    +:+ decimal 3 (utcMilliseconds d) +:+ "Z".

(** The ranges the runtime guarantees for the fields of a valid [Date],
    with the year restricted to the four-digit range. *)
Definition fourDigitDate (d : Date) : Prop :=
  (0 <= utcFullYear d <= 9999)%Z /\ utcMonth d < 12 /\
  1 <= utcDate d <= 31 /\ utcHours d < 24 /\ utcMinutes d < 60 /\
  utcSeconds d < 60 /\ utcMilliseconds d < 1000.

(** [now.toISOString().replace(/[:.]/g, '-').replace('T', '_').slice(0, 19)],
    shared verbatim by both variants of [onstop]. *)
Definition timestamp (now : Date) : string :=
  slice0 19 (replaceFirst "T" "_" (replaceColonsAndPeriods (toISOString now))).

(** ** Tracks, blobs, recorders *)

Inductive TrackKind := video | audio.

Record MediaStreamTrack := mkTrack { trackId : nat; kind : TrackKind }.

#[global] Instance TrackKind_eq_dec : EqDecision TrackKind.
Proof. solve_decision. Defined.

#[global] Instance MediaStreamTrack_eq_dec : EqDecision MediaStreamTrack.
Proof. solve_decision. Defined.

Definition isAudio (t : MediaStreamTrack) : bool :=
  match kind t with audio => true | video => false end.

Record Blob := mkBlob { blobData : list Byte.byte; blobType : string }.

(** [blob.size] *)
Definition blobSize (b : Blob) : nat := length (blobData b).

(** The [type] of a blob built by the [Blob] constructor: the empty string
    when the given type holds a character outside U+0020..U+007E, and the
    given type in ASCII lowercase otherwise. *)
Definition blobTypeOf (type : string) : string :=
  if allChars printableChar type then asciiLowercase type else EmptyString.

(** [new Blob(parts, { type })]: the parts' bytes in order, tagged with the
    normalised [type]. *)
Definition newBlob (parts : list Blob) (type : string) : Blob :=
  {| blobData := concat (map blobData parts); blobType := blobTypeOf type |}.

(** [MediaRecorder.state] *)
Inductive RecordingState := inactive | recording | paused.

(** A [MediaRecorder] object.  [stream] and [mimeType] are also what the
    callbacks of this recorder capture as [combinedStream] (legacy:
    [stream]) and [selectedMimeType].  [terminated] is runtime
    bookkeeping: the recorder has delivered its [stop] event. *)
Record MediaRecorder := mkRecorder {
  stream : list MediaStreamTrack;
  mimeType : string;
  videoBitsPerSecond : Z;
  audioBitsPerSecond : option Z;
  state : RecordingState;
  timeslice : option Z;
  terminated : bool
}.

(** ** Observable effects *)

Inductive Effect :=
| Alert (message : string)
| ConsoleLog (message : string)
| ConsoleWarn (message : string)
| ConsoleError (message : string)
| NewMediaStream (ts : list MediaStreamTrack)
| NewMediaRecorder (rid : nat) (ts : list MediaStreamTrack)
| RecorderStart (rid : nat) (ts : list MediaStreamTrack) (ms : Z)
| RecorderStop (rid : nat) (ts : list MediaStreamTrack)
| TrackStop (t : MediaStreamTrack)
| Download (name : string) (artifact : Blob)
| SetTimeout (ms : Z).

(** ** The page state *)

Record World := mkWorld {
  tracks : list MediaStreamTrack;     (* every track object created so far *)
  recorders : list MediaRecorder;     (* heap of recorder objects *)
  mediaRecorder : option nat;         (* [let mediaRecorder] *)
  recordedBlobs : list Blob;          (* [let recordedBlobs] *)
  timers : list (list MediaStreamTrack);
    (* pending [setTimeout] callbacks, each given by the tracks it stops *)
  log : list Effect                   (* newest effect first *)
}.

Definition initialWorld : World :=
  {| tracks := []; recorders := []; mediaRecorder := None;
     recordedBlobs := []; timers := []; log := [] |}.

Definition emit (e : Effect) (w : World) : World :=
  {| tracks := tracks w; recorders := recorders w;
     mediaRecorder := mediaRecorder w; recordedBlobs := recordedBlobs w;
     timers := timers w; log := e :: log w |}.

Definition setRecordedBlobs (bs : list Blob) (w : World) : World :=
  {| tracks := tracks w; recorders := recorders w;
     mediaRecorder := mediaRecorder w; recordedBlobs := bs;
     timers := timers w; log := log w |}.

Definition setMediaRecorder (r : option nat) (w : World) : World :=
  {| tracks := tracks w; recorders := recorders w;
     mediaRecorder := r; recordedBlobs := recordedBlobs w;
     timers := timers w; log := log w |}.

Definition setRecorders (rs : list MediaRecorder) (w : World) : World :=
  {| tracks := tracks w; recorders := rs;
     mediaRecorder := mediaRecorder w; recordedBlobs := recordedBlobs w;
     timers := timers w; log := log w |}.

Definition setTimers (ts : list (list MediaStreamTrack)) (w : World) : World :=
  {| tracks := tracks w; recorders := recorders w;
     mediaRecorder := mediaRecorder w; recordedBlobs := recordedBlobs w;
     timers := ts; log := log w |}.

(** The runtime hands out [n] new track objects of kind [k]
    ([canvas.captureStream], [getUserMedia]); identifiers are allocation
    indices, so no two track objects are ever confused. *)
Definition freshTracks (k : TrackKind) (n : nat) (w : World)
  : list MediaStreamTrack :=
  (fun i => {| trackId := length (tracks w) + i; kind := k |}) <$> seq 0 n.

Definition acquire (ts : list MediaStreamTrack) (w : World) : World :=
  {| tracks := tracks w ++ ts; recorders := recorders w;
     mediaRecorder := mediaRecorder w; recordedBlobs := recordedBlobs w;
     timers := timers w; log := log w |}.

(** [ts.forEach(track => track.stop())] *)
Fixpoint stopAll (ts : list MediaStreamTrack) (w : World) : World :=
  match ts with
  | [] => w
  | t :: ts' => stopAll ts' (emit (TrackStop t) w)
  end.

(** [recorder.state = s], and the runtime's mark of a delivered [stop]. *)
Definition withState (s : RecordingState) (fin : bool) (r : MediaRecorder)
  : MediaRecorder :=
  {| stream := stream r; mimeType := mimeType r;
     videoBitsPerSecond := videoBitsPerSecond r;
     audioBitsPerSecond := audioBitsPerSecond r;
     state := s; timeslice := timeslice r; terminated := fin |}.

(** ** What a call of [startRecording] finds on the page *)

Inductive UserMedia :=
| Rejected (message : string)      (* permission denied, no microphone *)
| Granted (audioTracks : nat).     (* a stream with that many tracks *)

Record Page := mkPage {
  demogl : option nat;
    (* [document.getElementById("demogl")]: [None] when the element is
       absent, otherwise the number of tracks [captureStream(60)] yields *)
  getUserMedia : UserMedia;
  isTypeSupported : string -> bool;            (* [MediaRecorder.isTypeSupported] *)
  constructorThrows : option string            (* [new MediaRecorder] raising *)
}.

(** ** Events delivered by the browser *)

Inductive Event :=
| CallStart (p : Page)                 (* [window.startRecording()] *)
| CallStop                             (* [window.stopRecording()] *)
| FireData (rid : nat) (data : option Blob)         (* [dataavailable] *)
| FireStop (rid : nat) (now : Date) (saveThrows : option string) (* [stop] *)
| FireError (rid : nat) (err : string)              (* [error] *)
| FireTimer (i : nat).                 (* the [i]-th pending timeout runs *)

(** The downloads the user has received, oldest first. *)
Fixpoint downloadsOf (l : list Effect) : list (string * Blob) :=
  match l with
  | [] => []
  | Download n b :: l' => downloadsOf l' ++ [(n, b)]
  | _ :: l' => downloadsOf l'
  end.

Definition downloads (w : World) : list (string * Blob) := downloadsOf (log w).

(** How many times [track.stop()] has been called on [t]. *)
Fixpoint stopsIn (t : MediaStreamTrack) (l : list Effect) : nat :=
  match l with
  | [] => 0
  | TrackStop t' :: l' => (if decide (t' = t) then 1 else 0) + stopsIn t l'
  | _ :: l' => stopsIn t l'
  end.

Definition stops (t : MediaStreamTrack) (w : World) : nat := stopsIn t (log w).

(** The tracks an effect operates on. *)
Definition touched (e : Effect) : list MediaStreamTrack :=
  match e with
  | NewMediaStream ts => ts
  | NewMediaRecorder _ ts => ts
  | RecorderStart _ ts _ => ts
  | RecorderStop _ ts => ts
  | TrackStop t => [t]
  | _ => []
  end.

(** No effect operates on a track that an earlier effect has stopped
    (the log is newest first). *)
Fixpoint noUseAfterStop (l : list Effect) : Prop :=
  match l with
  | [] => True
  | e :: l' => (forall t, t ∈ touched e -> stopsIn t l' = 0) /\ noUseAfterStop l'
  end.

(** [recorder.start(ms)] and [recorder.stop()] on the heap cell [rid].
    Per the MediaRecorder contract, [stop()] makes [state] read
    ["inactive"] at once; the final [dataavailable] and the [stop] event
    follow asynchronously. *)
Definition recorderStart (rid : nat) (ms : Z) (w : World) : World :=
  match recorders w !! rid with
  | Some r =>
      setRecorders
        (<[rid := {| stream := stream r; mimeType := mimeType r;
                     videoBitsPerSecond := videoBitsPerSecond r;
                     audioBitsPerSecond := audioBitsPerSecond r;
                     state := recording; timeslice := Some ms;
                     terminated := terminated r |}]> (recorders w))
        (emit (RecorderStart rid (stream r) ms) w)
  | None => w
  end.

Definition recorderStop (rid : nat) (w : World) : World :=
  match recorders w !! rid with
  | Some r =>
      setRecorders (<[rid := withState inactive (terminated r) r]> (recorders w))
        (emit (RecorderStop rid (stream r)) w)
  | None => w
  end.

(** The runtime retires recorder [rid] when it delivers its [stop] event:
    [state] is ["inactive"] and nothing is delivered afterwards. *)
Definition retire (rid : nat) (w : World) : World :=
  match recorders w !! rid with
  | Some r => setRecorders (<[rid := withState inactive true r]> (recorders w)) w
  | None => w
  end.

(** The runtime inactivates recorder [rid] when the encoder fails: [state]
    reads ["inactive"] before the [error] event is delivered.  The final
    [dataavailable] and the [stop] event of the recorder are still to
    come. *)
Definition inactivate (rid : nat) (w : World) : World :=
  match recorders w !! rid with
  | Some r =>
      setRecorders (<[rid := withState inactive (terminated r) r]> (recorders w)) w
  | None => w
  end.

(** ** The current content script, [src/content.ts] *)

Module Modern.

Definition dq : string := String "034"%char EmptyString.

Definition mimeTypes : list string :=
  [ "video/mp4; codecs=" +:+ dq +:+ "avc1.42E01E, mp4a.40.2" +:+ dq;
    "video/webm; codecs=" +:+ dq +:+ "vp9, opus" +:+ dq;
    "video/webm; codecs=" +:+ dq +:+ "vp8, opus" +:+ dq;
    "video/webm; codecs=" +:+ dq +:+ "h264, opus" +:+ dq;
    "video/mp4";
    "video/webm" ].

(** [async function startRecording()].  The only suspension point is the
    [await] on [getUserMedia]; before it the function has only looked the
    canvas up, so running the call in one step loses no interleaving. *)
Definition startRecording (p : Page) (w : World) : World :=
  match demogl p with
  | None =>
      emit (ConsoleError "Canvas element with ID 'demogl' not found!")
        (emit (Alert "Canvas element with ID 'demogl' not found!") w)
  | Some nv =>
      let '(audioStream, w) :=
        match getUserMedia p with
        | Granted na =>
            let ats := freshTracks audio na w in
            (Some ats,
             emit (ConsoleLog "Audio stream obtained successfully.")
               (acquire ats w))
        | Rejected msg =>
            (None,
             emit (Alert ("Could not get audio stream. Recording video only. Error: "
                            +:+ msg))
               (emit (ConsoleError ("Could not get audio stream: " +:+ msg)) w))
        end in
      let videoStream := freshTracks video nv w in
      let w := emit (ConsoleLog "Video stream captured from canvas.")
                 (acquire videoStream w) in
      let w := setRecordedBlobs [] w in
      let '(tracksToCombine, w) :=
        match audioStream with
        | Some ats =>
            (videoStream ++ ats,
             emit (ConsoleLog "Audio tracks added to combined stream.") w)
        | None =>
            (videoStream,
             emit (ConsoleWarn "Proceeding with video-only recording as audio stream was not available or permission denied.") w)
        end in
      if (length tracksToCombine =? 0)%nat then
        let w := emit (ConsoleError "No tracks available for recording.")
                   (emit (Alert "No tracks available for recording. Cannot start MediaRecorder.") w) in
        let w := stopAll videoStream w in
        match audioStream with
        | Some ats => stopAll ats w
        | None => w
        end
      else
        let combinedStream := tracksToCombine in
        let w := emit (NewMediaStream combinedStream) w in
        match find (isTypeSupported p) mimeTypes with
        | None =>
            stopAll combinedStream
              (emit (ConsoleError "No suitable MIME type found from the preferred list.")
                 (emit (Alert "No suitable MIME type found for MediaRecorder.") w))
        | Some selectedMimeType =>
            let w := emit (ConsoleLog ("Using MIME type: " +:+ selectedMimeType)) w in
            match constructorThrows p with
            | Some msg =>
                stopAll combinedStream
                  (emit (ConsoleError ("Failed to create MediaRecorder: " +:+ msg))
                     (emit (Alert ("Failed to create MediaRecorder: " +:+ msg)) w))
            | None =>
                let rid := length (recorders w) in
                let r :=
                  {| stream := combinedStream;
                     mimeType := selectedMimeType;
                     videoBitsPerSecond := 5000000;
                     audioBitsPerSecond :=
                       match audioStream with
                       | Some _ => Some 128000%Z
                       | None => None
                       end;
                     state := inactive; timeslice := None;
                     terminated := false |} in
                let w := setMediaRecorder (Some rid)
                           (setRecorders (recorders w ++ [r])
                              (emit (NewMediaRecorder rid combinedStream) w)) in
                let w := recorderStart rid 100 w in
                emit (ConsoleLog "Recording started (attempting audio and video)...") w
            end
        end
  end.

(** [mediaRecorder.ondataavailable] *)
Definition ondataavailable (data : option Blob) (w : World) : World :=
  match data with
  | Some b =>
      if (0 <? blobSize b)%nat then setRecordedBlobs (recordedBlobs w ++ [b]) w
      else w
  | None => w
  end.

(** The value assigned to [a.download]. *)
Definition downloadName (now : Date) (selectedMimeType : string) : string :=
  let fileExtension :=
    if startsWith selectedMimeType "video/webm" then ".webm" else ".mp4" in
  "shadertoy-recording_" +:+ timestamp now +:+ fileExtension.

(** [mediaRecorder.onstop], a closure over recorder [r]'s [combinedStream]
    and [selectedMimeType].  [saveThrows] is the exception, if any, that
    the body of the [try] raises while it builds the blob, the object URL
    and the anchor, before [a.click()]. *)
Definition onstop (r : MediaRecorder) (now : Date) (saveThrows : option string)
    (w : World) : World :=
  let w := emit (ConsoleLog "MediaRecorder stopped.") w in
  let w :=
    if (length (recordedBlobs w) =? 0)%nat then
      emit (ConsoleWarn "No data was recorded.") w
    else
      match saveThrows with
      | Some err =>
          emit (Alert "Error saving video. Please try again. Check console for details.")
            (emit (ConsoleError ("Error saving video: " +:+ err)) w)
      | None =>
          let blob := newBlob (recordedBlobs w) (mimeType r) in
          let w := emit (Download (downloadName now (mimeType r)) blob) w in
          setTimers (timers w ++ [[]]) (emit (SetTimeout 100) w)
      end in
  let w := stopAll (stream r) w in
  let w := emit (ConsoleLog "All tracks stopped (onstop).") w in
  setMediaRecorder None w.

(** [mediaRecorder.onerror] *)
Definition onerror (r : MediaRecorder) (err : string) (w : World) : World :=
  let w := emit (ConsoleError ("MediaRecorder error: " +:+ err)) w in
  let w := emit (Alert "MediaRecorder error. Recording cannot continue. Check console for details.") w in
  let w := stopAll (stream r) w in
  let w := emit (ConsoleLog "All tracks stopped (MediaRecorder error).") w in
  setMediaRecorder None w.

Definition notActiveWarning : string :=
  "stopRecording called but mediaRecorder not active or not initialized properly.".

(** [function stopRecording()] *)
Definition stopRecording (w : World) : World :=
  match mediaRecorder w with
  | Some rid =>
      match recorders w !! rid with
      | Some r =>
          match state r with
          | recording | paused =>
              emit (ConsoleLog "Stop recording signal sent to MediaRecorder.")
                (recorderStop rid w)
          | inactive => emit (ConsoleWarn notActiveWarning) w
          end
      | None => emit (ConsoleWarn notActiveWarning) w
      end
  | None => emit (ConsoleWarn notActiveWarning) w
  end.

(** The [setTimeout] callback of [onstop]: it removes the anchor and
    revokes the URL; it holds no track. *)
Definition ontimeout (w : World) : World :=
  emit (ConsoleLog "Download link revoked and element removed.") w.

(** One browser event.  A recorder receives callbacks until its [stop]
    event has been delivered, and none afterwards.  An encoder fault
    inactivates the recorder and delivers [error]; the runtime follows it
    with the final [dataavailable] and with [stop], which the trace lists
    as events of their own, so [onstop] runs after [onerror]. *)
Definition step (w : World) (e : Event) : World :=
  match e with
  | CallStart p => startRecording p w
  | CallStop => stopRecording w
  | FireData rid data =>
      match recorders w !! rid with
      | Some r => if terminated r then w else ondataavailable data w
      | None => w
      end
  | FireStop rid now saveThrows =>
      match recorders w !! rid with
      | Some r => if terminated r then w else onstop r now saveThrows (retire rid w)
      | None => w
      end
  | FireError rid err =>
      match recorders w !! rid with
      | Some r => if terminated r then w else onerror r err (inactivate rid w)
      | None => w
      end
  | FireTimer i =>
      match timers w !! i with
      | Some _ => ontimeout (setTimers (delete i (timers w)) w)
      | None => w
      end
  end.

Definition run (w : World) (evs : list Event) : World := fold_left step evs w.

End Modern.

(** ** The older script, [shadertoy-recorder/content.js] *)

Module Legacy.

Definition mimeTypes : list string :=
  [ "video/mp4"; "video/webm;codecs=h264"; "video/webm;codecs=vp9"; "video/webm" ].

(** [function startRecording()]: video only, no failure handling.  An
    exception of [new MediaRecorder] leaves the function uncaught. *)
Definition startRecording (p : Page) (w : World) : World :=
  match demogl p with
  | None => emit (Alert "Canvas not found!") w
  | Some nv =>
      let stream := freshTracks video nv w in
      let w := acquire stream w in
      let w := setRecordedBlobs [] w in
      let selectedMimeType :=
        match find (isTypeSupported p) mimeTypes with
        | Some m => m
        | None => "video/webm"
        end in
      let w := emit (ConsoleLog ("Using MIME type: " +:+ selectedMimeType)) w in
      match constructorThrows p with
      | Some _ => w
      | None =>
          let rid := length (recorders w) in
          let r :=
            {| stream := stream; mimeType := selectedMimeType;
               videoBitsPerSecond := 5000000; audioBitsPerSecond := None;
               state := inactive; timeslice := None; terminated := false |} in
          let w := setMediaRecorder (Some rid)
                     (setRecorders (recorders w ++ [r])
                        (emit (NewMediaRecorder rid stream) w)) in
          let w := recorderStart rid 100 w in
          emit (ConsoleLog "Recording started...") w
      end
  end.

Definition ondataavailable (data : option Blob) (w : World) : World :=
  match data with
  | Some b =>
      if (0 <? blobSize b)%nat then setRecordedBlobs (recordedBlobs w ++ [b]) w
      else w
  | None => w
  end.

Definition downloadName (now : Date) : string :=
  "shadertoy-recording_" +:+ timestamp now +:+ ".mp4".

(** [mediaRecorder.onstop]: the tracks are stopped only by the timeout
    that follows a successful save. *)
Definition onstop (r : MediaRecorder) (now : Date) (saveThrows : option string)
    (w : World) : World :=
  if (length (recordedBlobs w) =? 0)%nat then
    emit (ConsoleError "No data was recorded") w
  else
    match saveThrows with
    | Some err =>
        emit (Alert "Error saving video. Please try again.")
          (emit (ConsoleError ("Error saving video: " +:+ err)) w)
    | None =>
        let blob := newBlob (recordedBlobs w) (mimeType r) in
        let w := emit (Download (downloadName now) blob) w in
        setTimers (timers w ++ [stream r]) (emit (SetTimeout 100) w)
    end.

Definition stopRecording (w : World) : World :=
  match mediaRecorder w with
  | Some rid =>
      match recorders w !! rid with
      | Some r =>
          match state r with
          | recording => emit (ConsoleLog "Recording stopped.") (recorderStop rid w)
          | _ => w
          end
      | None => w
      end
  | None => w
  end.

Definition ontimeout (ts : list MediaStreamTrack) (w : World) : World :=
  stopAll ts w.

(** No [onerror] is installed: an encoder fault only inactivates the
    recorder; its final [dataavailable] and its [stop] event follow. *)
Definition step (w : World) (e : Event) : World :=
  match e with
  | CallStart p => startRecording p w
  | CallStop => stopRecording w
  | FireData rid data =>
      match recorders w !! rid with
      | Some r => if terminated r then w else ondataavailable data w
      | None => w
      end
  | FireStop rid now saveThrows =>
      match recorders w !! rid with
      | Some r => if terminated r then w else onstop r now saveThrows (retire rid w)
      | None => w
      end
  | FireError rid err =>
      match recorders w !! rid with
      | Some r => if terminated r then w else inactivate rid w
      | None => w
      end
  | FireTimer i =>
      match timers w !! i with
      | Some ts => ontimeout ts (setTimers (delete i (timers w)) w)
      | None => w
      end
  end.

Definition run (w : World) (evs : list Event) : World := fold_left step evs w.

End Legacy.

(** ** Vocabulary of the specification *)

(** The timestamp as the specification words it: [YYYY-MM-DD_HH-MM-SS]. *)
Definition specTimestamp (d : Date) : string :=
  decimal 4 (Z.to_nat (utcFullYear d)) +:+ "-" +:+ decimal 2 (utcMonth d + 1)
    +:+ "-" +:+ decimal 2 (utcDate d) +:+ "_" +:+ decimal 2 (utcHours d)
    +:+ "-" +:+ decimal 2 (utcMinutes d) +:+ "-" +:+ decimal 2 (utcSeconds d).

(** A profile is MP4-family when its MIME type names the [video/mp4]
    container. *)
Definition isMP4Family (mime : string) : bool := startsWith mime "video/mp4".

Definition specExtension (mime : string) : string :=
  if isMP4Family mime then "mp4" else "webm".

(** [shadertoy-recording_<YYYY-MM-DD_HH-MM-SS>.<ext>] *)
Definition specArtifactName (now : Date) (mime : string) : string :=
  "shadertoy-recording_" +:+ specTimestamp now +:+ "." +:+ specExtension mime.

(** ** Sessions and their chunks *)

(** The events that belong to the life of session [rid] before its
    [stop] event: its own [dataavailable] callbacks, calls of
    [stopRecording], and timeouts. *)
Definition withinSession (rid : nat) (e : Event) : bool :=
  match e with
  | FireData rid' _ => bool_decide (rid' = rid)
  | CallStop | FireTimer _ => true
  | _ => false
  end.

(** The chunks recorder [rid] emitted along a trace, in emission order. *)
Fixpoint emittedChunks (rid : nat) (evs : list Event) : list Blob :=
  match evs with
  | [] => []
  | FireData rid' (Some b) :: evs' =>
      if decide (rid' = rid) then b :: emittedChunks rid evs'
      else emittedChunks rid evs'
  | _ :: evs' => emittedChunks rid evs'
  end.

Definition nonEmptyChunk (b : Blob) : bool := (0 <? blobSize b)%nat.

(** An encoder fault, and the traces without one. *)
Definition isFault (e : Event) : bool :=
  match e with
  | FireError _ _ => true
  | _ => false
  end.

Definition faultFree (evs : list Event) : bool :=
  forallb (fun e => negb (isFault e)) evs.

(** ** Ownership invariant of the tracks *)

(** [t] belongs to a recorder that has not delivered its [stop] event. *)
Definition live (w : World) (t : MediaStreamTrack) : Prop :=
  exists rid r,
    recorders w !! rid = Some r /\ terminated r = false /\ t ∈ stream r.

(** [held] are the tracks in the hands of the function that is running:
    acquired, and neither stopped nor owned by a live recorder.  Between
    events [held] is empty. *)
Record Inv (held : list MediaStreamTrack) (w : World) : Prop := mkInv {
  inv_bounded : forall t, t ∈ tracks w -> trackId t < length (tracks w);
  inv_stopped : forall t, stops t w <> 0 -> t ∈ tracks w;
  inv_held_nodup : NoDup held;
  inv_held : forall t, t ∈ held -> t ∈ tracks w /\ stops t w = 0;
  inv_stream_nodup : forall rid r, recorders w !! rid = Some r ->
      NoDup (stream r);
  inv_stream_known : forall rid r t, recorders w !! rid = Some r ->
      t ∈ stream r -> t ∈ tracks w /\ (t ∉ held);
  inv_stream_live : forall rid r t, recorders w !! rid = Some r ->
      terminated r = false -> t ∈ stream r -> stops t w = 0;
  inv_disjoint : forall i j ri rj t, i <> j ->
      recorders w !! i = Some ri -> recorders w !! j = Some rj ->
      t ∈ stream ri -> t ∉ stream rj;
  inv_inactive : forall rid r, recorders w !! rid = Some r ->
      terminated r = true -> state r = inactive;
  inv_clean : noUseAfterStop (log w);
  inv_released : forall t, t ∈ tracks w -> stops t w = 1 \/ t ∈ held \/ live w t
}.

(** What holds of the tracks on every page state, encoder faults
    included: identifiers are allocation indices, and only tracks the page
    has acquired are stopped or recorded. *)
Record Known (w : World) : Prop := mkKnown {
  known_bounded : forall t, t ∈ tracks w -> trackId t < length (tracks w);
  known_stopped : forall t, stops t w <> 0 -> t ∈ tracks w;
  known_stream : forall rid r t, recorders w !! rid = Some r ->
      t ∈ stream r -> t ∈ tracks w
}.

(** What [Modern.startRecording] builds when it reaches [start(100)]. *)
Definition modernRecorder (p : Page) (nv : nat) (m : string) (w : World)
  : MediaRecorder :=
  match getUserMedia p with
  | Granted na =>
      let ats := freshTracks audio na w in
      {| stream := freshTracks video nv (acquire ats w) ++ ats; mimeType := m;
         videoBitsPerSecond := 5000000; audioBitsPerSecond := Some 128000%Z;
         state := recording; timeslice := Some 100%Z; terminated := false |}
  | Rejected _ =>
      {| stream := freshTracks video nv w; mimeType := m;
         videoBitsPerSecond := 5000000; audioBitsPerSecond := None;
         state := recording; timeslice := Some 100%Z; terminated := false |}
  end.

Definition audioCount (p : Page) : nat :=
  match getUserMedia p with Granted na => na | Rejected _ => 0 end.

(** Whether [Modern.startRecording] reaches [start(100)] on page [p], and
    if so with how many video tracks and which MIME type. *)
Definition modernStarts (p : Page) : option (nat * string) :=
  match demogl p with
  | None => None
  | Some nv =>
      if (nv + audioCount p =? 0)%nat then None
      else
        match find (isTypeSupported p) Modern.mimeTypes with
        | None => None
        | Some m =>
            match constructorThrows p with
            | Some _ => None
            | None => Some (nv, m)
            end
        end
  end.

(** Two heap cells describe the same recorder up to [state] and the
    mark of a delivered [stop]. *)
Definition sameConfig (r r' : MediaRecorder) : Prop :=
  stream r' = stream r /\ mimeType r' = mimeType r /\
  videoBitsPerSecond r' = videoBitsPerSecond r /\
  audioBitsPerSecond r' = audioBitsPerSecond r /\
  (timeslice r = Some 100%Z -> timeslice r' = Some 100%Z).

(** Every microphone stream that [getUserMedia({ audio: true })] resolves
    with carries at least one audio track. *)
Definition microphoneHasTrack (e : Event) : Prop :=
  match e with
  | CallStart p =>
      match getUserMedia p with Granted na => 0 < na | Rejected _ => True end
  | _ => True
  end.

(** ** Sample inputs *)

(** A browser that records WebM only. *)
Definition webmOnly (mime : string) : bool := startsWith mime "video/webm".

(** A browser that records nothing. *)
Definition nothingSupported (mime : string) : bool := false.

(** The canvas exists and yields one video track; the microphone is
    refused. *)
Definition samplePage : Page :=
  {| demogl := Some 1; getUserMedia := Rejected "Permission denied";
     isTypeSupported := webmOnly; constructorThrows := None |}.

(** The same page with a microphone of one track. *)
Definition samplePageWithAudio : Page :=
  {| demogl := Some 1; getUserMedia := Granted 1;
     isTypeSupported := webmOnly; constructorThrows := None |}.

Definition samplePageNoFormat : Page :=
  {| demogl := Some 1; getUserMedia := Granted 1;
     isTypeSupported := nothingSupported; constructorThrows := None |}.

Definition sampleChunk : Blob :=
  {| blobData := [Byte.x1a; Byte.x45; Byte.xdf; Byte.xa3];
     blobType := "video/webm" |}.

Definition emptyChunk : Blob := {| blobData := []; blobType := "video/webm" |}.

(** 2024-01-15 09:30:45.123 UTC *)
Definition sampleNow : Date := mkDate 2024 0 15 9 30 45 123.

Definition sampleVideoTrack : MediaStreamTrack := {| trackId := 0; kind := video |}.

(** The recorder that [Modern.startRecording] builds on [samplePage]. *)
Definition sampleRecorder : MediaRecorder :=
  {| stream := [sampleVideoTrack];
     mimeType := "video/webm; codecs=" +:+ Modern.dq +:+ "vp9, opus" +:+ Modern.dq;
     videoBitsPerSecond := 5000000; audioBitsPerSecond := None;
     state := recording; timeslice := Some 100%Z; terminated := false |}.

(** ** The popup, [src/popup.tsx] *)

From Stdlib Require Import DecimalString DecimalPos DecimalZ.

(** [String(n)] for an integer-valued number [n]. *)
Definition jsString (z : Z) : string := NilZero.string_of_int (Z.to_int z).

Fixpoint zeros (k : nat) : string :=
  match k with
  | O => EmptyString
  | S k' => String "0" (zeros k')
  end.

(** [s.padStart(n, "0")] *)
Definition padStart0 (n : nat) (s : string) : string :=
  zeros (n - String.length s) +:+ s.

(** The text the interval callback hands to [setDuration]:
    [Math.floor] of the quotients is the floor division of [Z], the
    remainder operator [%] takes the sign of the dividend like [Z.rem].
    The legacy [updateTimer] computes the same text after the prefix
    ["Duration: "]. *)
Definition formatDuration (now startTime : Z) : string :=
  let elapsedSeconds := ((now - startTime) / 1000)%Z in
  let minutes := padStart0 2 (jsString (elapsedSeconds / 60)%Z) in
  let seconds := padStart0 2 (jsString (Z.rem elapsedSeconds 60)) in
  minutes +:+ ":" +:+ seconds.

(** JavaScript truthiness of a number or null: null and [0] are falsy. *)
Definition truthy (o : option Z) : bool :=
  match o with
  | Some n => negb (n =? 0)%Z
  | None => false
  end.

(** The React state of the component [Popup]. *)
Record Popup := mkPopup {
  isRecording : bool;
  startTime : option Z;
  duration : string;
  currentTabId : option Z
}.

Definition initialPopup : Popup :=
  {| isRecording := false; startTime := None; duration := "00:00";
     currentTabId := None |}.

(** ['recording' | 'stopped'] *)
Inductive StoredFlag := storedRecording | storedStopped.

(** What [chrome.storage.local] holds under the two keys. *)
Record Storage := mkStorage {
  recordingState : option StoredFlag;
  recordingStartTime : option Z
}.

Inductive PopupEffect :=
| PopupConsoleError (message : string)
| PopupAlert (message : string)
| WindowClose.

(** The popup, the extension storage and the page of the active tab. *)
Record Browser := mkBrowser {
  popup : Popup;
  storage : Storage;
  page : World;
  popupLog : list PopupEffect          (* newest first *)
}.

(** The timer effect, run after a render that changed [isRecording] or
    [startTime]: without a running timer the display is reset. *)
Definition timerEffect (s : Popup) : Popup :=
  if isRecording s && truthy (startTime s) then s
  else {| isRecording := isRecording s; startTime := startTime s;
          duration := "00:00"; currentTabId := currentTabId s |}.

(** The interval callback; the interval exists only while the timer
    effect found the popup recording. *)
Definition tick (now : Z) (s : Popup) : Popup :=
  match startTime s with
  | Some st =>
      if isRecording s && truthy (startTime s) then
        {| isRecording := isRecording s; startTime := startTime s;
           duration := formatDuration now st; currentTabId := currentTabId s |}
      else s
  | None => s
  end.

(** The callback of [chrome.tabs.query]: [tabId] is [tabs[0].id], if
    there is a tab. *)
Definition onTabs (tabId : option Z) (b : Browser) : Browser :=
  if truthy tabId then
    {| popup := {| isRecording := isRecording (popup b);
                   startTime := startTime (popup b);
                   duration := duration (popup b); currentTabId := tabId |};
       storage := storage b; page := page b; popupLog := popupLog b |}
  else
    {| popup := popup b; storage := storage b; page := page b;
       popupLog := PopupConsoleError "Could not get active tab ID." :: popupLog b |}.

(** The effect that restores the recording state when the popup opens:
    the callback of [chrome.storage.local.get], with [lastError] if the
    read failed. *)
Definition onRestore (lastError : option string) (b : Browser) : Browser :=
  if negb (truthy (currentTabId (popup b))) then b
  else
    match lastError with
    | Some err =>
        {| popup := popup b; storage := storage b; page := page b;
           popupLog := PopupConsoleError
                         ("Error getting recording state from storage: " +:+ err)
                         :: popupLog b |}
    | None =>
        let result := storage b in
        let restored :=
          match recordingState result with
          | Some storedRecording =>
              if truthy (recordingStartTime result) then
                {| isRecording := true; startTime := recordingStartTime result;
                   duration := duration (popup b);
                   currentTabId := currentTabId (popup b) |}
              else
                {| isRecording := false; startTime := None;
                   duration := duration (popup b);
                   currentTabId := currentTabId (popup b) |}
          | _ =>
              {| isRecording := false; startTime := None;
                 duration := duration (popup b);
                 currentTabId := currentTabId (popup b) |}
          end in
        {| popup := timerEffect restored; storage := storage b; page := page b;
           popupLog := popupLog b |}
    end.

(** What a click finds: whether [chrome.scripting.executeScript] rejects,
    what the injected call finds on the page, the clock, and whether the
    storage write fails. *)
Record Click := mkClick {
  scriptRejects : option string;
  found : Page;
  clock : Z;
  storageFails : option string
}.

(** [chrome.storage.local.set(value, callback)]: a failed write leaves
    the storage as it was and the callback prints [lastError]. *)
Definition storageSet (value : Storage) (failure : option string)
    (message : string) (b : Browser) : Browser :=
  match failure with
  | None =>
      {| popup := popup b; storage := value; page := page b;
         popupLog := popupLog b |}
  | Some err =>
      {| popup := popup b; storage := storage b; page := page b;
         popupLog := PopupConsoleError (message +:+ err) :: popupLog b |}
  end.

(** [handleStart] *)
Definition handleStart (c : Click) (b : Browser) : Browser :=
  if negb (truthy (currentTabId (popup b))) then
    {| popup := popup b; storage := storage b; page := page b;
       popupLog := PopupAlert "Error: Could not identify the active tab to start recording."
                     :: PopupConsoleError "No active tab ID found to start recording."
                     :: popupLog b |}
  else
    match scriptRejects c with
    | Some err =>
        {| popup := popup b; storage := storage b; page := page b;
           popupLog := PopupAlert "Failed to start recording. Check console for details."
                         :: PopupConsoleError
                              ("Error executing startRecording script or setting state: " +:+ err)
                         :: popupLog b |}
    | None =>
        let now := clock c in
        let b :=
          {| popup := timerEffect
                        {| isRecording := true; startTime := Some now;
                           duration := duration (popup b);
                           currentTabId := currentTabId (popup b) |};
             storage := storage b;
             page := Modern.startRecording (found c) (page b);
             popupLog := popupLog b |} in
        storageSet {| recordingState := Some storedRecording;
                      recordingStartTime := Some now |}
          (storageFails c) "Error setting recording state in storage: " b
    end.

(** [handleStop].  The storage callback runs after [window.close()] has
    been called. *)
Definition handleStop (c : Click) (b : Browser) : Browser :=
  if negb (truthy (currentTabId (popup b))) then
    {| popup := popup b; storage := storage b; page := page b;
       popupLog := PopupConsoleError "No active tab ID found to stop recording."
                     :: popupLog b |}
  else
    match scriptRejects c with
    | Some err =>
        {| popup := popup b; storage := storage b; page := page b;
           popupLog := PopupConsoleError
                         ("Error executing stopRecording script or setting state: " +:+ err)
                         :: popupLog b |}
    | None =>
        let b :=
          {| popup := timerEffect
                        {| isRecording := false; startTime := None;
                           duration := duration (popup b);
                           currentTabId := currentTabId (popup b) |};
             storage := storage b;
             page := Modern.stopRecording (page b);
             popupLog := WindowClose :: popupLog b |} in
        storageSet {| recordingState := Some storedStopped;
                      recordingStartTime := None |}
          (storageFails c)
          "Error setting recording state to 'stopped' in storage: " b
    end.

(** The [disabled] attributes of the two buttons. *)
Definition startDisabled (s : Popup) : bool :=
  isRecording s || negb (truthy (currentTabId s)).

Definition stopDisabled (s : Popup) : bool :=
  negb (isRecording s) || negb (truthy (currentTabId s)).

(** Opening the popup anew over the same storage and page: a fresh
    component, the tab query, then the restore effect. *)
Definition reopen (tabId : option Z) (b : Browser) : Browser :=
  onRestore None
    (onTabs tabId
       {| popup := initialPopup; storage := storage b; page := page b;
          popupLog := [] |}).

(** ** Further bookkeeping over the log and the heap *)

(** How many times [recorder.stop()] has been called on recorder [rid]. *)
Fixpoint stopSignals (rid : nat) (l : list Effect) : nat :=
  match l with
  | [] => 0
  | RecorderStop rid' _ :: l' =>
      (if decide (rid' = rid) then 1 else 0) + stopSignals rid l'
  | _ :: l' => stopSignals rid l'
  end.

(** Neither a colon nor a period. *)
Definition plainChar (c : ascii) : bool := negb (isColonOrPeriod c).

(** The recorders that have delivered their [stop] event. *)
Definition finished (w : World) : nat :=
  length (List.filter terminated (recorders w)).

(** * Proofs *)

(** ** The timestamp *)

Lemma digit_plain (n : nat) :
  isColonOrPeriod (digit n) = false /\ Ascii.eqb (digit n) "T" = false.
Proof.
  unfold digit.
  destruct (n mod 10) as [|[|[|[|[|[|[|[|[|k]]]]]]]]]; split; reflexivity.
Qed.

(** For a four-digit year the three string operations of [onstop] turn the
    ISO form into [YYYY-MM-DD_HH-MM-SS]. *)
Lemma timestamp_format (d : Date) :
  (0 <= utcFullYear d <= 9999)%Z -> timestamp d = specTimestamp d.
Proof.
  intros Hy. unfold timestamp, specTimestamp, toISOString, isoYear.
  replace ((0 <=? utcFullYear d)%Z && (utcFullYear d <=? 9999)%Z) with true
    by (symmetry; apply andb_true_intro; split; apply Z.leb_le; lia).
  cbv [decimal String.append].
  cbn [replaceColonsAndPeriods].
  rewrite !(proj1 (digit_plain _)).
  cbn [isColonOrPeriod Ascii.eqb Bool.eqb orb].
  cbn [replaceFirst].
  rewrite !(proj2 (digit_plain _)).
  cbn [Ascii.eqb Bool.eqb slice0].
  reflexivity.
Qed.

(** Outside the four-digit range [toISOString] switches to the expanded
    year and the slice no longer reaches the seconds. *)
Example timestamp_expanded_year :
  timestamp (mkDate 10000 0 1 0 0 0 0) = "+010000-01-01_00-00".
Proof. reflexivity. Qed.

Example timestamp_sample :
  timestamp (mkDate 2024 0 15 9 30 45 123) = "2024-01-15_09-30-45".
Proof. reflexivity. Qed.

(** ** The effect log *)

Lemma stops_emit (e : Effect) (t : MediaStreamTrack) (w : World) :
  (forall t', e <> TrackStop t') -> stops t (emit e w) = stops t w.
Proof.
  intros He. unfold stops. cbn.
  destruct e; try reflexivity. exfalso. eapply He. reflexivity.
Qed.

Lemma stops_emit_stop (t t' : MediaStreamTrack) (w : World) :
  stops t (emit (TrackStop t') w)
  = (if decide (t' = t) then 1 else 0) + stops t w.
Proof. reflexivity. Qed.

Lemma tracks_stopAll ts w : tracks (stopAll ts w) = tracks w.
Proof. revert w. induction ts as [|t ts IH]; intros w; cbn; [|rewrite IH]; reflexivity. Qed.

Lemma recorders_stopAll ts w : recorders (stopAll ts w) = recorders w.
Proof. revert w. induction ts as [|t ts IH]; intros w; cbn; [|rewrite IH]; reflexivity. Qed.

Lemma mediaRecorder_stopAll ts w : mediaRecorder (stopAll ts w) = mediaRecorder w.
Proof. revert w. induction ts as [|t ts IH]; intros w; cbn; [|rewrite IH]; reflexivity. Qed.

Lemma recordedBlobs_stopAll ts w : recordedBlobs (stopAll ts w) = recordedBlobs w.
Proof. revert w. induction ts as [|t ts IH]; intros w; cbn; [|rewrite IH]; reflexivity. Qed.

Lemma timers_stopAll ts w : timers (stopAll ts w) = timers w.
Proof. revert w. induction ts as [|t ts IH]; intros w; cbn; [|rewrite IH]; reflexivity. Qed.

Lemma log_stopAll ts w : log (stopAll ts w) = rev (map TrackStop ts) ++ log w.
Proof.
  revert w. induction ts as [|t ts IH]; intros w; cbn; [reflexivity|].
  rewrite IH. cbn. rewrite <- app_assoc. reflexivity.
Qed.

Lemma downloads_stopAll ts w : downloads (stopAll ts w) = downloads w.
Proof. revert w. induction ts as [|t ts IH]; intros w; cbn; [|rewrite IH]; reflexivity. Qed.

Lemma stops_stopAll_notin t ts w : t ∉ ts -> stops t (stopAll ts w) = stops t w.
Proof.
  revert w. induction ts as [|t' ts IH]; intros w Hn; cbn; [reflexivity|].
  apply not_elem_of_cons in Hn as [Hne Hn].
  rewrite IH by assumption. rewrite stops_emit_stop.
  destruct (decide (t' = t)); [congruence | reflexivity].
Qed.

Lemma stops_stopAll_in t ts w :
  NoDup ts -> t ∈ ts -> stops t (stopAll ts w) = S (stops t w).
Proof.
  revert w. induction ts as [|t' ts IH]; intros w Hnd Hin; cbn.
  - inversion Hin.
  - apply NoDup_cons in Hnd as [Hn Hnd].
    apply elem_of_cons in Hin as [->|Hin].
    + rewrite stops_stopAll_notin by assumption. rewrite stops_emit_stop.
      destruct (decide (t' = t')); [reflexivity | congruence].
    + rewrite IH by assumption. rewrite stops_emit_stop.
      destruct (decide (t' = t)) as [->|]; [contradiction | reflexivity].
Qed.

Lemma noUseAfterStop_stopAll ts w :
  NoDup ts -> (forall t, t ∈ ts -> stops t w = 0) ->
  noUseAfterStop (log w) -> noUseAfterStop (log (stopAll ts w)).
Proof.
  revert w. induction ts as [|t ts IH]; intros w Hnd H0 Hc; cbn; [assumption|].
  apply NoDup_cons in Hnd as [Hn Hnd].
  apply IH; [assumption| |].
  - intros t' Hin. rewrite stops_emit_stop.
    destruct (decide (t = t')) as [->|]; [contradiction|].
    apply H0. right. assumption.
  - cbn. split; [|assumption].
    intros t' Hin. apply list_elem_of_singleton in Hin as ->.
    apply H0. left.
Qed.

(** ** Preservation of the ownership invariant *)

Section Ownership.

Implicit Types (w : World) (t : MediaStreamTrack) (h ts : list MediaStreamTrack).

Lemma fresh_spec k n w t :
  t ∈ freshTracks k n w <->
  exists i, i < n /\ t = {| trackId := length (tracks w) + i; kind := k |}.
Proof.
  unfold freshTracks. rewrite list_elem_of_fmap. split.
  - intros (i & -> & Hi). apply elem_of_seq in Hi. exists i. split; [lia | reflexivity].
  - intros (i & Hi & ->). exists i. split; [reflexivity|]. apply elem_of_seq. lia.
Qed.

Lemma fresh_nodup k n w : NoDup (freshTracks k n w).
Proof.
  unfold freshTracks. apply NoDup_fmap_2; [|apply NoDup_seq].
  intros i j Hij. injection Hij. lia.
Qed.

Lemma fresh_length k n w : length (freshTracks k n w) = n.
Proof. unfold freshTracks. rewrite length_fmap, length_seq. reflexivity. Qed.

Lemma fresh_kind k n w t : t ∈ freshTracks k n w -> kind t = k.
Proof. intros (i & _ & ->)%fresh_spec. reflexivity. Qed.

(** The invariant reads only the tracks, the recorders and the log. *)
Lemma Inv_ext h w w' :
  tracks w' = tracks w -> recorders w' = recorders w -> log w' = log w ->
  Inv h w -> Inv h w'.
Proof.
  intros Ht Hr Hl [? ? ? ? ? ? ? ? ? ? ?].
  constructor; unfold stops, live in *; rewrite ?Ht, ?Hr, ?Hl; assumption.
Qed.

(** An effect that stops nothing and operates only on unstopped tracks. *)
Lemma Inv_emit h w e :
  (forall t', e <> TrackStop t') ->
  (forall t, t ∈ touched e -> t ∈ h \/ live w t) ->
  Inv h w -> Inv h (emit e w).
Proof.
  intros He Huse I. destruct I as [Hb Hs Hn Hh Hsn Hsk Hsl Hd Hi Hc Hr].
  constructor; try assumption.
  - intros t. rewrite stops_emit by assumption. apply Hs.
  - intros t Ht. rewrite stops_emit by assumption. apply Hh, Ht.
  - intros rid r t. rewrite stops_emit by assumption. apply Hsl.
  - cbn. split; [|assumption].
    intros t Ht. destruct (Huse t Ht) as [Hin | (rid & r & Hl & Hlive & Hin)].
    + apply Hh, Hin.
    + apply (Hsl rid r t Hl Hlive Hin).
  - intros t. rewrite stops_emit by assumption. apply Hr.
Qed.

Lemma Inv_emit_quiet h w e :
  touched e = [] -> Inv h w -> Inv h (emit e w).
Proof.
  intros Hq. apply Inv_emit.
  - intros t' ->. discriminate Hq.
  - rewrite Hq. intros t Ht. inversion Ht.
Qed.

(** New track objects enter the hands of the running function. *)
Lemma Inv_acquire h w k n :
  Inv h w -> Inv (freshTracks k n w ++ h) (acquire (freshTracks k n w) w).
Proof.
  intros [Hb Hs Hn Hh Hsn Hsk Hsl Hd Hi Hc Hr].
  assert (Hnew : forall t, t ∈ freshTracks k n w -> t ∉ tracks w).
  { intros t (i & Hi' & ->)%fresh_spec Hin. apply Hb in Hin. cbn in Hin. lia. }
  constructor; cbn [tracks acquire recorders log]; unfold stops, live in *;
    cbn [log acquire recorders]; try assumption.
  - intros t. rewrite length_app, fresh_length, elem_of_app.
    intros [Hin | (i & Hi' & ->)%fresh_spec]; [apply Hb in Hin; lia | cbn; lia].
  - intros t Ht. apply elem_of_app. left. apply Hs, Ht.
  - apply NoDup_app. split; [apply fresh_nodup|]. split; [|assumption].
    intros t Ht Hin. apply (Hnew t Ht). apply Hh, Hin.
  - intros t [Ht | Ht]%elem_of_app.
    + split; [apply elem_of_app; right; assumption|].
      destruct (stopsIn t (log w)) eqn:E; [reflexivity|].
      exfalso. apply (Hnew t Ht). apply Hs. rewrite E. discriminate.
    + split; [apply elem_of_app; left|]; apply Hh, Ht.
  - intros rid r t Hl Hin. destruct (Hsk rid r t Hl Hin) as [Hk Hnh].
    split; [apply elem_of_app; left; assumption|].
    intros [Hf | Hf]%elem_of_app; [apply (Hnew t Hf Hk) | apply (Hnh Hf)].
  - intros t [Ht | Ht]%elem_of_app.
    + destruct (Hr t Ht) as [? | [? | ?]]; [left | right; left | right; right];
        try assumption.
      apply elem_of_app. right. assumption.
    + right. left. apply elem_of_app. left. assumption.
Qed.

(** [track.stop()] on a held track releases it. *)
Lemma Inv_stop t h w : Inv (t :: h) w -> Inv h (emit (TrackStop t) w).
Proof.
  intros [Hb Hs Hn Hh Hsn Hsk Hsl Hd Hi Hc Hr].
  apply NoDup_cons in Hn as [Hnt Hn].
  assert (H0 : stops t w = 0) by (apply Hh; left).
  constructor; try assumption.
  - intros t0. rewrite stops_emit_stop.
    destruct (decide (t = t0)) as [<-|]; intros Hne.
    + apply Hh. left.
    + apply Hs, Hne.
  - intros t0 Ht0. split; [apply Hh; right; assumption|].
    rewrite stops_emit_stop.
    destruct (decide (t = t0)) as [<-|]; [contradiction|].
    apply Hh. right. assumption.
  - intros rid r t0 Hl Hin. destruct (Hsk rid r t0 Hl Hin) as [Hk Hnh].
    split; [assumption|]. intros Hf. apply Hnh. right. assumption.
  - intros rid r t0 Hl Hlive Hin. rewrite stops_emit_stop.
    destruct (decide (t = t0)) as [<-|].
    + exfalso. destruct (Hsk rid r t Hl Hin) as [_ Hnh]. apply Hnh. left.
    + apply (Hsl rid r t0 Hl Hlive Hin).
  - cbn. split; [|assumption].
    intros t0 ->%list_elem_of_singleton. apply H0.
  - intros t0 Ht0. rewrite stops_emit_stop.
    destruct (decide (t = t0)) as [<-|Hne].
    + left. unfold stops in H0 |- *. rewrite H0. reflexivity.
    + destruct (Hr t0 Ht0) as [? | [[->|?]%elem_of_cons | ?]];
        [left | congruence | right; left | right; right]; assumption.
Qed.

Lemma Inv_stopAll ts h w : Inv (ts ++ h) w -> Inv h (stopAll ts w).
Proof.
  revert w. induction ts as [|t ts IH]; intros w I; cbn; [assumption|].
  apply IH. apply Inv_stop. assumption.
Qed.

(** The held tracks become the stream of a new live recorder. *)
Lemma Inv_new_recorder h w r :
  stream r = h -> terminated r = false ->
  Inv h w -> Inv [] (setRecorders (recorders w ++ [r]) w).
Proof.
  intros Hst Hlive [Hb Hs Hn Hh Hsn Hsk Hsl Hd Hi Hc Hr].
  constructor; cbn [tracks setRecorders recorders log]; unfold stops, live in *;
    cbn [log setRecorders recorders]; try assumption.
  - constructor.
  - intros t Ht. inversion Ht.
  - intros rid r0 [Hl | [_ [_ <-]%list_lookup_singleton_Some]]%lookup_app_Some.
    + apply (Hsn rid r0 Hl).
    + rewrite Hst. assumption.
  - intros rid r0 t [Hl | [_ [_ <-]%list_lookup_singleton_Some]]%lookup_app_Some Hin.
    + split; [apply (Hsk rid r0 t Hl Hin) | intros Hf; inversion Hf].
    + rewrite Hst in Hin. split; [apply Hh, Hin | intros Hf; inversion Hf].
  - intros rid r0 t [Hl | [_ [_ <-]%list_lookup_singleton_Some]]%lookup_app_Some Hl0 Hin.
    + apply (Hsl rid r0 t Hl Hl0 Hin).
    + rewrite Hst in Hin. apply Hh, Hin.
  - intros i j ri rj t Hij
      [Hli | [Hgi [Hi0 <-]%list_lookup_singleton_Some]]%lookup_app_Some
      [Hlj | [Hgj [Hj0 <-]%list_lookup_singleton_Some]]%lookup_app_Some Hin.
    + apply (Hd i j ri rj t Hij Hli Hlj Hin).
    + rewrite Hst. apply (Hsk i ri t Hli Hin).
    + rewrite Hst in Hin. intros Hf. apply (Hsk j rj t Hlj Hf). assumption.
    + exfalso. lia.
  - intros rid r0 [Hl | [_ [_ <-]%list_lookup_singleton_Some]]%lookup_app_Some Ht.
    + apply (Hi rid r0 Hl Ht).
    + congruence.
  - intros t Ht. destruct (Hr t Ht) as [? | [Hin | (rid & r0 & Hl & Hl0 & Hin)]].
    + left. assumption.
    + right. right. exists (length (recorders w)), r.
      split; [|split; [assumption | rewrite Hst; assumption]].
      apply lookup_app_Some. right. split; [lia|].
      rewrite Nat.sub_diag. reflexivity.
    + right. right. exists rid, r0.
      split; [|split; assumption].
      apply lookup_app_Some. left. assumption.
Qed.

(** A recorder changes [state] but neither its stream nor its mark of a
    delivered [stop]. *)
Lemma Inv_update_recorder h w rid r r' :
  recorders w !! rid = Some r ->
  stream r' = stream r -> terminated r' = terminated r ->
  (terminated r' = true -> state r' = inactive) ->
  Inv h w -> Inv h (setRecorders (<[rid := r']> (recorders w)) w).
Proof.
  intros Hl Hst Hte Hin' [Hb Hs Hn Hh Hsn Hsk Hsl Hd Hi Hc Hr].
  assert (Hlook : forall j rj, <[rid := r']> (recorders w) !! j = Some rj ->
            exists rj0, recorders w !! j = Some rj0 /\ stream rj = stream rj0 /\
                        terminated rj = terminated rj0 /\
                        (terminated rj = true -> state rj = inactive)).
  { intros j rj [(<- & <- & _) | [Hne Hlj]]%list_lookup_insert_Some.
    - exists r. auto.
    - exists rj. split; [assumption|]. split; [reflexivity|].
      split; [reflexivity|]. apply (Hi j rj Hlj). }
  constructor; cbn [tracks setRecorders recorders log]; unfold stops, live in *;
    cbn [log setRecorders recorders]; try assumption.
  - intros j rj (rj0 & Hlj & -> & _)%Hlook. apply (Hsn j rj0 Hlj).
  - intros j rj t (rj0 & Hlj & -> & _)%Hlook. apply (Hsk j rj0 t Hlj).
  - intros j rj t (rj0 & Hlj & -> & -> & _)%Hlook. apply (Hsl j rj0 t Hlj).
  - intros i j ri rj t Hij (ri0 & Hli & -> & _)%Hlook (rj0 & Hlj & -> & _)%Hlook.
    apply (Hd i j ri0 rj0 t Hij Hli Hlj).
  - intros j rj (rj0 & Hlj & _ & _ & Hina)%Hlook. assumption.
  - intros t Ht. destruct (Hr t Ht) as [? | [? | (j & rj & Hlj & Hl0 & Hinj)]];
      [left; assumption | right; left; assumption |].
    right. right. destruct (decide (j = rid)) as [->|Hne].
    + exists rid, r'. rewrite Hl in Hlj. injection Hlj as <-.
      split; [|split; [congruence | rewrite Hst; assumption]].
      apply list_lookup_insert_Some. left.
      split; [reflexivity|]. split; [reflexivity|].
      eapply lookup_lt_Some. eassumption.
    + exists j, rj. split; [|split; assumption].
      apply list_lookup_insert_Some. right. split; [congruence | assumption].
Qed.

(** The stop-completion callback of a live recorder: the runtime retires
    it and the callback stops every track of its stream. *)
Lemma Inv_retire_stopAll w rid r :
  recorders w !! rid = Some r -> terminated r = false ->
  Inv [] w -> Inv [] (stopAll (stream r) (retire rid w)).
Proof.
  intros Hl Hlive [Hb Hs Hn Hh Hsn Hsk Hsl Hd Hi Hc Hr].
  unfold retire. rewrite Hl.
  set (w' := setRecorders _ w).
  assert (Hnd : NoDup (stream r)) by apply (Hsn rid r Hl).
  assert (Hst : forall t, stops t (stopAll (stream r) w')
                          = stops t w + (if decide (t ∈ stream r) then 1 else 0)).
  { intros t. destruct (decide (t ∈ stream r)).
    - rewrite stops_stopAll_in by assumption. unfold stops. cbn. lia.
    - rewrite stops_stopAll_notin by assumption. unfold stops. cbn. lia. }
  assert (Hlook : forall j rj, recorders w' !! j = Some rj ->
            (j = rid /\ rj = withState inactive true r) \/
            (j <> rid /\ recorders w !! j = Some rj)).
  { intros j rj [(<- & <- & _) | [Hne Hlj]]%list_lookup_insert_Some; auto. }
  constructor; rewrite ?tracks_stopAll, ?recorders_stopAll; try assumption.
  - intros t. rewrite Hst. destruct (decide (t ∈ stream r)) as [Hin|Hin].
    + intros _. apply (Hsk rid r t Hl Hin).
    + rewrite Nat.add_0_r. apply Hs.
  - intros t Ht. inversion Ht.
  - intros j rj [[-> ->] | [Hne Hlj]]%Hlook; [apply Hnd | apply (Hsn j rj Hlj)].
  - intros j rj t [[-> ->] | [Hne Hlj]]%Hlook Hin.
    + split; [apply (Hsk rid r t Hl Hin) | intros Hf; inversion Hf].
    + split; [apply (Hsk j rj t Hlj Hin) | intros Hf; inversion Hf].
  - intros j rj t [[-> ->] | [Hne Hlj]]%Hlook Hl0 Hin; [discriminate Hl0|].
    rewrite Hst. rewrite (Hsl j rj t Hlj Hl0 Hin).
    destruct (decide (t ∈ stream r)) as [Hf|]; [|reflexivity].
    exfalso. apply (Hd j rid rj r t Hne Hlj Hl Hin Hf).
  - intros i j ri rj t Hij [[-> ->] | [Hni Hli]]%Hlook [[-> ->] | [Hnj Hlj]]%Hlook.
    + congruence.
    + apply (Hd rid j r rj t Hij Hl Hlj).
    + apply (Hd i rid ri r t Hij Hli Hl).
    + apply (Hd i j ri rj t Hij Hli Hlj).
  - intros j rj [[-> ->] | [Hne Hlj]]%Hlook Ht; [reflexivity | apply (Hi j rj Hlj Ht)].
  - apply noUseAfterStop_stopAll; [assumption| |assumption].
    intros t Hin. apply (Hsl rid r t Hl Hlive Hin).
  - intros t Ht. rewrite Hst. unfold live. rewrite recorders_stopAll.
    destruct (decide (t ∈ stream r)) as [Hin|Hnin].
    + left. rewrite (Hsl rid r t Hl Hlive Hin). reflexivity.
    + destruct (Hr t Ht) as [H1 | [Hf | (j & rj & Hlj & Hl0 & Hinj)]].
      * left. rewrite H1. reflexivity.
      * inversion Hf.
      * right. right. exists j, rj. split; [|split; assumption].
        apply list_lookup_insert_Some. right. split; [|assumption].
        intros <-. rewrite Hl in Hlj. injection Hlj as <-. contradiction.
Qed.

End Ownership.

Lemma Inv_setRecordedBlobs h bs w : Inv h w -> Inv h (setRecordedBlobs bs w).
Proof. apply Inv_ext; reflexivity. Qed.

Lemma Inv_setMediaRecorder h o w : Inv h w -> Inv h (setMediaRecorder o w).
Proof. apply Inv_ext; reflexivity. Qed.

Lemma Inv_setTimers h ts w : Inv h w -> Inv h (setTimers ts w).
Proof. apply Inv_ext; reflexivity. Qed.

Lemma Inv_stopAll_held ts w : Inv ts w -> Inv [] (stopAll ts w).
Proof. intros I. apply Inv_stopAll. rewrite app_nil_r. assumption. Qed.

Lemma Inv_acquire_first k n w :
  Inv [] w -> Inv (freshTracks k n w) (acquire (freshTracks k n w) w).
Proof.
  intros I. apply (Inv_acquire [] w k n) in I.
  rewrite app_nil_r in I. exact I.
Qed.

Lemma Inv_initial : Inv [] initialWorld.
Proof.
  constructor; cbn; intros;
    try match goal with
        | H : _ ∈ [] |- _ => inversion H
        | H : [] !! _ = Some _ |- _ => rewrite lookup_nil in H; discriminate
        end;
    try constructor; try congruence.
Qed.

(** Steps that only talk to the user or reassign a variable. *)
Ltac quiet :=
  repeat first
    [ apply Inv_emit_quiet; [reflexivity|]
    | apply Inv_setRecordedBlobs
    | apply Inv_setMediaRecorder
    | apply Inv_setTimers ].

Lemma Inv_recorderStart rid ms w r :
  recorders w !! rid = Some r -> terminated r = false ->
  Inv [] w -> Inv [] (recorderStart rid ms w).
Proof.
  intros Hl Hlive I. unfold recorderStart. rewrite Hl.
  apply (Inv_update_recorder [] (emit (RecorderStart rid (stream r) ms) w) rid r);
    [exact Hl | reflexivity | reflexivity | cbn; congruence |].
  apply Inv_emit; [discriminate | | assumption].
  intros t Ht. right. exists rid, r. auto.
Qed.

Lemma Inv_recorderStop rid w r :
  recorders w !! rid = Some r -> terminated r = false ->
  Inv [] w -> Inv [] (recorderStop rid w).
Proof.
  intros Hl Hlive I. unfold recorderStop. rewrite Hl.
  apply (Inv_update_recorder [] (emit (RecorderStop rid (stream r)) w) rid r);
    [exact Hl | reflexivity | reflexivity | reflexivity |].
  apply Inv_emit; [discriminate | | assumption].
  intros t Ht. right. exists rid, r. auto.
Qed.

(** The tail of a successful [startRecording], common to both variants:
    construct the recorder over the held tracks, publish it in
    [mediaRecorder], start it. *)
Lemma Inv_construct_and_start h w r ms :
  stream r = h -> terminated r = false -> Inv h w ->
  Inv [] (recorderStart (length (recorders w)) ms
            (setMediaRecorder (Some (length (recorders w)))
               (setRecorders (recorders w ++ [r])
                  (emit (NewMediaRecorder (length (recorders w)) h) w)))).
Proof.
  intros Hst Hlive I.
  apply (Inv_recorderStart _ _ _ r); [| assumption |].
  - cbn. apply lookup_app_Some. right. split; [lia|].
    rewrite Nat.sub_diag. reflexivity.
  - apply Inv_setMediaRecorder.
    apply (Inv_new_recorder h (emit (NewMediaRecorder _ h) w) r Hst Hlive).
    apply Inv_emit; [discriminate | | assumption].
    intros t Ht. left. exact Ht.
Qed.

Lemma Modern_startRecording_Inv p w :
  Inv [] w -> Inv [] (Modern.startRecording p w).
Proof.
  intros I. unfold Modern.startRecording.
  destruct (demogl p) as [nv|]; [|quiet; assumption].
  destruct (getUserMedia p) as [msg|na]; cbv beta iota zeta.
  - (* no microphone: video only *)
    match goal with
    | |- context [acquire (freshTracks video nv ?w0) ?w0] =>
        assert (I' : Inv (freshTracks video nv w0) (acquire (freshTracks video nv w0) w0))
    end.
    { apply Inv_acquire_first. quiet. assumption. }
    destruct (length _ =? 0)%nat.
    + apply Inv_stopAll_held. quiet. assumption.
    + destruct (find _ _) as [m|].
      * destruct (constructorThrows p) as [err|].
        -- apply Inv_stopAll_held. quiet. apply Inv_emit; [discriminate | | quiet; assumption].
           intros t Ht. left. exact Ht.
        -- quiet.
           match goal with
           | |- Inv [] (recorderStart _ _ (setMediaRecorder _ (setRecorders (_ ++ [?r]) (emit _ ?w0)))) =>
               apply (Inv_construct_and_start _ w0 r)
           end; [reflexivity | reflexivity |].
           quiet. apply Inv_emit; [discriminate | | quiet; assumption].
           intros t Ht. left. exact Ht.
      * apply Inv_stopAll_held. quiet. apply Inv_emit; [discriminate | | quiet; assumption].
        intros t Ht. left. exact Ht.
  - (* microphone granted *)
    match goal with
    | |- context [acquire (freshTracks video nv ?w0) ?w0] =>
        assert (I' : Inv (freshTracks video nv w0 ++ freshTracks audio na w)
                       (acquire (freshTracks video nv w0) w0))
    end.
    { apply Inv_acquire. quiet. apply Inv_acquire_first. assumption. }
    destruct (length _ =? 0)%nat.
    + apply Inv_stopAll_held. apply Inv_stopAll. quiet. assumption.
    + destruct (find _ _) as [m|].
      * destruct (constructorThrows p) as [err|].
        -- apply Inv_stopAll_held. quiet. apply Inv_emit; [discriminate | | quiet; assumption].
           intros t Ht. left. exact Ht.
        -- quiet.
           match goal with
           | |- Inv [] (recorderStart _ _ (setMediaRecorder _ (setRecorders (_ ++ [?r]) (emit _ ?w0)))) =>
               apply (Inv_construct_and_start _ w0 r)
           end; [reflexivity | reflexivity |].
           quiet. apply Inv_emit; [discriminate | | quiet; assumption].
           intros t Ht. left. exact Ht.
      * apply Inv_stopAll_held. quiet. apply Inv_emit; [discriminate | | quiet; assumption].
        intros t Ht. left. exact Ht.
Qed.

(** The runtime's retirement mark commutes with what a callback prints. *)
Lemma retire_emit e rid w : emit e (retire rid w) = retire rid (emit e w).
Proof. unfold retire. cbn. destruct (recorders w !! rid); reflexivity. Qed.

Lemma retire_setTimers ts rid w :
  setTimers ts (retire rid w) = retire rid (setTimers ts w).
Proof. unfold retire. cbn. destruct (recorders w !! rid); reflexivity. Qed.

Lemma recordedBlobs_retire rid w : recordedBlobs (retire rid w) = recordedBlobs w.
Proof. unfold retire. destruct (recorders w !! rid); reflexivity. Qed.

Lemma timers_retire rid w : timers (retire rid w) = timers w.
Proof. unfold retire. destruct (recorders w !! rid); reflexivity. Qed.

Lemma log_retire rid w : log (retire rid w) = log w.
Proof. unfold retire. destruct (recorders w !! rid); reflexivity. Qed.

Lemma tracks_retire rid w : tracks (retire rid w) = tracks w.
Proof. unfold retire. destruct (recorders w !! rid); reflexivity. Qed.

(** Inactivation touches the recorder heap only. *)
Lemma recordedBlobs_inactivate rid w :
  recordedBlobs (inactivate rid w) = recordedBlobs w.
Proof. unfold inactivate. destruct (recorders w !! rid); reflexivity. Qed.

Lemma timers_inactivate rid w : timers (inactivate rid w) = timers w.
Proof. unfold inactivate. destruct (recorders w !! rid); reflexivity. Qed.

Lemma log_inactivate rid w : log (inactivate rid w) = log w.
Proof. unfold inactivate. destruct (recorders w !! rid); reflexivity. Qed.

Lemma tracks_inactivate rid w : tracks (inactivate rid w) = tracks w.
Proof. unfold inactivate. destruct (recorders w !! rid); reflexivity. Qed.

Lemma mediaRecorder_inactivate rid w :
  mediaRecorder (inactivate rid w) = mediaRecorder w.
Proof. unfold inactivate. destruct (recorders w !! rid); reflexivity. Qed.

Lemma Modern_onstop_Inv rid r now exn w :
  recorders w !! rid = Some r -> terminated r = false ->
  Inv [] w -> Inv [] (Modern.onstop r now exn (retire rid w)).
Proof.
  intros Hl Hlive I. unfold Modern.onstop. cbv zeta.
  quiet. rewrite retire_emit.
  destruct (length _ =? 0)%nat; [|destruct exn as [err|]];
    cbn [timers emit]; rewrite ?timers_retire, ?recordedBlobs_retire,
      ?retire_emit, ?retire_setTimers;
    apply (Inv_retire_stopAll _ rid r); try assumption; quiet; assumption.
Qed.

Lemma live_of_active w rid r :
  Inv [] w -> recorders w !! rid = Some r -> state r <> inactive ->
  terminated r = false.
Proof.
  intros I Hl Hs. destruct (terminated r) eqn:E; [|reflexivity].
  exfalso. apply Hs. eapply inv_inactive; eassumption.
Qed.

Lemma Modern_stopRecording_Inv w :
  Inv [] w -> Inv [] (Modern.stopRecording w).
Proof.
  intros I. unfold Modern.stopRecording.
  destruct (mediaRecorder w) as [rid|]; [|quiet; assumption].
  destruct (recorders w !! rid) as [r|] eqn:Hl; [|quiet; assumption].
  destruct (state r) eqn:Hs; quiet; try assumption;
    apply (Inv_recorderStop rid w r Hl); try assumption;
    apply (live_of_active w rid r I Hl); congruence.
Qed.

(** The ownership invariant is that of the pages no encoder fault has
    touched: every event but [error] preserves it. *)
Lemma Modern_step_Inv w e :
  isFault e = false -> Inv [] w -> Inv [] (Modern.step w e).
Proof.
  intros Hf I.
  destruct e as [p| |rid data|rid now exn|rid err|i]; cbn [Modern.step].
  - apply Modern_startRecording_Inv, I.
  - apply Modern_stopRecording_Inv, I.
  - destruct (recorders w !! rid) as [r|]; [|assumption].
    destruct (terminated r); [assumption|].
    unfold Modern.ondataavailable.
    destruct data as [b|]; [|assumption].
    destruct (0 <? blobSize b)%nat; quiet; assumption.
  - destruct (recorders w !! rid) as [r|] eqn:Hl; [|assumption].
    destruct (terminated r) eqn:Hlive; [assumption|].
    apply Modern_onstop_Inv; assumption.
  - discriminate Hf.
  - destruct (timers w !! i); [|assumption].
    unfold Modern.ontimeout. quiet. assumption.
Qed.

Lemma Modern_run_Inv w evs :
  faultFree evs = true -> Inv [] w -> Inv [] (Modern.run w evs).
Proof.
  revert w. induction evs as [|e evs IH]; intros w Hf I; cbn; [assumption|].
  cbn in Hf. apply andb_true_iff in Hf as [He Hf].
  apply negb_true_iff in He.
  apply IH; [exact Hf | apply Modern_step_Inv; assumption].
Qed.

Lemma Modern_run_snoc w evs e :
  Modern.run w (evs ++ [e]) = Modern.step (Modern.run w evs) e.
Proof. unfold Modern.run. rewrite fold_left_app. reflexivity. Qed.

(** ** The tracks of every page state *)

Lemma Known_ext w w' :
  tracks w' = tracks w -> recorders w' = recorders w -> log w' = log w ->
  Known w -> Known w'.
Proof.
  intros Ht Hr Hl [Hb Hs Hk].
  constructor; unfold stops in *; rewrite ?Ht, ?Hr, ?Hl; assumption.
Qed.

Lemma Known_initial : Known initialWorld.
Proof.
  constructor; cbn.
  - intros t Ht. inversion Ht.
  - intros t Ht. congruence.
  - intros rid r t Hl. rewrite lookup_nil in Hl. discriminate.
Qed.

(** Only acquired tracks are stopped. *)
Lemma Known_emit w e :
  (forall t, e = TrackStop t -> t ∈ tracks w) -> Known w -> Known (emit e w).
Proof.
  intros He [Hb Hs Hk]. constructor; cbn [tracks recorders emit]; try assumption.
  intros t Hne. destruct (stops t w) eqn:E; [|apply Hs; rewrite E; discriminate].
  unfold stops in *. cbn [log emit] in Hne.
  destruct e; cbn [stopsIn] in Hne; try (rewrite E in Hne; congruence).
  destruct (decide (t0 = t)) as [->|]; [apply He; reflexivity|].
  rewrite E in Hne. cbn in Hne. congruence.
Qed.

Lemma Known_stopAll ts w :
  (forall t, t ∈ ts -> t ∈ tracks w) -> Known w -> Known (stopAll ts w).
Proof.
  revert w. induction ts as [|t ts IH]; intros w Hin K; cbn; [assumption|].
  apply IH.
  - intros t' Ht'. cbn. apply Hin. right. assumption.
  - apply Known_emit; [|assumption].
    intros t' [= <-]. apply Hin. left.
Qed.

Lemma Known_acquire k n w : Known w -> Known (acquire (freshTracks k n w) w).
Proof.
  intros [Hb Hs Hk].
  constructor; cbn [tracks acquire recorders]; unfold stops in *; cbn [log acquire].
  - intros t. rewrite length_app, fresh_length, elem_of_app.
    intros [Hin | (i & Hi & ->)%fresh_spec]; [apply Hb in Hin; lia | cbn; lia].
  - intros t Ht. apply elem_of_app. left. apply Hs, Ht.
  - intros rid r t Hl Hin. apply elem_of_app. left. apply (Hk rid r t Hl Hin).
Qed.

Lemma Known_new_recorder w r :
  (forall t, t ∈ stream r -> t ∈ tracks w) ->
  Known w -> Known (setRecorders (recorders w ++ [r]) w).
Proof.
  intros Hin [Hb Hs Hk]. constructor; cbn [tracks recorders setRecorders];
    unfold stops in *; cbn [log setRecorders]; try assumption.
  intros rid r0 t [Hl | [_ [_ <-]%list_lookup_singleton_Some]]%lookup_app_Some Ht.
  - apply (Hk rid r0 t Hl Ht).
  - apply Hin, Ht.
Qed.

Lemma Known_update_recorder w rid r r' :
  recorders w !! rid = Some r -> stream r' = stream r ->
  Known w -> Known (setRecorders (<[rid := r']> (recorders w)) w).
Proof.
  intros Hl Hst [Hb Hs Hk]. constructor; cbn [tracks recorders setRecorders];
    unfold stops in *; cbn [log setRecorders]; try assumption.
  intros j rj t [(<- & <- & _) | [Hne Hlj]]%list_lookup_insert_Some Ht.
  - rewrite Hst in Ht. apply (Hk rid r t Hl Ht).
  - apply (Hk j rj t Hlj Ht).
Qed.

Lemma Known_setRecordedBlobs bs w : Known w -> Known (setRecordedBlobs bs w).
Proof. apply Known_ext; reflexivity. Qed.

Lemma Known_setMediaRecorder o w : Known w -> Known (setMediaRecorder o w).
Proof. apply Known_ext; reflexivity. Qed.

Lemma Known_setTimers ts w : Known w -> Known (setTimers ts w).
Proof. apply Known_ext; reflexivity. Qed.

Lemma Known_recorderStart rid ms w : Known w -> Known (recorderStart rid ms w).
Proof.
  intros K. unfold recorderStart.
  destruct (recorders w !! rid) as [r|] eqn:Hl; [|assumption].
  apply (Known_update_recorder (emit (RecorderStart rid (stream r) ms) w) rid r);
    [exact Hl | reflexivity |].
  apply Known_emit; [intros t [=] | assumption].
Qed.

Lemma Known_recorderStop rid w : Known w -> Known (recorderStop rid w).
Proof.
  intros K. unfold recorderStop.
  destruct (recorders w !! rid) as [r|] eqn:Hl; [|assumption].
  apply (Known_update_recorder (emit (RecorderStop rid (stream r)) w) rid r);
    [exact Hl | reflexivity |].
  apply Known_emit; [intros t [=] | assumption].
Qed.

Lemma Known_retire rid w : Known w -> Known (retire rid w).
Proof.
  intros K. unfold retire.
  destruct (recorders w !! rid) as [r|] eqn:Hl; [|assumption].
  apply (Known_update_recorder w rid r); [exact Hl | reflexivity | assumption].
Qed.

Lemma Known_inactivate rid w : Known w -> Known (inactivate rid w).
Proof.
  intros K. unfold inactivate.
  destruct (recorders w !! rid) as [r|] eqn:Hl; [|assumption].
  apply (Known_update_recorder w rid r); [exact Hl | reflexivity | assumption].
Qed.

(** Steps that stop no track and leave the heap alone. *)
Ltac known :=
  repeat first
    [ apply Known_emit; [intros ? [=] |]
    | apply Known_setRecordedBlobs
    | apply Known_setMediaRecorder
    | apply Known_setTimers
    | apply Known_recorderStart
    | apply Known_recorderStop ].

Lemma Modern_startRecording_Known p w :
  Known w -> Known (Modern.startRecording p w).
Proof.
  intros K. unfold Modern.startRecording.
  destruct (demogl p) as [nv|]; [|known; assumption].
  destruct (getUserMedia p) as [msg|na]; cbv beta iota zeta.
  - match goal with
    | |- context [acquire (freshTracks video nv ?w0) ?w0] =>
        assert (K' : Known (acquire (freshTracks video nv w0) w0))
          by (apply Known_acquire; known; assumption)
    end.
    destruct (length _ =? 0)%nat.
    + apply Known_stopAll; [|known; assumption].
      intros t Ht. cbn. apply elem_of_app. right. exact Ht.
    + destruct (find _ _) as [m|].
      * destruct (constructorThrows p) as [err|].
        -- apply Known_stopAll; [|known; assumption].
           intros t Ht. cbn. apply elem_of_app. right. exact Ht.
        -- known.
           match goal with
           | |- Known (setRecorders (_ ++ [?r]) ?w0) =>
               apply (Known_new_recorder w0 r)
           end.
           ++ intros t Ht. cbn. apply elem_of_app. right. exact Ht.
           ++ known. assumption.
      * apply Known_stopAll; [|known; assumption].
        intros t Ht. cbn. apply elem_of_app. right. exact Ht.
  - match goal with
    | |- context [acquire (freshTracks video nv ?w0) ?w0] =>
        assert (K' : Known (acquire (freshTracks video nv w0) w0))
          by (apply Known_acquire; known; apply Known_acquire; assumption)
    end.
    destruct (length _ =? 0)%nat.
    + apply Known_stopAll.
      * intros t Ht. rewrite tracks_stopAll. cbn. apply elem_of_app. left.
        apply elem_of_app. right. exact Ht.
      * apply Known_stopAll; [|known; assumption].
        intros t Ht. cbn. apply elem_of_app. right. exact Ht.
    + destruct (find _ _) as [m|].
      * destruct (constructorThrows p) as [err|].
        -- apply Known_stopAll; [|known; assumption].
           intros t [Ht|Ht]%elem_of_app; cbn; apply elem_of_app;
             [right; exact Ht | left; apply elem_of_app; right; exact Ht].
        -- known.
           match goal with
           | |- Known (setRecorders (_ ++ [?r]) ?w0) =>
               apply (Known_new_recorder w0 r)
           end.
           ++ intros t [Ht|Ht]%elem_of_app; cbn; apply elem_of_app;
                [right; exact Ht | left; apply elem_of_app; right; exact Ht].
           ++ known. assumption.
      * apply Known_stopAll; [|known; assumption].
        intros t [Ht|Ht]%elem_of_app; cbn; apply elem_of_app;
          [right; exact Ht | left; apply elem_of_app; right; exact Ht].
Qed.

Lemma Modern_onstop_Known r now exn w :
  (forall t, t ∈ stream r -> t ∈ tracks w) ->
  Known w -> Known (Modern.onstop r now exn w).
Proof.
  intros Hin K. unfold Modern.onstop. cbv zeta. known.
  destruct (length _ =? 0)%nat; [|destruct exn as [err|]];
    (apply Known_stopAll; [exact Hin | known; assumption]).
Qed.

Lemma Modern_onerror_Known r err w :
  (forall t, t ∈ stream r -> t ∈ tracks w) ->
  Known w -> Known (Modern.onerror r err w).
Proof.
  intros Hin K. unfold Modern.onerror. cbv zeta. known.
  apply Known_stopAll; [exact Hin | known; assumption].
Qed.

Lemma Modern_step_Known w e : Known w -> Known (Modern.step w e).
Proof.
  intros K. destruct e as [p| |rid data|rid now exn|rid err|i]; cbn [Modern.step].
  - apply Modern_startRecording_Known, K.
  - unfold Modern.stopRecording.
    destruct (mediaRecorder w) as [rid|]; [|known; assumption].
    destruct (recorders w !! rid) as [r|]; [|known; assumption].
    destruct (state r); known; assumption.
  - destruct (recorders w !! rid) as [r|]; [|assumption].
    destruct (terminated r); [assumption|].
    unfold Modern.ondataavailable. destruct data as [b|]; [|assumption].
    destruct (0 <? blobSize b)%nat; known; assumption.
  - destruct (recorders w !! rid) as [r|] eqn:Hl; [|assumption].
    destruct (terminated r); [assumption|].
    apply Modern_onstop_Known; [|apply Known_retire, K].
    intros t Ht. rewrite tracks_retire. apply (known_stream w K rid r t Hl Ht).
  - destruct (recorders w !! rid) as [r|] eqn:Hl; [|assumption].
    destruct (terminated r); [assumption|].
    apply Modern_onerror_Known; [|apply Known_inactivate, K].
    intros t Ht. rewrite tracks_inactivate. apply (known_stream w K rid r t Hl Ht).
  - destruct (timers w !! i); [|assumption].
    unfold Modern.ontimeout. known. assumption.
Qed.

Lemma Modern_run_Known w evs : Known w -> Known (Modern.run w evs).
Proof.
  revert w. induction evs as [|e evs IH]; intros w K; cbn; [assumption|].
  apply IH, Modern_step_Known, K.
Qed.

(** ** What [startRecording] leaves behind *)

Lemma downloads_emit e w :
  (forall n b, e <> Download n b) -> downloads (emit e w) = downloads w.
Proof.
  intros He. unfold downloads. cbn. destruct e; try reflexivity.
  exfalso. eapply He. reflexivity.
Qed.

Lemma lookup_snoc_new {A} (l : list A) (x : A) : (l ++ [x]) !! length l = Some x.
Proof.
  apply lookup_app_Some. right. split; [lia|].
  rewrite Nat.sub_diag. reflexivity.
Qed.

Lemma insert_snoc_new {A} (l : list A) (x y : A) :
  <[length l := y]> (l ++ [x]) = l ++ [y].
Proof.
  rewrite insert_app_r_alt by lia. rewrite Nat.sub_diag. reflexivity.
Qed.

Lemma Modern_startRecording_success p w nv m :
  modernStarts p = Some (nv, m) ->
  let w' := Modern.startRecording p w in
  recorders w' = recorders w ++ [modernRecorder p nv m w] /\
  mediaRecorder w' = Some (length (recorders w)) /\
  recordedBlobs w' = [] /\
  timers w' = timers w /\
  downloads w' = downloads w /\
  tracks w' = tracks w ++ freshTracks audio (audioCount p) w
                ++ freshTracks video nv
                     (acquire (freshTracks audio (audioCount p) w) w).
Proof.
  unfold modernStarts, Modern.startRecording, modernRecorder, audioCount.
  destruct (demogl p) as [nv'|]; [|discriminate].
  destruct (getUserMedia p) as [msg|na]; cbv beta iota zeta;
    rewrite ?length_app, ?fresh_length, ?Nat.add_0_r;
    destruct (_ =? 0)%nat; try discriminate;
    destruct (find _ _) as [m'|]; try discriminate;
    destruct (constructorThrows p); try discriminate;
    intros [= -> ->]; unfold recorderStart; cbn [recorders setMediaRecorder setRecorders emit];
    rewrite lookup_snoc_new; cbn; rewrite insert_snoc_new;
    repeat split; try reflexivity.
  - unfold freshTracks. cbn [tracks acquire emit]. rewrite app_nil_r. reflexivity.
  - rewrite <- app_assoc. reflexivity.
Qed.

Lemma Modern_startRecording_failure p w :
  modernStarts p = None ->
  let w' := Modern.startRecording p w in
  recorders w' = recorders w /\ mediaRecorder w' = mediaRecorder w /\
  timers w' = timers w /\ downloads w' = downloads w.
Proof.
  unfold modernStarts, Modern.startRecording, audioCount.
  destruct (demogl p) as [nv'|]; [|intros _; repeat split; reflexivity].
  destruct (getUserMedia p) as [msg|na]; cbv beta iota zeta;
    rewrite ?length_app, ?fresh_length, ?Nat.add_0_r;
    (destruct (_ =? 0)%nat;
     [|destruct (find _ _) as [m'|];
       [destruct (constructorThrows p); [|discriminate]|]]);
    intros _;
    rewrite ?recorders_stopAll, ?mediaRecorder_stopAll, ?timers_stopAll,
      ?downloads_stopAll;
    repeat split; reflexivity.
Qed.

(** ** What the legacy [startRecording] leaves behind *)

Lemma Legacy_startRecording_downloads p w :
  downloads (Legacy.startRecording p w) = downloads w.
Proof.
  unfold Legacy.startRecording.
  destruct (demogl p) as [nv|]; [|reflexivity]. cbv zeta.
  destruct (constructorThrows p); [reflexivity|].
  unfold recorderStart. cbn [recorders setMediaRecorder setRecorders emit].
  rewrite lookup_snoc_new. reflexivity.
Qed.

Lemma Legacy_startRecording_stops t p w :
  stops t (Legacy.startRecording p w) = stops t w.
Proof.
  unfold Legacy.startRecording.
  destruct (demogl p) as [nv|]; [|reflexivity]. cbv zeta.
  destruct (constructorThrows p); [reflexivity|].
  unfold recorderStart. cbn [recorders setMediaRecorder setRecorders emit].
  rewrite lookup_snoc_new. reflexivity.
Qed.



(** ** Where the recorders of a reachable page come from *)

Lemma sameConfig_refl r : sameConfig r r.
Proof. repeat split; auto. Qed.

Lemma sameConfig_trans r1 r2 r3 :
  sameConfig r1 r2 -> sameConfig r2 r3 -> sameConfig r1 r3.
Proof.
  intros (? & ? & ? & ? & ?) (? & ? & ? & ? & ?).
  repeat split; try congruence. auto.
Qed.

Lemma sameConfig_withState s fin r : sameConfig r (withState s fin r).
Proof. repeat split; auto. Qed.

Lemma lookup_insert_sameConfig (rs : list MediaRecorder) (rid : nat)
    (r r' : MediaRecorder) (j : nat) (rj : MediaRecorder) :
  rs !! rid = Some r -> sameConfig r r' ->
  <[rid := r']> rs !! j = Some rj ->
  exists r0, rs !! j = Some r0 /\ sameConfig r0 rj.
Proof.
  intros Hl Hs [(<- & <- & _) | [Hne Hlj]]%list_lookup_insert_Some.
  - exists r. auto.
  - exists rj. split; [assumption | apply sameConfig_refl].
Qed.

Lemma recorders_retire_lookup rid w j rj :
  recorders (retire rid w) !! j = Some rj ->
  exists r0, recorders w !! j = Some r0 /\ sameConfig r0 rj.
Proof.
  unfold retire. destruct (recorders w !! rid) as [r|] eqn:Hl.
  - cbn. apply (lookup_insert_sameConfig _ _ r); [assumption|].
    apply sameConfig_withState.
  - intros H. exists rj. split; [assumption | apply sameConfig_refl].
Qed.

Lemma recorders_inactivate_lookup rid w j rj :
  recorders (inactivate rid w) !! j = Some rj ->
  exists r0, recorders w !! j = Some r0 /\ sameConfig r0 rj.
Proof.
  unfold inactivate. destruct (recorders w !! rid) as [r|] eqn:Hl.
  - cbn. apply (lookup_insert_sameConfig _ _ r); [assumption|].
    apply sameConfig_withState.
  - intros H. exists rj. split; [assumption | apply sameConfig_refl].
Qed.

Lemma recorders_recorderStop_lookup rid w j rj :
  recorders (recorderStop rid w) !! j = Some rj ->
  exists r0, recorders w !! j = Some r0 /\ sameConfig r0 rj.
Proof.
  unfold recorderStop. destruct (recorders w !! rid) as [r|] eqn:Hl.
  - cbn. apply (lookup_insert_sameConfig _ _ r); [assumption|].
    apply sameConfig_withState.
  - intros H. exists rj. split; [assumption | apply sameConfig_refl].
Qed.

Lemma recorders_Modern_onstop r now exn w :
  recorders (Modern.onstop r now exn w) = recorders w.
Proof.
  unfold Modern.onstop. cbn. rewrite recorders_stopAll.
  destruct (length _ =? 0)%nat; [|destruct exn]; reflexivity.
Qed.

Lemma recorders_Modern_onerror r err w :
  recorders (Modern.onerror r err w) = recorders w.
Proof. unfold Modern.onerror. cbn. rewrite recorders_stopAll. reflexivity. Qed.

Lemma recorders_Modern_stopRecording_lookup w j rj :
  recorders (Modern.stopRecording w) !! j = Some rj ->
  exists r0, recorders w !! j = Some r0 /\ sameConfig r0 rj.
Proof.
  unfold Modern.stopRecording.
  destruct (mediaRecorder w) as [rid|];
    [destruct (recorders w !! rid) as [r|] eqn:Hl; [destruct (state r)|]|];
    cbn [recorders emit];
    try (intros H; exists rj; split; [assumption | apply sameConfig_refl]);
    apply recorders_recorderStop_lookup.
Qed.

Lemma Modern_step_origin w e rid r' :
  recorders (Modern.step w e) !! rid = Some r' ->
  (exists r, recorders w !! rid = Some r /\ sameConfig r r') \/
  (exists p nv m, e = CallStart p /\ modernStarts p = Some (nv, m) /\
                  rid = length (recorders w) /\ r' = modernRecorder p nv m w).
Proof.
  assert (Hsame : recorders w !! rid = Some r' ->
                  exists r, recorders w !! rid = Some r /\ sameConfig r r').
  { intros H. exists r'. split; [assumption | apply sameConfig_refl]. }
  destruct e as [p| |rid' data|rid' now exn|rid' err|i]; cbn [Modern.step].
  - destruct (modernStarts p) as [[nv m]|] eqn:Hst.
    + destruct (Modern_startRecording_success p w nv m Hst) as (-> & _).
      intros [Hl | [Hge [Hi <-]%list_lookup_singleton_Some]]%lookup_app_Some.
      * left. auto.
      * right. exists p, nv, m. repeat split; try assumption. lia.
    + destruct (Modern_startRecording_failure p w Hst) as (-> & _). auto.
  - intros H. left. apply recorders_Modern_stopRecording_lookup, H.
  - destruct (recorders w !! rid') as [r|]; [|auto].
    destruct (terminated r); [auto|].
    unfold Modern.ondataavailable. destruct data as [b|]; [|auto].
    destruct (0 <? blobSize b)%nat; auto.
  - destruct (recorders w !! rid') as [r|]; [|auto].
    destruct (terminated r); [auto|].
    rewrite recorders_Modern_onstop. intros H. left.
    apply (recorders_retire_lookup rid'), H.
  - destruct (recorders w !! rid') as [r|]; [|auto].
    destruct (terminated r); [auto|].
    rewrite recorders_Modern_onerror. intros H. left.
    apply (recorders_inactivate_lookup rid'), H.
  - destruct (timers w !! i); auto.
Qed.

(** Every recorder on a reachable page was built by some call of
    [startRecording] in the trace and has kept that configuration. *)
Lemma Modern_recorder_created evs rid r :
  recorders (Modern.run initialWorld evs) !! rid = Some r ->
  exists p nv m w0,
    CallStart p ∈ evs /\ modernStarts p = Some (nv, m) /\
    sameConfig (modernRecorder p nv m w0) r.
Proof.
  revert rid r. induction evs as [|e evs IH] using rev_ind; intros rid r.
  - cbn. rewrite lookup_nil. discriminate.
  - rewrite Modern_run_snoc.
    intros [(r0 & Hl & Hs) | (p & nv & m & -> & Hst & _ & ->)]%Modern_step_origin.
    + destruct (IH rid r0 Hl) as (p & nv & m & w0 & Hin & Hst & Hs0).
      exists p, nv, m, w0. split; [apply elem_of_app; left; assumption|].
      split; [assumption|]. eapply sameConfig_trans; eassumption.
    + exists p, nv, m, (Modern.run initialWorld evs).
      split; [apply elem_of_app; right; apply list_elem_of_singleton; reflexivity|].
      split; [assumption | apply sameConfig_refl].
Qed.

Lemma modernStarts_find p nv m :
  modernStarts p = Some (nv, m) ->
  demogl p = Some nv /\ find (isTypeSupported p) Modern.mimeTypes = Some m /\
  constructorThrows p = None /\ nv + audioCount p <> 0.
Proof.
  unfold modernStarts.
  destruct (demogl p) as [nv'|]; [|discriminate].
  destruct (nv' + audioCount p =? 0)%nat eqn:E; [discriminate|].
  destruct (find _ _) as [m'|]; [|discriminate].
  destruct (constructorThrows p); [discriminate|].
  intros [= -> ->]. apply Nat.eqb_neq in E. auto.
Qed.

Lemma Modern_recorder_mime evs rid r :
  recorders (Modern.run initialWorld evs) !! rid = Some r ->
  In (mimeType r) Modern.mimeTypes.
Proof.
  intros (p & nv & m & w0 & _ & Hst & Hs)%Modern_recorder_created.
  destruct Hs as (_ & Hm & _).
  apply modernStarts_find in Hst as (_ & Hf & _).
  apply find_some in Hf as [Hin _].
  rewrite Hm. unfold modernRecorder. destruct (getUserMedia p); exact Hin.
Qed.

(** ** The download *)

Lemma downloadsOf_stops ts l :
  downloadsOf (rev (map TrackStop ts) ++ l) = downloadsOf l.
Proof.
  induction ts as [|t ts IH] using rev_ind; [reflexivity|].
  rewrite map_app, rev_app_distr. cbn. exact IH.
Qed.

Lemma Modern_onstop_saved r now w :
  recordedBlobs w <> [] ->
  downloads (Modern.onstop r now None w)
  = downloads w ++ [(Modern.downloadName now (mimeType r),
                     newBlob (recordedBlobs w) (mimeType r))].
Proof.
  intros Hne. unfold Modern.onstop, downloads. cbv zeta.
  cbn [recordedBlobs emit log setMediaRecorder].
  destruct (recordedBlobs w) as [|b bs] eqn:E; [congruence|].
  cbn [length Nat.eqb]. rewrite log_stopAll.
  cbn [downloadsOf]. rewrite downloadsOf_stops. reflexivity.
Qed.

Lemma Modern_onstop_unsaved r now exn w :
  recordedBlobs w = [] \/ exn <> None ->
  downloads (Modern.onstop r now exn w) = downloads w /\
  timers (Modern.onstop r now exn w) = timers w.
Proof.
  intros Hc. unfold Modern.onstop, downloads. cbv zeta.
  cbn [recordedBlobs emit log timers setMediaRecorder].
  rewrite log_stopAll, timers_stopAll. cbn [downloadsOf].
  rewrite downloadsOf_stops.
  destruct (recordedBlobs w) as [|b bs] eqn:E; cbn [length Nat.eqb].
  - split; reflexivity.
  - destruct Hc as [Hc|Hc]; [discriminate|].
    destruct exn as [err|]; [split; reflexivity | congruence].
Qed.

(** On the fixed candidate list the script's test for WebM agrees with
    the container family of the profile. *)
Lemma Modern_extension_agrees m :
  In m Modern.mimeTypes ->
  isMP4Family m = negb (startsWith m "video/webm") /\
  (if startsWith m "video/webm" then ".webm" else ".mp4")
  = "." +:+ specExtension m.
Proof.
  intros Hin. repeat destruct Hin as [<- | Hin]; try contradiction;
    vm_compute; split; reflexivity.
Qed.

(** The candidates hold only characters of U+0020..U+007E, so the [Blob]
    constructor tags the artifact with the candidate in ASCII lowercase. *)
Lemma Modern_blobTypeOf m :
  In m Modern.mimeTypes -> blobTypeOf m = asciiLowercase m.
Proof.
  intros Hin. repeat destruct Hin as [<- | Hin]; try contradiction;
    vm_compute; reflexivity.
Qed.

(** The lowercase form differs from the candidate only in the codec
    parameters: the script's test for WebM reads the same on both. *)
Lemma Modern_downloadName_lowercase now m :
  In m Modern.mimeTypes ->
  Modern.downloadName now (asciiLowercase m) = Modern.downloadName now m.
Proof.
  intros Hin. unfold Modern.downloadName. cbv zeta.
  assert (E : startsWith (asciiLowercase m) "video/webm" = startsWith m "video/webm")
    by (repeat destruct Hin as [<- | Hin]; try contradiction;
        vm_compute; reflexivity).
  rewrite E. reflexivity.
Qed.

(** The recorder that a call of [startRecording] builds carries one of
    the candidates. *)
Lemma Modern_started_mime p w r :
  recorders (Modern.startRecording p w) !! length (recorders w) = Some r ->
  In (mimeType r) Modern.mimeTypes.
Proof.
  intros Hl. destruct (modernStarts p) as [[nv m]|] eqn:Hst.
  - destruct (Modern_startRecording_success p w nv m Hst) as (Hr & _).
    rewrite Hr, lookup_snoc_new in Hl. injection Hl as <-.
    apply modernStarts_find in Hst as (_ & Hf & _).
    apply find_some in Hf as [Hin _].
    unfold modernRecorder. destruct (getUserMedia p); exact Hin.
  - destruct (Modern_startRecording_failure p w Hst) as (Hr & _).
    rewrite Hr in Hl. apply lookup_lt_Some in Hl. lia.
Qed.

Lemma Modern_downloadName_spec now m :
  fourDigitDate now -> In m Modern.mimeTypes ->
  Modern.downloadName now m = specArtifactName now m.
Proof.
  intros (Hy & _) Hin. unfold Modern.downloadName, specArtifactName. cbv zeta.
  rewrite timestamp_format by assumption.
  destruct (Modern_extension_agrees m Hin) as [_ ->]. reflexivity.
Qed.

(** C1. A session that finalizes with a non-empty chunk sequence downloads
    its artifact under the name
    [shadertoy-recording_<YYYY-MM-DD_HH-MM-SS>.<ext>], the timestamp being the
    time of the stop-completion callback and [<ext>] being [mp4] exactly
    when the selected profile is MP4-family and [webm] otherwise.  The
    stop-completion time is taken with a four-digit year. *)
Theorem C1_artifact_name (evs : list Event) (rid : nat) (r : MediaRecorder)
    (now : Date) :
  let w := Modern.run initialWorld evs in
  recorders w !! rid = Some r -> terminated r = false ->
  recordedBlobs w <> [] -> fourDigitDate now ->
  downloads (Modern.step w (FireStop rid now None))
  = downloads w ++ [(specArtifactName now (mimeType r),
                     newBlob (recordedBlobs w) (mimeType r))]
  /\ (specExtension (mimeType r) = "mp4" <-> isMP4Family (mimeType r) = true)
  /\ (specExtension (mimeType r) = "webm" <-> isMP4Family (mimeType r) = false)
  /\ isMP4Family (mimeType r) = negb (startsWith (mimeType r) "video/webm").
Proof.
  intros w Hl Hlive Hne Hnow.
  pose proof (Modern_recorder_mime evs rid r Hl) as Hin.
  split; [|split; [|split]].
  - cbn [Modern.step]. rewrite Hl, Hlive.
    rewrite Modern_onstop_saved by (rewrite recordedBlobs_retire; exact Hne).
    rewrite recordedBlobs_retire.
    rewrite Modern_downloadName_spec by assumption.
    unfold downloads. rewrite log_retire. reflexivity.
  - unfold specExtension. destruct (isMP4Family (mimeType r)); split; congruence.
  - unfold specExtension. destruct (isMP4Family (mimeType r)); split; congruence.
  - apply Modern_extension_agrees, Hin.
Qed.

Lemma C1_artifact_name_witness :
  downloads (Modern.step (Modern.run initialWorld
                            [CallStart samplePage; FireData 0 (Some sampleChunk)])
               (FireStop 0 sampleNow None))
  = [("shadertoy-recording_2024-01-15_09-30-45.webm",
      {| blobData := blobData sampleChunk; blobType := mimeType sampleRecorder |})].
Proof.
  refine (eq_trans
    (proj1 (C1_artifact_name
              [CallStart samplePage; FireData 0 (Some sampleChunk)]
              0 sampleRecorder sampleNow _ _ _ _)) _).
  - reflexivity.
  - reflexivity.
  - discriminate.
  - unfold fourDigitDate. cbn. lia.
  - reflexivity.
Defined.

(** ** Release of the tracks *)

Lemma Modern_reachable_Inv evs :
  faultFree evs = true -> Inv [] (Modern.run initialWorld evs).
Proof. intros Hf. apply Modern_run_Inv; [exact Hf | apply Inv_initial]. Qed.

Lemma Modern_reachable_Known evs : Known (Modern.run initialWorld evs).
Proof. apply Modern_run_Known, Known_initial. Qed.

Lemma Inv_released_or_live w t :
  Inv [] w -> t ∈ tracks w -> stops t w = 1 \/ (stops t w = 0 /\ live w t).
Proof.
  intros I Ht. destruct (inv_released [] w I t Ht) as [H1 | [Hf | Hl]].
  - left. exact H1.
  - inversion Hf.
  - right. split; [|exact Hl].
    destruct Hl as (rid & r & Hl & Hlive & Hin).
    apply (inv_stream_live [] w I rid r t Hl Hlive Hin).
Qed.

Lemma Inv_terminated_released w rid r t :
  Inv [] w -> recorders w !! rid = Some r -> terminated r = true ->
  t ∈ stream r -> stops t w = 1.
Proof.
  intros I Hl Hterm Hin.
  destruct (inv_stream_known [] w I rid r t Hl Hin) as [Hk _].
  destruct (Inv_released_or_live w t I Hk) as [H1 | [_ (j & rj & Hlj & Hlive & Hinj)]];
    [exact H1|].
  exfalso. destruct (decide (j = rid)) as [->|Hne].
  - rewrite Hl in Hlj. injection Hlj as <-. congruence.
  - apply (inv_disjoint [] w I j rid rj r t Hne Hlj Hl Hinj Hin).
Qed.

Lemma recorders_retire_live rid w r :
  recorders w !! rid = Some r ->
  recorders (retire rid w) !! rid = Some (withState inactive true r).
Proof.
  intros Hl. unfold retire. rewrite Hl. cbn.
  apply list_lookup_insert_Some. left. split; [reflexivity|]. split; [reflexivity|].
  eapply lookup_lt_Some. eassumption.
Qed.

Lemma recorders_inactivate_live rid w r :
  recorders w !! rid = Some r ->
  recorders (inactivate rid w) !! rid
  = Some (withState inactive (terminated r) r).
Proof.
  intros Hl. unfold inactivate. rewrite Hl. cbn.
  apply list_lookup_insert_Some. left. split; [reflexivity|]. split; [reflexivity|].
  eapply lookup_lt_Some. eassumption.
Qed.

(** The tracks a failed [startRecording] acquired are distinct objects. *)
Lemma fresh_combined_nodup nv na w :
  NoDup (freshTracks video nv (acquire (freshTracks audio na w) w)
           ++ freshTracks audio na w).
Proof.
  apply NoDup_app. split; [apply fresh_nodup|]. split; [|apply fresh_nodup].
  intros t (i & Hi & ->)%fresh_spec (j & Hj & Heq)%fresh_spec.
  injection Heq as Heq. cbn [tracks acquire] in Heq.
  rewrite length_app, fresh_length in Heq. lia.
Qed.

(** A call that builds no recorder has stopped every track it acquired,
    whatever happened on the page before. *)
Lemma Modern_failed_start_releases w p t :
  Known w ->
  recorders (Modern.startRecording p w) = recorders w ->
  t ∈ tracks (Modern.startRecording p w) -> t ∉ tracks w ->
  stops t (Modern.startRecording p w) = 1.
Proof.
  intros K Hsame Ht Hnew.
  assert (H0 : stops t w = 0).
  { destruct (stops t w) eqn:E; [reflexivity|].
    exfalso. apply Hnew, (known_stopped w K). rewrite E. discriminate. }
  assert (Hst : modernStarts p = None).
  { destruct (modernStarts p) as [[nv m]|] eqn:E; [|reflexivity].
    destruct (Modern_startRecording_success p w nv m E) as (Hr & _).
    rewrite Hr in Hsame. apply (f_equal length) in Hsame.
    rewrite length_app in Hsame. cbn in Hsame. lia. }
  revert Hst Ht. unfold modernStarts, Modern.startRecording, audioCount.
  destruct (demogl p) as [nv|]; [|intros _ Ht; contradiction].
  destruct (getUserMedia p) as [msg|na]; cbv beta iota zeta;
    rewrite ?length_app, ?fresh_length, ?Nat.add_0_r;
    (destruct (_ =? 0)%nat eqn:E0;
     [apply Nat.eqb_eq in E0
     |destruct (find _ _) as [m'|];
      [destruct (constructorThrows p); [|discriminate]|]]);
    intros _; rewrite ?tracks_stopAll; cbn [tracks emit setRecordedBlobs acquire];
    intros Ht.
  - subst nv. exfalso. apply Hnew. rewrite app_nil_r in Ht. exact Ht.
  - apply elem_of_app in Ht as [Ht|Ht]; [contradiction|].
    rewrite stops_stopAll_in by (apply fresh_nodup || exact Ht).
    unfold stops in *. cbn [log emit setRecordedBlobs acquire stopsIn].
    rewrite H0. reflexivity.
  - apply elem_of_app in Ht as [Ht|Ht]; [contradiction|].
    rewrite stops_stopAll_in by (apply fresh_nodup || exact Ht).
    unfold stops in *. cbn [log emit setRecordedBlobs acquire stopsIn].
    rewrite H0. reflexivity.
  - assert (nv = 0 /\ na = 0) as [-> ->] by lia.
    exfalso. apply Hnew. rewrite !app_nil_r in Ht. exact Ht.
  - apply elem_of_app in Ht as [[Ht|Ht]%elem_of_app|Ht]; [contradiction| |];
      (rewrite stops_stopAll_in;
       [unfold stops in *; cbn [log emit setRecordedBlobs acquire stopsIn];
        rewrite H0; reflexivity
       |apply fresh_combined_nodup
       |apply elem_of_app; auto]).
  - apply elem_of_app in Ht as [[Ht|Ht]%elem_of_app|Ht]; [contradiction| |];
      (rewrite stops_stopAll_in;
       [unfold stops in *; cbn [log emit setRecordedBlobs acquire stopsIn];
        rewrite H0; reflexivity
       |apply fresh_combined_nodup
       |apply elem_of_app; auto]).
Qed.

(** X20. As long as no encoder fault has occurred, no operation touches a
    track after [stop()] was called on it; every acquired track has been
    stopped exactly once unless the session that owns it is still running,
    in which case it has not been stopped; the stop-completion callback
    (with or without chunks, with or without an exception while saving)
    leaves every track of its session stopped exactly once, and so does a
    start that fails after acquiring tracks. *)
Theorem Modern_fault_free_release (evs : list Event) :
  faultFree evs = true ->
  let w := Modern.run initialWorld evs in
  noUseAfterStop (log w) /\
  (forall t, t ∈ tracks w -> stops t w = 1 \/ (stops t w = 0 /\ live w t)) /\
  (forall rid r t, recorders w !! rid = Some r -> terminated r = true ->
     t ∈ stream r -> stops t w = 1) /\
  (forall rid r now saveThrows t,
     recorders w !! rid = Some r -> terminated r = false -> t ∈ stream r ->
     stops t (Modern.step w (FireStop rid now saveThrows)) = 1) /\
  (forall p t,
     let w' := Modern.step w (CallStart p) in
     recorders w' = recorders w -> t ∈ tracks w' -> t ∉ tracks w ->
     stops t w' = 1).
Proof.
  intros Hf w. pose proof (Modern_reachable_Inv evs Hf) as I. fold w in I.
  split; [apply (inv_clean [] w I)|].
  split; [intros t; apply Inv_released_or_live, I|].
  split; [intros rid r t; apply Inv_terminated_released, I|].
  split.
  - intros rid r now exn t Hl Hlive Hin.
    apply (Inv_terminated_released _ rid (withState inactive true r) t);
      [apply Modern_step_Inv; [reflexivity | exact I] | | reflexivity | exact Hin].
    cbn [Modern.step]. rewrite Hl, Hlive, recorders_Modern_onstop.
    apply recorders_retire_live, Hl.
  - intros p t w' Hsame Ht Hnew.
    apply Modern_failed_start_releases; try assumption.
    apply Modern_reachable_Known.
Qed.

Lemma Modern_fault_free_release_witness :
  stops sampleVideoTrack
    (Modern.step (Modern.run initialWorld
                    [CallStart samplePage; FireData 0 (Some sampleChunk); CallStop])
       (FireStop 0 sampleNow None)) = 1
  /\ stops {| trackId := 0; kind := audio |}
       (Modern.step (Modern.run initialWorld []) (CallStart samplePageNoFormat)) = 1.
Proof.
  split.
  - apply (proj1 (proj2 (proj2 (proj2 (Modern_fault_free_release
             [CallStart samplePage; FireData 0 (Some sampleChunk); CallStop]
             eq_refl))))
             0 (withState inactive false sampleRecorder) sampleNow None);
      [reflexivity | reflexivity | left].
  - apply (proj2 (proj2 (proj2 (proj2 (Modern_fault_free_release [] eq_refl))))
             samplePageNoFormat {| trackId := 0; kind := audio |}).
    + reflexivity.
    + vm_compute. left.
    + intros H. inversion H.
Defined.

(** ** The encoder fault *)

Lemma stopsIn_app t l1 l2 :
  stopsIn t (l1 ++ l2) = stopsIn t l1 + stopsIn t l2.
Proof.
  induction l1 as [|e l1 IH]; [reflexivity|].
  destruct e; cbn; rewrite IH; lia.
Qed.

(** A log in which no stopped track is used again stops no track twice. *)
Lemma noUseAfterStop_stopsIn l t : noUseAfterStop l -> stopsIn t l <= 1.
Proof.
  induction l as [|e l IH]; cbn [noUseAfterStop stopsIn]; [lia|].
  intros [Hu Hc]. specialize (IH Hc).
  destruct e; try exact IH.
  destruct (decide (t0 = t)) as [->|]; [|exact IH].
  rewrite (Hu t (list_elem_of_here _ _)). lia.
Qed.

Lemma noUseAfterStop_stops_once w t :
  noUseAfterStop (log w) -> stops t w <= 1.
Proof. apply noUseAfterStop_stopsIn. Qed.

(** How often [ts.forEach(track => track.stop())] stops [t]. *)
Lemma stopsIn_forEach_stop t ts :
  t ∈ ts -> 1 <= stopsIn t (rev (map TrackStop ts)).
Proof.
  induction ts as [|t' ts IH]; intros Hin; [inversion Hin|].
  cbn [map rev]. rewrite stopsIn_app. cbn [stopsIn].
  apply elem_of_cons in Hin as [->|Hin].
  - destruct (decide (t' = t')); [lia | congruence].
  - specialize (IH Hin). lia.
Qed.

Lemma stops_Modern_onstop r now exn w t :
  stops t (Modern.onstop r now exn w)
  = stopsIn t (rev (map TrackStop (stream r))) + stops t w.
Proof.
  unfold Modern.onstop, stops. cbv zeta. cbn [log setMediaRecorder emit stopsIn].
  rewrite log_stopAll, stopsIn_app. f_equal.
  destruct (length _ =? 0)%nat; [|destruct exn]; reflexivity.
Qed.

Lemma stops_Modern_onerror r err w t :
  stops t (Modern.onerror r err w)
  = stopsIn t (rev (map TrackStop (stream r))) + stops t w.
Proof.
  unfold Modern.onerror, stops. cbv zeta. cbn [log setMediaRecorder emit stopsIn].
  rewrite log_stopAll, stopsIn_app. reflexivity.
Qed.

Lemma recorders_Modern_ondataavailable data w :
  recorders (Modern.ondataavailable data w) = recorders w.
Proof.
  unfold Modern.ondataavailable. destruct data as [b|]; [|reflexivity].
  destruct (0 <? blobSize b)%nat; reflexivity.
Qed.

Lemma log_Modern_ondataavailable data w :
  log (Modern.ondataavailable data w) = log w.
Proof.
  unfold Modern.ondataavailable. destruct data as [b|]; [|reflexivity].
  destruct (0 <? blobSize b)%nat; reflexivity.
Qed.

(** What the runtime delivers when the encoder of a running recorder
    fails: [error], the final [dataavailable], [stop].  All three
    callbacks of the script run, [onstop] after [onerror]. *)
Lemma Modern_fault_sequence w rid r err data now exn :
  recorders w !! rid = Some r -> terminated r = false ->
  Modern.run w [FireError rid err; FireData rid data; FireStop rid now exn]
  = Modern.onstop r now exn
      (retire rid
         (Modern.ondataavailable data
            (Modern.onerror r err (inactivate rid w)))).
Proof.
  intros Hl Hlive. unfold Modern.run. cbn [fold_left Modern.step].
  rewrite Hl, Hlive.
  assert (H1 : recorders (Modern.onerror r err (inactivate rid w)) !! rid
               = Some (withState inactive false r)).
  { rewrite recorders_Modern_onerror, (recorders_inactivate_live rid w r Hl), Hlive.
    reflexivity. }
  rewrite H1. cbn [terminated withState].
  rewrite recorders_Modern_ondataavailable, H1. reflexivity.
Qed.

Lemma Modern_fault_stops_twice w rid r err data now exn t :
  recorders w !! rid = Some r -> terminated r = false -> t ∈ stream r ->
  stops t w + 2
  <= stops t (Modern.run w [FireError rid err; FireData rid data;
                            FireStop rid now exn]).
Proof.
  intros Hl Hlive Hin. rewrite (Modern_fault_sequence w rid r) by assumption.
  rewrite stops_Modern_onstop. unfold stops at 2.
  rewrite log_retire, log_Modern_ondataavailable.
  fold (stops t (Modern.onerror r err (inactivate rid w))).
  rewrite stops_Modern_onerror. unfold stops at 2. rewrite log_inactivate.
  pose proof (stopsIn_forEach_stop t (stream r) Hin). unfold stops. lia.
Qed.

(** C2. The claim does not hold of the code.  In the current script an
    encoder fault runs [onerror], which stops the tracks of the session,
    and the [stop] event that the runtime delivers after the fault runs
    [onstop], which stops the same tracks again: on the encoder-fault
    branch every track of the session is stopped twice, the second time
    after it was stopped.  In the legacy script [onstop] stops no track
    and schedules no timeout when the recording is empty or saving throws:
    on those branches the tracks of the session are never stopped. *)
Theorem C2_tracks_not_released_exactly_once :
  (forall (w : World) (rid : nat) (r : MediaRecorder) (err : string)
          (data : option Blob) (now : Date) (saveThrows : option string)
          (t : MediaStreamTrack),
     recorders w !! rid = Some r -> terminated r = false -> t ∈ stream r ->
     stops t w + 2
     <= stops t (Modern.run w [FireError rid err; FireData rid data;
                               FireStop rid now saveThrows])) /\
  (let w := Modern.run initialWorld
              [CallStart samplePage; FireData 0 (Some sampleChunk);
               FireError 0 "encoder failed"; FireData 0 None;
               FireStop 0 sampleNow None] in
   tracks w = [sampleVideoTrack] /\ stops sampleVideoTrack w = 2 /\
   ~ noUseAfterStop (log w)) /\
  (forall (w : World) (r : MediaRecorder) (now : Date)
          (saveThrows : option string) (t : MediaStreamTrack),
     recordedBlobs w = [] \/ saveThrows <> None ->
     stops t (Legacy.onstop r now saveThrows w) = stops t w /\
     timers (Legacy.onstop r now saveThrows w) = timers w) /\
  (let w := Legacy.run initialWorld
              [CallStart samplePage; CallStop; FireStop 0 sampleNow None] in
   tracks w = [sampleVideoTrack] /\ stops sampleVideoTrack w = 0 /\
   timers w = [] /\ terminated <$> recorders w = [true]) /\
  (let w := Legacy.run initialWorld
              [CallStart samplePage; FireData 0 (Some sampleChunk); CallStop;
               FireStop 0 sampleNow (Some "createObjectURL failed")] in
   tracks w = [sampleVideoTrack] /\ stops sampleVideoTrack w = 0 /\
   timers w = [] /\ terminated <$> recorders w = [true]).
Proof.
  split; [intros; apply (Modern_fault_stops_twice w rid r); assumption|].
  split.
  { cbv zeta. split; [vm_compute; reflexivity|].
    assert (H2 : stops sampleVideoTrack
                   (Modern.run initialWorld
                      [CallStart samplePage; FireData 0 (Some sampleChunk);
                       FireError 0 "encoder failed"; FireData 0 None;
                       FireStop 0 sampleNow None]) = 2)
      by (vm_compute; reflexivity).
    split; [exact H2|].
    intros H. apply (noUseAfterStop_stops_once _ sampleVideoTrack) in H.
    rewrite H2 in H. lia. }
  split.
  { intros w r now exn t Hc. unfold Legacy.onstop.
    destruct (recordedBlobs w) as [|b bs]; cbn [length Nat.eqb];
      [split; reflexivity|].
    destruct Hc as [Hc|Hc]; [discriminate|].
    destruct exn as [err|]; [split; reflexivity | congruence]. }
  split; cbv zeta; (split; [|split; [|split]]); vm_compute; reflexivity.
Qed.

Lemma C2_tracks_not_released_exactly_once_witness :
  2 <= stops sampleVideoTrack
         (Modern.run (Modern.run initialWorld [CallStart samplePage])
            [FireError 0 "encoder failed"; FireData 0 None;
             FireStop 0 sampleNow None])
  /\ stops sampleVideoTrack
       (Legacy.onstop sampleRecorder sampleNow None
          (Legacy.run initialWorld [CallStart samplePage; CallStop])) = 0.
Proof.
  split.
  - apply (proj1 C2_tracks_not_released_exactly_once
             (Modern.run initialWorld [CallStart samplePage]) 0 sampleRecorder
             "encoder failed" None sampleNow None sampleVideoTrack);
      [reflexivity | reflexivity | left].
  - apply (proj1 (proj1 (proj2 (proj2 C2_tracks_not_released_exactly_once))
             (Legacy.run initialWorld [CallStart samplePage; CallStop])
             sampleRecorder sampleNow None sampleVideoTrack (or_introl eq_refl))).
Defined.

(** ** Profile selection *)








(** ** A session between [start(100)] and its [stop] event *)

Lemma emittedChunks_cons rid e evs :
  emittedChunks rid (e :: evs) = emittedChunks rid [e] ++ emittedChunks rid evs.
Proof.
  destruct e as [p| |rid' [b|]|rid' now exn|rid' err|i]; cbn; try reflexivity.
  destruct (decide (rid' = rid)); reflexivity.
Qed.

Lemma recordedBlobs_recorderStop rid w :
  recordedBlobs (recorderStop rid w) = recordedBlobs w.
Proof. unfold recorderStop. destruct (recorders w !! rid); reflexivity. Qed.

Lemma downloads_recorderStop rid w : downloads (recorderStop rid w) = downloads w.
Proof. unfold recorderStop. destruct (recorders w !! rid); reflexivity. Qed.

Lemma recorderStop_keeps_live rid0 w rid r :
  recorders w !! rid = Some r -> terminated r = false ->
  exists r', recorders (recorderStop rid0 w) !! rid = Some r' /\
             terminated r' = false /\ sameConfig r r'.
Proof.
  intros Hl Hlive. unfold recorderStop.
  destruct (recorders w !! rid0) as [r0|] eqn:Hl0; cbn [recorders setRecorders emit].
  - destruct (decide (rid0 = rid)) as [->|Hne].
    + rewrite Hl in Hl0. injection Hl0 as <-.
      exists (withState inactive (terminated r) r).
      split; [|split; [exact Hlive | apply sameConfig_withState]].
      apply list_lookup_insert_Some. left. split; [reflexivity|].
      split; [reflexivity|]. eapply lookup_lt_Some. eassumption.
    + exists r. split; [|split; [exact Hlive | apply sameConfig_refl]].
      apply list_lookup_insert_Some. right. split; assumption.
  - exists r. split; [exact Hl|]. split; [exact Hlive | apply sameConfig_refl].
Qed.

Lemma Modern_step_within w rid r e :
  recorders w !! rid = Some r -> terminated r = false ->
  withinSession rid e = true ->
  recordedBlobs (Modern.step w e)
  = recordedBlobs w ++ List.filter nonEmptyChunk (emittedChunks rid [e]) /\
  downloads (Modern.step w e) = downloads w /\
  exists r', recorders (Modern.step w e) !! rid = Some r' /\
             terminated r' = false /\ sameConfig r r'.
Proof.
  intros Hl Hlive Hin.
  assert (Hkeep : exists r', recorders w !! rid = Some r' /\
                             terminated r' = false /\ sameConfig r r').
  { exists r. split; [exact Hl|]. split; [exact Hlive | apply sameConfig_refl]. }
  destruct e as [p| |rid' data|rid' now exn|rid' err|i]; cbn in Hin;
    try discriminate; cbn [Modern.step].
  - unfold Modern.stopRecording.
    destruct (mediaRecorder w) as [rid0|];
      [destruct (recorders w !! rid0) as [r0|]; [destruct (state r0)|]|];
      cbn [recordedBlobs recorders emit emittedChunks List.filter];
      rewrite ?recordedBlobs_recorderStop, ?app_nil_r;
      (split; [reflexivity|]);
      (split; [try reflexivity; apply downloads_recorderStop|]);
      try exact Hkeep; apply recorderStop_keeps_live; assumption.
  - apply bool_decide_eq_true in Hin as ->. rewrite Hl, Hlive.
    destruct data as [b|]; cbn [Modern.ondataavailable emittedChunks].
    + destruct (decide (rid = rid)); [|congruence].
      cbn [List.filter]. unfold nonEmptyChunk.
      destruct (0 <? blobSize b)%nat; cbn [recordedBlobs setRecordedBlobs];
        rewrite ?app_nil_r; auto.
    + cbn [List.filter]. rewrite app_nil_r. auto.
  - destruct (timers w !! i); cbn [emittedChunks List.filter];
      rewrite app_nil_r; auto.
Qed.

Lemma Modern_session w rid r evs :
  recorders w !! rid = Some r -> terminated r = false ->
  forallb (withinSession rid) evs = true ->
  recordedBlobs (Modern.run w evs)
  = recordedBlobs w ++ List.filter nonEmptyChunk (emittedChunks rid evs) /\
  downloads (Modern.run w evs) = downloads w /\
  exists r', recorders (Modern.run w evs) !! rid = Some r' /\
             terminated r' = false /\ sameConfig r r'.
Proof.
  revert w r. induction evs as [|e evs IH]; intros w r Hl Hlive Hall.
  - cbn. rewrite app_nil_r. split; [reflexivity|]. split; [reflexivity|].
    exists r. split; [exact Hl|]. split; [exact Hlive | apply sameConfig_refl].
  - cbn in Hall. apply andb_true_iff in Hall as [He Hall].
    destruct (Modern_step_within w rid r e Hl Hlive He)
      as (Hb & Hd & r1 & Hl1 & Hlive1 & Hs1).
    destruct (IH (Modern.step w e) r1 Hl1 Hlive1 Hall)
      as (Hb2 & Hd2 & r2 & Hl2 & Hlive2 & Hs2).
    cbn [Modern.run fold_left]. fold (Modern.run (Modern.step w e) evs).
    rewrite Hb2, Hd2, Hb, Hd, (emittedChunks_cons rid e evs), List.filter_app,
      app_assoc.
    split; [reflexivity|]. split; [reflexivity|].
    exists r2. split; [exact Hl2|]. split; [exact Hlive2|].
    eapply sameConfig_trans; eassumption.
Qed.

(** Chunks of size zero contribute no byte. *)
Lemma concat_nonEmpty bs :
  concat (map blobData (List.filter nonEmptyChunk bs)) = concat (map blobData bs).
Proof.
  induction bs as [|b bs IH]; [reflexivity|]. cbn [List.filter map].
  destruct (nonEmptyChunk b) eqn:E; cbn [map concat]; rewrite IH; [reflexivity|].
  unfold nonEmptyChunk, blobSize in E.
  destruct (blobData b); [reflexivity | discriminate].
Qed.

(** A whole session: a successful [startRecording] from any page state,
    then events of that session, then the stop-completion callback. *)
Lemma Modern_session_artifact w0 p r evs now :
  let rid := length (recorders w0) in
  let w1 := Modern.startRecording p w0 in
  let w2 := Modern.run w1 evs in
  let kept := List.filter nonEmptyChunk (emittedChunks rid evs) in
  recorders w1 !! rid = Some r ->
  forallb (withinSession rid) evs = true ->
  recordedBlobs w1 = [] /\ state r = recording /\ terminated r = false /\
  recordedBlobs w2 = kept /\
  (kept <> [] ->
   downloads (Modern.step w2 (FireStop rid now None))
   = downloads w0 ++ [(Modern.downloadName now (mimeType r),
                       newBlob kept (mimeType r))]).
Proof.
  intros rid w1 w2 kept Hl Hall.
  destruct (modernStarts p) as [[nv m]|] eqn:Hst.
  2: { destruct (Modern_startRecording_failure p w0 Hst) as (Hr & _).
       subst w1. rewrite Hr in Hl. apply lookup_lt_Some in Hl.
       subst rid. lia. }
  destruct (Modern_startRecording_success p w0 nv m Hst)
    as (Hr & _ & Hb & _ & Hd & _).
  fold w1 in Hr, Hb, Hd.
  assert (r = modernRecorder p nv m w0) as Hrec.
  { rewrite Hr in Hl. subst rid. rewrite lookup_snoc_new in Hl. congruence. }
  assert (Hlive : terminated r = false)
    by (rewrite Hrec; unfold modernRecorder; destruct (getUserMedia p); reflexivity).
  assert (Hstate : state r = recording)
    by (rewrite Hrec; unfold modernRecorder; destruct (getUserMedia p); reflexivity).
  destruct (Modern_session w1 rid r evs Hl Hlive Hall)
    as (Hb2 & Hd2 & r2 & Hl2 & Hlive2 & Hs2).
  fold w2 in Hb2, Hd2, Hl2. rewrite Hb in Hb2. cbn [app] in Hb2. fold kept in Hb2.
  repeat split; try assumption.
  intros Hne. cbn [Modern.step]. rewrite Hl2, Hlive2.
  rewrite Modern_onstop_saved by (rewrite recordedBlobs_retire, Hb2; exact Hne).
  rewrite recordedBlobs_retire, Hb2.
  destruct Hs2 as (_ & -> & _).
  unfold downloads at 1. rewrite log_retire. fold (downloads w2).
  rewrite Hd2, Hd. reflexivity.
Qed.

(** C6. [ondataavailable] appends a chunk exactly when its size is not
    zero, at the end of the sequence; over a session the sequence is the
    non-empty emitted chunks in emission order, and the artifact of a
    session that finalizes is their concatenation in that order, tagged
    by the [Blob] constructor with the selected type in ASCII lowercase. *)
Theorem C6_chunks_in_emission_order :
  (forall (w : World) (b : Blob),
     recordedBlobs (Modern.ondataavailable (Some b) w)
     = if decide (blobSize b = 0) then recordedBlobs w
       else recordedBlobs w ++ [b]) /\
  (forall (w0 : World) (p : Page) (r : MediaRecorder) (evs : list Event)
          (now : Date),
     let rid := length (recorders w0) in
     let w1 := Modern.startRecording p w0 in
     let w2 := Modern.run w1 evs in
     let kept := List.filter nonEmptyChunk (emittedChunks rid evs) in
     recorders w1 !! rid = Some r ->
     forallb (withinSession rid) evs = true ->
     recordedBlobs w2 = kept /\
     (kept <> [] ->
      exists artifact,
        downloads (Modern.step w2 (FireStop rid now None))
        = downloads w0 ++ [(Modern.downloadName now (mimeType r), artifact)] /\
        blobType artifact = asciiLowercase (mimeType r) /\
        blobData artifact = concat (map blobData kept) /\
        blobData artifact = concat (map blobData (emittedChunks rid evs)))).
Proof.
  split.
  - intros w b. unfold Modern.ondataavailable.
    destruct (decide (blobSize b = 0)) as [->|Hne]; [reflexivity|].
    destruct (0 <? blobSize b)%nat eqn:E; [reflexivity|].
    apply Nat.ltb_ge in E. lia.
  - intros w0 p r evs now rid w1 w2 kept Hl Hall.
    destruct (Modern_session_artifact w0 p r evs now Hl Hall)
      as (_ & _ & _ & Hkept & Hsave).
    split; [exact Hkept|]. intros Hne.
    exists (newBlob kept (mimeType r)).
    split; [apply Hsave, Hne|].
    split; [apply Modern_blobTypeOf, (Modern_started_mime p w0 r Hl)|].
    split; [reflexivity|].
    apply concat_nonEmpty.
Qed.

Lemma C6_chunks_in_emission_order_witness :
  recordedBlobs
    (Modern.run (Modern.startRecording samplePage initialWorld)
       [FireData 0 (Some sampleChunk); FireData 0 (Some emptyChunk);
        FireData 0 None; CallStop; FireData 0 (Some sampleChunk)])
  = [sampleChunk; sampleChunk].
Proof.
  exact (proj1 (proj2 C6_chunks_in_emission_order initialWorld samplePage
                  sampleRecorder
                  [FireData 0 (Some sampleChunk); FireData 0 (Some emptyChunk);
                   FireData 0 None; CallStop; FireData 0 (Some sampleChunk)]
                  sampleNow eq_refl eq_refl)).
Defined.

Lemma Modern_startRecording_resets p w :
  demogl p <> None -> recordedBlobs (Modern.startRecording p w) = [].
Proof.
  intros Hc. destruct (modernStarts p) as [[nv m]|] eqn:Hst.
  - apply (Modern_startRecording_success p w nv m Hst).
  - revert Hst. unfold modernStarts, Modern.startRecording, audioCount.
    destruct (demogl p) as [nv|]; [|congruence].
    destruct (getUserMedia p) as [msg|na]; cbv beta iota zeta;
      rewrite ?length_app, ?fresh_length, ?Nat.add_0_r;
      (destruct (_ =? 0)%nat;
       [|destruct (find _ _) as [m'|];
         [destruct (constructorThrows p); [|discriminate]|]]);
      intros _; rewrite ?recordedBlobs_stopAll; reflexivity.
Qed.

Lemma Legacy_startRecording_resets p w :
  demogl p <> None -> recordedBlobs (Legacy.startRecording p w) = [].
Proof.
  intros Hc. unfold Legacy.startRecording.
  destruct (demogl p) as [nv|]; [|congruence]. cbv zeta.
  destruct (constructorThrows p); [reflexivity|].
  unfold recorderStart. cbn [recorders setMediaRecorder setRecorders emit].
  rewrite lookup_snoc_new. reflexivity.
Qed.

(** C10. Every call of [startRecording] that finds the canvas empties
    [recordedBlobs], so the sequence is empty when the encoder is started;
    whatever the page held before, the artifact of the session is built
    from chunks emitted in that session only. *)
Theorem C10_chunks_reset_on_start :
  (forall (p : Page) (w : World),
     demogl p <> None -> recordedBlobs (Modern.startRecording p w) = []) /\
  (forall (p : Page) (w : World),
     demogl p <> None -> recordedBlobs (Legacy.startRecording p w) = []) /\
  (forall (p : Page) (w : World) (r : MediaRecorder),
     recorders (Modern.startRecording p w) !! length (recorders w) = Some r ->
     state r = recording /\ recordedBlobs (Modern.startRecording p w) = []) /\
  (forall (w0 : World) (p : Page) (r : MediaRecorder) (evs : list Event)
          (now : Date),
     let rid := length (recorders w0) in
     let w1 := Modern.startRecording p w0 in
     let w2 := Modern.run w1 evs in
     recorders w1 !! rid = Some r ->
     forallb (withinSession rid) evs = true ->
     (forall b, b ∈ recordedBlobs w2 -> b ∈ emittedChunks rid evs) /\
     (recordedBlobs w2 <> [] ->
      downloads (Modern.step w2 (FireStop rid now None))
      = downloads w0 ++ [(Modern.downloadName now (mimeType r),
                          newBlob (recordedBlobs w2) (mimeType r))])).
Proof.
  split; [exact Modern_startRecording_resets|].
  split; [exact Legacy_startRecording_resets|].
  split.
  - intros p w r Hl.
    destruct (Modern_session_artifact w p r [] (mkDate 0 0 0 0 0 0 0) Hl eq_refl)
      as (Hb & Hs & _). auto.
  - intros w0 p r evs now rid w1 w2 Hl Hall.
    destruct (Modern_session_artifact w0 p r evs now Hl Hall)
      as (_ & _ & _ & Hkept & Hsave).
    fold rid w1 w2 in Hkept, Hsave. rewrite Hkept. split; [|exact Hsave].
    intros b Hb. apply list_elem_of_In in Hb. apply filter_In in Hb as [Hb _].
    apply list_elem_of_In. exact Hb.
Qed.

Lemma C10_chunks_reset_on_start_witness :
  recordedBlobs
    (Modern.startRecording samplePage
       (setRecordedBlobs [sampleChunk; sampleChunk] initialWorld)) = []
  /\ recordedBlobs
       (Legacy.startRecording samplePage
          (setRecordedBlobs [sampleChunk; sampleChunk] initialWorld)) = []
  /\ downloads
       (Modern.step
          (Modern.run
             (Modern.startRecording samplePage
                (setRecordedBlobs [emptyChunk; emptyChunk] initialWorld))
             [FireData 0 (Some sampleChunk); CallStop])
          (FireStop 0 sampleNow None))
     = [("shadertoy-recording_2024-01-15_09-30-45.webm",
         {| blobData := blobData sampleChunk; blobType := mimeType sampleRecorder |})].
Proof.
  split; [|split].
  - apply (proj1 C10_chunks_reset_on_start). discriminate.
  - apply (proj1 (proj2 C10_chunks_reset_on_start)). discriminate.
  - refine (eq_trans
      (proj2 (proj2 (proj2 (proj2 C10_chunks_reset_on_start))
                (setRecordedBlobs [emptyChunk; emptyChunk] initialWorld)
                samplePage sampleRecorder
                [FireData 0 (Some sampleChunk); CallStop] sampleNow
                eq_refl eq_refl) _) _).
    + discriminate.
    + reflexivity.
Defined.

(** ** Recording without a microphone *)

Lemma Modern_audio_denied_reported p w nv msg :
  demogl p = Some nv -> getUserMedia p = Rejected msg ->
  In (Alert ("Could not get audio stream. Recording video only. Error: " +:+ msg))
     (log (Modern.startRecording p w)).
Proof.
  intros Hc Hg. unfold Modern.startRecording. rewrite Hc, Hg.
  cbv beta iota zeta.
  destruct (_ =? 0)%nat;
    [|destruct (find _ _) as [m|]; [destruct (constructorThrows p)|]];
    rewrite ?log_stopAll; try (apply in_or_app; right); try (cbn; auto 20; fail).
  unfold recorderStart. cbn [recorders setMediaRecorder setRecorders emit].
  rewrite lookup_snoc_new. cbn. auto 20.
Qed.

(** C4. When the canvas exists and the audio request is refused,
    [startRecording] still starts a recorder: over the canvas tracks
    alone, all of them video, with no audio bitrate; the refusal is
    reported; and the session then records and saves like any other. *)
Theorem C4_audio_denied_records_video_only (w : World) (p : Page) (nv : nat)
    (msg m : string) :
  demogl p = Some nv -> getUserMedia p = Rejected msg -> nv <> 0 ->
  find (isTypeSupported p) Modern.mimeTypes = Some m ->
  constructorThrows p = None ->
  let w' := Modern.startRecording p w in
  let rid := length (recorders w) in
  let cs := freshTracks video nv w in
  mediaRecorder w' = Some rid /\
  recorders w' !! rid
  = Some {| stream := cs; mimeType := m; videoBitsPerSecond := 5000000;
            audioBitsPerSecond := None; state := recording;
            timeslice := Some 100%Z; terminated := false |} /\
  length cs = nv /\ (forall t, t ∈ cs -> kind t = video) /\
  In (Alert ("Could not get audio stream. Recording video only. Error: " +:+ msg))
     (log w') /\
  (forall (evs : list Event) (now : Date),
     let kept := List.filter nonEmptyChunk (emittedChunks rid evs) in
     forallb (withinSession rid) evs = true -> kept <> [] ->
     downloads (Modern.step (Modern.run w' evs) (FireStop rid now None))
     = downloads w ++ [(Modern.downloadName now m, newBlob kept m)]).
Proof.
  intros Hc Hg Hnv Hf Hctor w' rid cs.
  assert (Hst : modernStarts p = Some (nv, m)).
  { unfold modernStarts, audioCount. rewrite Hc, Hg, Hf, Hctor, Nat.add_0_r.
    destruct (nv =? 0)%nat eqn:E; [apply Nat.eqb_eq in E; contradiction | reflexivity]. }
  destruct (Modern_startRecording_success p w nv m Hst) as (Hr & Hm & _).
  fold w' in Hr, Hm.
  assert (Hrec : modernRecorder p nv m w
                 = {| stream := cs; mimeType := m; videoBitsPerSecond := 5000000;
                      audioBitsPerSecond := None; state := recording;
                      timeslice := Some 100%Z; terminated := false |})
    by (unfold modernRecorder; rewrite Hg; reflexivity).
  assert (Hl : recorders w' !! rid = Some (modernRecorder p nv m w))
    by (rewrite Hr; apply lookup_snoc_new).
  split; [exact Hm|]. split; [rewrite <- Hrec; exact Hl|].
  split; [apply fresh_length|]. split; [intros t; apply fresh_kind|].
  split; [apply (Modern_audio_denied_reported p w nv msg Hc Hg)|].
  intros evs now kept Hall Hne.
  destruct (Modern_session_artifact w p _ evs now Hl Hall) as (_ & _ & _ & _ & Hsave).
  rewrite Hrec in Hsave. apply Hsave, Hne.
Qed.

Lemma C4_audio_denied_records_video_only_witness :
  recorders (Modern.startRecording samplePage initialWorld) !! 0
  = Some sampleRecorder
  /\ downloads
       (Modern.step
          (Modern.run (Modern.startRecording samplePage initialWorld)
             [FireData 0 (Some sampleChunk); CallStop])
          (FireStop 0 sampleNow None))
     = [("shadertoy-recording_2024-01-15_09-30-45.webm",
         {| blobData := blobData sampleChunk; blobType := mimeType sampleRecorder |})].
Proof.
  pose proof (C4_audio_denied_records_video_only initialWorld samplePage 1
                "Permission denied" (mimeType sampleRecorder)
                eq_refl eq_refl (Nat.neq_succ_0 0) eq_refl eq_refl)
    as (_ & Hrec & _ & _ & _ & Hsave).
  split; [exact Hrec|].
  refine (eq_trans (Hsave [FireData 0 (Some sampleChunk); CallStop] sampleNow
                      eq_refl _) _).
  - discriminate.
  - reflexivity.
Defined.

(** ** The empty recording *)

(** X21. In the current script, when the stop-completion callback finds
    the chunk sequence empty it reports ["No data was recorded."] as a
    warning, assembles nothing, triggers no download and schedules no
    cleanup, stops every track of the session and clears [mediaRecorder];
    as long as no encoder fault has occurred each of those tracks is then
    stopped exactly once. *)
Theorem Modern_empty_recording (evs : list Event) (rid : nat) (r : MediaRecorder)
    (now : Date) (saveThrows : option string) :
  let w := Modern.run initialWorld evs in
  let w' := Modern.step w (FireStop rid now saveThrows) in
  recorders w !! rid = Some r -> terminated r = false ->
  recordedBlobs w = [] ->
  log w' = ConsoleLog "All tracks stopped (onstop)."
             :: rev (map TrackStop (stream r))
             ++ ConsoleWarn "No data was recorded."
             :: ConsoleLog "MediaRecorder stopped." :: log w /\
  downloads w' = downloads w /\ timers w' = timers w /\
  mediaRecorder w' = None /\
  (faultFree evs = true -> forall t, t ∈ stream r -> stops t w' = 1).
Proof.
  intros w w' Hl Hlive Hempty.
  assert (Hstep : w' = Modern.onstop r now saveThrows (retire rid w)).
  { subst w'. cbn [Modern.step]. rewrite Hl, Hlive. reflexivity. }
  split; [|split; [|split; [|split]]].
  - rewrite Hstep. unfold Modern.onstop. cbv zeta.
    cbn [recordedBlobs emit log setMediaRecorder].
    rewrite recordedBlobs_retire, Hempty. cbn [length Nat.eqb].
    rewrite log_stopAll. cbn [log emit]. rewrite log_retire. reflexivity.
  - rewrite Hstep.
    rewrite (proj1 (Modern_onstop_unsaved r now saveThrows (retire rid w)
                      (or_introl (eq_trans (recordedBlobs_retire rid w) Hempty)))).
    unfold downloads. rewrite log_retire. reflexivity.
  - rewrite Hstep.
    rewrite (proj2 (Modern_onstop_unsaved r now saveThrows (retire rid w)
                      (or_introl (eq_trans (recordedBlobs_retire rid w) Hempty)))).
    apply timers_retire.
  - rewrite Hstep. reflexivity.
  - intros Hf t Hin.
    apply (Inv_terminated_released w' rid (withState inactive true r) t);
      [apply Modern_step_Inv; [reflexivity | apply Modern_reachable_Inv, Hf]
      | | reflexivity | exact Hin].
    rewrite Hstep, recorders_Modern_onstop. apply recorders_retire_live, Hl.
Qed.

Lemma Modern_empty_recording_witness :
  log (Modern.step (Modern.run initialWorld [CallStart samplePage; CallStop])
         (FireStop 0 sampleNow None))
  = ConsoleLog "All tracks stopped (onstop)."
      :: TrackStop sampleVideoTrack
      :: ConsoleWarn "No data was recorded."
      :: ConsoleLog "MediaRecorder stopped."
      :: log (Modern.run initialWorld [CallStart samplePage; CallStop]).
Proof.
  exact (proj1 (Modern_empty_recording [CallStart samplePage; CallStop] 0
                  (withState inactive false sampleRecorder) sampleNow None
                  eq_refl eq_refl eq_refl)).
Defined.

(** C5. The claim does not hold of the legacy script.  Its stop-completion
    callback reports the empty chunk sequence and returns at once: nothing
    is assembled or downloaded, but no track is stopped and no timeout is
    scheduled that would stop one, although the recorder has delivered its
    [stop] event.  The tracks of the session are never released. *)
Theorem C5_legacy_empty_recording_keeps_tracks :
  (forall (w : World) (rid : nat) (r : MediaRecorder) (now : Date)
          (saveThrows : option string),
     let w' := Legacy.step w (FireStop rid now saveThrows) in
     recorders w !! rid = Some r -> terminated r = false ->
     recordedBlobs w = [] ->
     log w' = ConsoleError "No data was recorded" :: log w /\
     downloads w' = downloads w /\ timers w' = timers w /\
     (forall t, stops t w' = stops t w) /\
     recorders w' !! rid = Some (withState inactive true r)) /\
  (let w := Legacy.run initialWorld
              [CallStart samplePage; CallStop; FireStop 0 sampleNow None] in
   tracks w = [sampleVideoTrack] /\ stops sampleVideoTrack w = 0 /\
   timers w = [] /\ downloads w = [] /\
   terminated <$> recorders w = [true]).
Proof.
  split.
  - intros w rid r now exn w' Hl Hlive Hempty.
    assert (Hstep : w' = emit (ConsoleError "No data was recorded") (retire rid w)).
    { subst w'. cbn [Legacy.step]. rewrite Hl, Hlive. unfold Legacy.onstop.
      rewrite recordedBlobs_retire, Hempty. reflexivity. }
    rewrite Hstep. unfold downloads, stops. cbn [log emit timers recorders
      downloadsOf stopsIn].
    rewrite log_retire, timers_retire.
    repeat split; try reflexivity.
    apply recorders_retire_live, Hl.
  - cbv zeta. (split; [|split; [|split; [|split]]]); vm_compute; reflexivity.
Qed.

Lemma C5_legacy_empty_recording_keeps_tracks_witness :
  stops sampleVideoTrack
    (Legacy.step (Legacy.run initialWorld [CallStart samplePage; CallStop])
       (FireStop 0 sampleNow None))
  = stops sampleVideoTrack
      (Legacy.run initialWorld [CallStart samplePage; CallStop]).
Proof.
  destruct (proj1 C5_legacy_empty_recording_keeps_tracks
              (Legacy.run initialWorld [CallStart samplePage; CallStop]) 0
              (withState inactive false
                 {| stream := [sampleVideoTrack]; mimeType := "video/webm;codecs=h264";
                    videoBitsPerSecond := 5000000; audioBitsPerSecond := None;
                    state := recording; timeslice := Some 100%Z;
                    terminated := false |})
              sampleNow None eq_refl eq_refl eq_refl)
    as (_ & _ & _ & Hstops & _).
  exact (Hstops sampleVideoTrack).
Defined.

(** ** Stop requests without an active session *)

(** C7, as amended.  When [mediaRecorder] is unset, or the recorder it
    names is not recording (in the current script: neither recording nor
    paused), [stopRecording] sends no stop signal, stops no track and
    downloads nothing.  The current script reports the call with a console
    warning and leaves the page state otherwise unchanged; the legacy
    script does nothing at all, not even report.  From [recording] (in
    the current script also from [paused]) the stop signal is sent. *)
Theorem C7_stop_when_not_recording (w : World) :
  ((mediaRecorder w = None \/
    exists rid, mediaRecorder w = Some rid /\
      (recorders w !! rid = None \/
       exists r, recorders w !! rid = Some r /\ state r = inactive)) ->
   Modern.stopRecording w = emit (ConsoleWarn Modern.notActiveWarning) w /\
   recorders (Modern.stopRecording w) = recorders w /\
   downloads (Modern.stopRecording w) = downloads w /\
   (forall t, stops t (Modern.stopRecording w) = stops t w) /\
   log (Modern.stopRecording w) = ConsoleWarn Modern.notActiveWarning :: log w) /\
  (forall rid r,
     mediaRecorder w = Some rid -> recorders w !! rid = Some r ->
     state r <> inactive ->
     log (Modern.stopRecording w)
     = ConsoleLog "Stop recording signal sent to MediaRecorder."
         :: RecorderStop rid (stream r) :: log w) /\
  ((mediaRecorder w = None \/
    exists rid, mediaRecorder w = Some rid /\
      (recorders w !! rid = None \/
       exists r, recorders w !! rid = Some r /\ state r <> recording)) ->
   Legacy.stopRecording w = w) /\
  (forall rid r,
     mediaRecorder w = Some rid -> recorders w !! rid = Some r ->
     state r = recording ->
     log (Legacy.stopRecording w)
     = ConsoleLog "Recording stopped." :: RecorderStop rid (stream r) :: log w).
Proof.
  split; [|split; [|split]].
  - intros Hidle.
    assert (Heq : Modern.stopRecording w
                  = emit (ConsoleWarn Modern.notActiveWarning) w).
    { unfold Modern.stopRecording.
      destruct Hidle as [-> | (rid & -> & [-> | (r & -> & ->)])]; reflexivity. }
    rewrite Heq. repeat split.
  - intros rid r Hm Hl Hs. unfold Modern.stopRecording. rewrite Hm, Hl.
    destruct (state r); [congruence | |];
      unfold recorderStop; rewrite Hl; reflexivity.
  - intros Hidle. unfold Legacy.stopRecording.
    destruct Hidle as [-> | (rid & -> & [-> | (r & -> & Hs)])]; try reflexivity.
    destruct (state r); [reflexivity | congruence | reflexivity].
  - intros rid r Hm Hl Hs. unfold Legacy.stopRecording. rewrite Hm, Hl, Hs.
    unfold recorderStop. rewrite Hl. reflexivity.
Qed.

Lemma C7_stop_when_not_recording_witness :
  Modern.stopRecording initialWorld
  = emit (ConsoleWarn Modern.notActiveWarning) initialWorld
  /\ Modern.stopRecording
       (Modern.run initialWorld
          [CallStart samplePage; FireData 0 (Some sampleChunk); CallStop;
           FireStop 0 sampleNow None])
     = emit (ConsoleWarn Modern.notActiveWarning)
         (Modern.run initialWorld
            [CallStart samplePage; FireData 0 (Some sampleChunk); CallStop;
             FireStop 0 sampleNow None])
  /\ log (Modern.stopRecording (Modern.run initialWorld [CallStart samplePage]))
     = ConsoleLog "Stop recording signal sent to MediaRecorder."
         :: RecorderStop 0 [sampleVideoTrack]
         :: log (Modern.run initialWorld [CallStart samplePage])
  /\ Legacy.stopRecording initialWorld = initialWorld
  /\ log (Legacy.stopRecording (Legacy.run initialWorld [CallStart samplePage]))
     = ConsoleLog "Recording stopped."
         :: RecorderStop 0 [sampleVideoTrack]
         :: log (Legacy.run initialWorld [CallStart samplePage]).
Proof.
  split; [|split; [|split; [|split]]].
  - apply (proj1 (C7_stop_when_not_recording initialWorld)). left. reflexivity.
  - apply (proj1 (C7_stop_when_not_recording _)). left. reflexivity.
  - apply (proj1 (proj2 (C7_stop_when_not_recording _)) 0 sampleRecorder);
      [reflexivity | reflexivity | discriminate].
  - apply (proj1 (proj2 (proj2 (C7_stop_when_not_recording initialWorld)))).
    left. reflexivity.
  - apply (proj2 (proj2 (proj2 (C7_stop_when_not_recording _))) 0
             {| stream := [sampleVideoTrack]; mimeType := "video/webm;codecs=h264";
                videoBitsPerSecond := 5000000; audioBitsPerSecond := None;
                state := recording; timeslice := Some 100%Z;
                terminated := false |});
      reflexivity.
Defined.

(** C7 as stated fails on the legacy script: a stop request without an
    active recorder is not reported.  Before any session, and again after
    a session has finished, [stopRecording] leaves the log as it was. *)
Lemma C7_legacy_idle_stop_counterexample :
  let w := Legacy.run initialWorld
             [CallStart samplePage; FireData 0 (Some sampleChunk); CallStop;
              FireStop 0 sampleNow None] in
  mediaRecorder initialWorld = None /\
  log (Legacy.stopRecording initialWorld) = log initialWorld /\
  state <$> recorders w = [inactive] /\
  log (Legacy.stopRecording w) = log w /\
  Legacy.stopRecording w = w.
Proof.
  cbv zeta. split; [reflexivity|]. split; [reflexivity|].
  split; [vm_compute; reflexivity|]. split; vm_compute; reflexivity.
Qed.

(** ** Encoder configuration *)

Lemma modernRecorder_config p nv m w :
  let r := modernRecorder p nv m w in
  videoBitsPerSecond r = 5000000%Z /\ timeslice r = Some 100%Z /\
  (audioBitsPerSecond r = None \/ audioBitsPerSecond r = Some 128000%Z) /\
  (microphoneHasTrack (CallStart p) ->
   (audioBitsPerSecond r = Some 128000%Z <->
    exists t, t ∈ stream r /\ kind t = audio)).
Proof.
  unfold modernRecorder, microphoneHasTrack.
  destruct (getUserMedia p) as [msg|na]; cbn.
  - repeat split; auto; try discriminate.
    intros (t & Ht & Hk). apply fresh_kind in Ht. congruence.
  - repeat split; auto. intros _.
    exists {| trackId := length (tracks w) + 0; kind := audio |}.
    split; [|reflexivity]. apply elem_of_app. right.
    apply fresh_spec. exists 0. auto.
Qed.

(** C8. Every recorder the script has started is configured with a video
    bitrate of 5,000,000 bit/s and was started with a timeslice of 100 ms;
    its audio bitrate is either unset or 128,000 bit/s, and it is 128,000
    exactly when its stream has an audio track (a microphone stream that
    was granted carries one).  The legacy script configures 5,000,000
    bit/s, 100 ms and no audio over video tracks only. *)
Theorem C8_encoder_configuration :
  (forall (evs : list Event) (rid : nat) (r : MediaRecorder),
     recorders (Modern.run initialWorld evs) !! rid = Some r ->
     videoBitsPerSecond r = 5000000%Z /\ timeslice r = Some 100%Z /\
     (audioBitsPerSecond r = None \/ audioBitsPerSecond r = Some 128000%Z) /\
     (Forall microphoneHasTrack evs ->
      (audioBitsPerSecond r = Some 128000%Z <->
       exists t, t ∈ stream r /\ kind t = audio))) /\
  (forall (p : Page) (w : World) (r : MediaRecorder),
     recorders (Legacy.startRecording p w) !! length (recorders w) = Some r ->
     videoBitsPerSecond r = 5000000%Z /\ timeslice r = Some 100%Z /\
     audioBitsPerSecond r = None /\ forall t, t ∈ stream r -> kind t = video).
Proof.
  split.
  - intros evs rid r Hl.
    destruct (Modern_recorder_created evs rid r Hl)
      as (p & nv & m & w0 & Hin & _ & Hst & _ & Hv & Ha & Ht).
    destruct (modernRecorder_config p nv m w0) as (Hv0 & Ht0 & Ha0 & Hiff).
    split; [congruence|]. split; [auto|]. split; [rewrite Ha; exact Ha0|].
    intros Hwf. rewrite Ha, Hst. apply Hiff.
    apply (proj1 (Forall_forall _ _) Hwf _ Hin).
  - intros p w r. unfold Legacy.startRecording.
    destruct (demogl p) as [nv|].
    2: { intros Hl. apply lookup_lt_Some in Hl. cbn in Hl. lia. }
    cbv zeta. destruct (constructorThrows p).
    { intros Hl. apply lookup_lt_Some in Hl. cbn in Hl. lia. }
    unfold recorderStart. cbn [recorders setMediaRecorder setRecorders emit acquire].
    rewrite lookup_snoc_new. cbn [recorders setRecorders].
    rewrite insert_snoc_new, lookup_snoc_new. intros [= <-]. cbn.
    repeat split. intros t. apply fresh_kind.
Qed.

Lemma C8_encoder_configuration_witness :
  (videoBitsPerSecond sampleRecorder = 5000000%Z /\
   timeslice sampleRecorder = Some 100%Z /\
   (audioBitsPerSecond sampleRecorder = None \/
    audioBitsPerSecond sampleRecorder = Some 128000%Z) /\
   (Forall microphoneHasTrack [CallStart samplePage] ->
    (audioBitsPerSecond sampleRecorder = Some 128000%Z <->
     exists t, t ∈ stream sampleRecorder /\ kind t = audio)))
  /\ (exists r,
        recorders (Modern.run initialWorld [CallStart samplePageWithAudio]) !! 0
        = Some r /\
        audioBitsPerSecond r = Some 128000%Z /\
        exists t, t ∈ stream r /\ kind t = audio).
Proof.
  split.
  - exact (proj1 C8_encoder_configuration [CallStart samplePage] 0
             sampleRecorder eq_refl).
  - eexists. split; [reflexivity|].
    pose proof (proj1 C8_encoder_configuration [CallStart samplePageWithAudio] 0
                  _ eq_refl) as (_ & _ & _ & Hiff).
    assert (Hwf : Forall microphoneHasTrack [CallStart samplePageWithAudio]).
    { constructor; [|constructor]. cbn. lia. }
    split; [reflexivity|]. apply (proj1 (Hiff Hwf)). reflexivity.
Defined.

(** ** The legacy script *)

Lemma Legacy_onstop_saved r now w :
  recordedBlobs w <> [] ->
  downloads (Legacy.onstop r now None w)
  = downloads w ++ [(Legacy.downloadName now,
                     newBlob (recordedBlobs w) (mimeType r))].
Proof.
  intros Hne. unfold Legacy.onstop.
  destruct (recordedBlobs w) as [|b bs] eqn:E; [congruence|]. reflexivity.
Qed.

Lemma Legacy_step_downloads w e :
  downloads (Legacy.step w e) = downloads w \/
  exists now b, downloads (Legacy.step w e)
                = downloads w ++ [(Legacy.downloadName now, b)].
Proof.
  destruct e as [p| |rid data|rid now exn|rid err|i]; cbn [Legacy.step].
  - left. apply Legacy_startRecording_downloads.
  - left. unfold Legacy.stopRecording.
    destruct (mediaRecorder w) as [rid|]; [|reflexivity].
    destruct (recorders w !! rid) as [r|]; [|reflexivity].
    destruct (state r); try reflexivity.
    unfold downloads. cbn [log emit downloadsOf]. apply downloads_recorderStop.
  - left. destruct (recorders w !! rid) as [r|]; [|reflexivity].
    destruct (terminated r); [reflexivity|].
    unfold Legacy.ondataavailable. destruct data as [b|]; [|reflexivity].
    destruct (0 <? blobSize b)%nat; reflexivity.
  - destruct (recorders w !! rid) as [r|]; [|left; reflexivity].
    destruct (terminated r); [left; reflexivity|].
    unfold Legacy.onstop. rewrite recordedBlobs_retire.
    destruct (length (recordedBlobs w) =? 0)%nat;
      [|destruct exn as [err|]].
    + left. unfold downloads. cbn [log emit downloadsOf]. rewrite log_retire.
      reflexivity.
    + left. unfold downloads. cbn [log emit downloadsOf]. rewrite log_retire.
      reflexivity.
    + right. exists now, (newBlob (recordedBlobs w) (mimeType r)).
      unfold downloads. cbn [log emit setTimers downloadsOf].
      rewrite log_retire. reflexivity.
  - left. destruct (recorders w !! rid) as [r|]; [|reflexivity].
    destruct (terminated r); [reflexivity|].
    unfold downloads. rewrite log_inactivate. reflexivity.
  - left. destruct (timers w !! i) as [ts|]; [|reflexivity].
    unfold Legacy.ontimeout. rewrite downloads_stopAll. reflexivity.
Qed.

Lemma Legacy_run_snoc w evs e :
  Legacy.run w (evs ++ [e]) = Legacy.step (Legacy.run w evs) e.
Proof. unfold Legacy.run. rewrite fold_left_app. reflexivity. Qed.

(** C9. In the legacy script the download of every finalized session is
    named [shadertoy-recording_<timestamp>.mp4], whatever the MIME type of
    the recorder: also for the WebM profile, whose artifact keeps its WebM
    type tag. *)
Theorem C9_legacy_always_mp4 :
  (forall (w : World) (r : MediaRecorder) (now : Date),
     recordedBlobs w <> [] ->
     downloads (Legacy.onstop r now None w)
     = downloads w ++ [("shadertoy-recording_" +:+ timestamp now +:+ ".mp4",
                        newBlob (recordedBlobs w) (mimeType r))]) /\
  (forall (evs : list Event) (name : string) (artifact : Blob),
     (name, artifact) ∈ downloads (Legacy.run initialWorld evs) ->
     exists now, name = "shadertoy-recording_" +:+ timestamp now +:+ ".mp4") /\
  downloads (Legacy.run initialWorld
               [CallStart samplePage; FireData 0 (Some sampleChunk); CallStop;
                FireStop 0 sampleNow None])
  = [("shadertoy-recording_2024-01-15_09-30-45.mp4",
      {| blobData := blobData sampleChunk; blobType := "video/webm;codecs=h264" |})].
Proof.
  split; [intros w r now; apply Legacy_onstop_saved|]. split; [|reflexivity].
  induction evs as [|e evs IH] using rev_ind; intros name artifact.
  - cbn. intros H. inversion H.
  - rewrite Legacy_run_snoc.
    destruct (Legacy_step_downloads (Legacy.run initialWorld evs) e)
      as [-> | (now & b & ->)]; [apply IH|].
    intros [Hin | Hin%list_elem_of_singleton]%elem_of_app; [eapply IH, Hin|].
    injection Hin as -> _. exists now. reflexivity.
Qed.

Lemma C9_legacy_always_mp4_witness :
  exists now,
    "shadertoy-recording_2024-01-15_09-30-45.mp4"
    = "shadertoy-recording_" +:+ timestamp now +:+ ".mp4".
Proof.
  apply (proj1 (proj2 C9_legacy_always_mp4)
           [CallStart samplePage; FireData 0 (Some sampleChunk); CallStop;
            FireStop 0 sampleNow None]
           "shadertoy-recording_2024-01-15_09-30-45.mp4"
           {| blobData := blobData sampleChunk;
              blobType := "video/webm;codecs=h264" |}).
  vm_compute. left.
Defined.

(** ** Two further runs *)

(** After a successful save the tracks are stopped by the timeout. *)
Example Legacy_saved_recording_releases_on_timeout :
  let w := Legacy.run initialWorld
             [CallStart samplePage; FireData 0 (Some sampleChunk); CallStop;
              FireStop 0 sampleNow None] in
  stops sampleVideoTrack w = 0 /\
  stops sampleVideoTrack (Legacy.step w (FireTimer 0)) = 1.
Proof. repeat split. Qed.

(** A call that does not find the canvas returns before the reset: the
    chunks of an earlier session stay in [recordedBlobs], and no encoder
    is started. *)
Example Modern_start_without_canvas :
  let p := {| demogl := None; getUserMedia := Granted 1;
              isTypeSupported := webmOnly; constructorThrows := None |} in
  let w := setRecordedBlobs [sampleChunk] initialWorld in
  recordedBlobs (Modern.startRecording p w) = [sampleChunk] /\
  recorders (Modern.startRecording p w) = [] /\
  tracks (Modern.startRecording p w) = [].
Proof. repeat split. Qed.

(** * Further properties of the scripts *)

(** ** How one event changes the variables of the current script *)

Lemma mediaRecorder_recorderStop rid w :
  mediaRecorder (recorderStop rid w) = mediaRecorder w.
Proof. unfold recorderStop. destruct (recorders w !! rid); reflexivity. Qed.

Lemma timers_recorderStop rid w : timers (recorderStop rid w) = timers w.
Proof. unfold recorderStop. destruct (recorders w !! rid); reflexivity. Qed.

Lemma recordedBlobs_Modern_onstop r now exn w :
  recordedBlobs (Modern.onstop r now exn w) = recordedBlobs w.
Proof.
  unfold Modern.onstop. cbv zeta. cbn [recordedBlobs setMediaRecorder emit].
  rewrite recordedBlobs_stopAll.
  destruct (length _ =? 0)%nat; [|destruct exn]; reflexivity.
Qed.

Lemma recordedBlobs_Modern_stopRecording w :
  recordedBlobs (Modern.stopRecording w) = recordedBlobs w.
Proof.
  unfold Modern.stopRecording.
  destruct (mediaRecorder w) as [rid|]; [|reflexivity].
  destruct (recorders w !! rid) as [r|]; [|reflexivity].
  destruct (state r); cbn [recordedBlobs emit];
    rewrite ?recordedBlobs_recorderStop; reflexivity.
Qed.

Lemma mediaRecorder_Modern_stopRecording w :
  mediaRecorder (Modern.stopRecording w) = mediaRecorder w.
Proof.
  unfold Modern.stopRecording.
  destruct (mediaRecorder w) as [rid|] eqn:E; [|exact E].
  destruct (recorders w !! rid) as [r|]; [|exact E].
  destruct (state r); cbn [mediaRecorder emit];
    rewrite ?mediaRecorder_recorderStop; exact E.
Qed.

Lemma downloads_Modern_stopRecording w :
  downloads (Modern.stopRecording w) = downloads w.
Proof.
  unfold Modern.stopRecording.
  destruct (mediaRecorder w) as [rid|]; [|reflexivity].
  destruct (recorders w !! rid) as [r|]; [|reflexivity].
  destruct (state r); try reflexivity;
    unfold downloads; cbn [log emit downloadsOf]; apply downloads_recorderStop.
Qed.

(** Only the stop-completion callback of a live recorder that finds chunks
    and saves without an exception adds a download, and it adds one. *)
Lemma Modern_step_downloads w e :
  downloads (Modern.step w e) = downloads w \/
  exists rid r now,
    e = FireStop rid now None /\ recorders w !! rid = Some r /\
    terminated r = false /\ recordedBlobs w <> [] /\
    downloads (Modern.step w e)
    = downloads w ++ [(Modern.downloadName now (mimeType r),
                       newBlob (recordedBlobs w) (mimeType r))].
Proof.
  destruct e as [p| |rid data|rid now exn|rid err|i]; cbn [Modern.step].
  - left. destruct (modernStarts p) as [[nv m]|] eqn:Hst.
    + apply (Modern_startRecording_success p w nv m Hst).
    + apply (Modern_startRecording_failure p w Hst).
  - left. apply downloads_Modern_stopRecording.
  - left. destruct (recorders w !! rid) as [r|]; [|reflexivity].
    destruct (terminated r); [reflexivity|].
    unfold Modern.ondataavailable. destruct data as [b|]; [|reflexivity].
    destruct (0 <? blobSize b)%nat; reflexivity.
  - destruct (recorders w !! rid) as [r|] eqn:Hl; [|left; reflexivity].
    destruct (terminated r) eqn:Hlive; [left; reflexivity|].
    destruct (recordedBlobs w) as [|b bs] eqn:Hb.
    + left. rewrite (proj1 (Modern_onstop_unsaved r now exn (retire rid w)
               (or_introl (eq_trans (recordedBlobs_retire rid w) Hb)))).
      unfold downloads. rewrite log_retire. reflexivity.
    + destruct exn as [err|].
      * left. rewrite (proj1 (Modern_onstop_unsaved r now (Some err) (retire rid w)
                 (or_intror (fun H : Some err = None => eq_ind (Some err)
                    (fun o => match o with Some _ => True | None => False end)
                    I None H)))).
        unfold downloads. rewrite log_retire. reflexivity.
      * right. exists rid, r, now. rewrite <- Hb.
        split; [reflexivity|]. split; [exact Hl|]. split; [exact Hlive|].
        split; [rewrite Hb; discriminate|].
        rewrite Modern_onstop_saved
          by (rewrite recordedBlobs_retire, Hb; discriminate).
        rewrite recordedBlobs_retire. unfold downloads. rewrite log_retire.
        reflexivity.
  - left. destruct (recorders w !! rid) as [r|]; [|reflexivity].
    destruct (terminated r); [reflexivity|].
    unfold Modern.onerror, downloads. cbn [log setMediaRecorder emit].
    rewrite log_stopAll. cbn [downloadsOf]. rewrite downloadsOf_stops.
    cbn [log emit downloadsOf]. rewrite log_inactivate. reflexivity.
  - left. destruct (timers w !! i); reflexivity.
Qed.

(** The chunk sequence is reset, kept, or extended by one chunk of
    non-zero size. *)
Lemma Modern_step_recordedBlobs w e :
  recordedBlobs (Modern.step w e) = [] \/
  recordedBlobs (Modern.step w e) = recordedBlobs w \/
  exists b, nonEmptyChunk b = true /\
            recordedBlobs (Modern.step w e) = recordedBlobs w ++ [b].
Proof.
  destruct e as [p| |rid data|rid now exn|rid err|i]; cbn [Modern.step].
  - destruct (demogl p) as [nv|] eqn:Hc.
    + left. apply Modern_startRecording_resets. congruence.
    + right. left. unfold Modern.startRecording. rewrite Hc. reflexivity.
  - right. left. apply recordedBlobs_Modern_stopRecording.
  - destruct (recorders w !! rid) as [r|]; [|auto].
    destruct (terminated r); [auto|].
    unfold Modern.ondataavailable. destruct data as [b|]; [|auto].
    destruct (0 <? blobSize b)%nat eqn:E; [|auto].
    right. right. exists b. split; [exact E | reflexivity].
  - right. left. destruct (recorders w !! rid) as [r|]; [|reflexivity].
    destruct (terminated r); [reflexivity|].
    rewrite recordedBlobs_Modern_onstop. apply recordedBlobs_retire.
  - right. left. destruct (recorders w !! rid) as [r|]; [|reflexivity].
    destruct (terminated r); [reflexivity|].
    unfold Modern.onerror. cbn [recordedBlobs setMediaRecorder emit].
    rewrite recordedBlobs_stopAll. cbn [recordedBlobs emit].
    apply recordedBlobs_inactivate.
  - right. left. destruct (timers w !! i); reflexivity.
Qed.

(** ** Every download is a well-formed artifact *)

Lemma newBlob_nonEmpty bs m :
  bs <> [] -> (forall b, b ∈ bs -> blobSize b <> 0) ->
  blobData (newBlob bs m) <> [].
Proof.
  intros Hne Hall. destruct bs as [|b bs]; [congruence|].
  cbn. intros Happ. apply app_eq_nil in Happ as [Hb _].
  apply (Hall b); [left|]. unfold blobSize. rewrite Hb. reflexivity.
Qed.

Lemma Modern_chunks_nonEmpty evs b :
  b ∈ recordedBlobs (Modern.run initialWorld evs) -> blobSize b <> 0.
Proof.
  revert b. induction evs as [|e evs IH] using rev_ind; intros b.
  - cbn. intros H. inversion H.
  - rewrite Modern_run_snoc.
    destruct (Modern_step_recordedBlobs (Modern.run initialWorld evs) e)
      as [-> | [-> | (b' & Hb' & ->)]].
    + intros H. inversion H.
    + apply IH.
    + intros [Hin | ->%list_elem_of_singleton]%elem_of_app; [apply IH, Hin|].
      unfold nonEmptyChunk in Hb'. apply Nat.ltb_lt in Hb'. lia.
Qed.

(** X1. Whatever the sequence of calls and callbacks, every file the
    current script has downloaded has at least one byte, is tagged with
    the ASCII-lowercase form of one of the six candidate MIME types (the
    form in which the [Blob] constructor stores it), and is named by
    [downloadName] from that candidate: the extension is [.webm] exactly
    when the candidate, and equally the tag, starts with [video/webm]. *)
Theorem Modern_downloads_wellformed (evs : list Event) (name : string)
    (artifact : Blob) :
  (name, artifact) ∈ downloads (Modern.run initialWorld evs) ->
  blobData artifact <> [] /\
  exists m now,
    In m Modern.mimeTypes /\
    blobType artifact = asciiLowercase m /\
    name = Modern.downloadName now m /\
    name = Modern.downloadName now (blobType artifact).
Proof.
  revert name artifact.
  induction evs as [|e evs IH] using rev_ind; intros name artifact.
  - cbn. intros H. inversion H.
  - rewrite Modern_run_snoc.
    destruct (Modern_step_downloads (Modern.run initialWorld evs) e)
      as [-> | (rid & r & now & _ & Hl & _ & Hne & ->)]; [apply IH|].
    intros [Hin | Hin%list_elem_of_singleton]%elem_of_app; [apply IH, Hin|].
    injection Hin as -> ->. cbn [blobType newBlob].
    pose proof (Modern_recorder_mime evs rid r Hl) as Hm.
    split.
    + apply newBlob_nonEmpty; [exact Hne|].
      intros b. apply Modern_chunks_nonEmpty.
    + exists (mimeType r), now. rewrite (Modern_blobTypeOf _ Hm).
      split; [exact Hm|]. split; [reflexivity|]. split; [reflexivity|].
      symmetry. apply Modern_downloadName_lowercase, Hm.
Qed.

Lemma Modern_downloads_wellformed_witness :
  blobData {| blobData := blobData sampleChunk;
              blobType := mimeType sampleRecorder |} <> [] /\
  exists m now,
    In m Modern.mimeTypes /\
    mimeType sampleRecorder = asciiLowercase m /\
    "shadertoy-recording_2024-01-15_09-30-45.webm" = Modern.downloadName now m /\
    "shadertoy-recording_2024-01-15_09-30-45.webm"
    = Modern.downloadName now (mimeType sampleRecorder).
Proof.
  apply (Modern_downloads_wellformed
           [CallStart samplePage; FireData 0 (Some sampleChunk);
            FireData 0 (Some emptyChunk); CallStop; FireStop 0 sampleNow None]
           "shadertoy-recording_2024-01-15_09-30-45.webm"
           {| blobData := blobData sampleChunk;
              blobType := mimeType sampleRecorder |}).
  vm_compute. left.
Defined.

(** On a browser that supports the first candidate the tag of the
    artifact is not the candidate itself: the codec string is stored in
    lowercase. *)
Example Modern_first_candidate_tag :
  let p := {| demogl := Some 1; getUserMedia := Rejected "denied";
              isTypeSupported := fun _ => true; constructorThrows := None |} in
  downloads (Modern.run initialWorld
               [CallStart p; FireData 0 (Some sampleChunk); CallStop;
                FireStop 0 sampleNow None])
  = [("shadertoy-recording_2024-01-15_09-30-45.mp4",
      {| blobData := blobData sampleChunk;
         blobType := "video/mp4; codecs=" +:+ Modern.dq
                       +:+ "avc1.42e01e, mp4a.40.2" +:+ Modern.dq |})].
Proof. vm_compute. reflexivity. Qed.

(** ** Downloads and completed stops *)

Lemma finished_insert (l : list MediaRecorder) (i : nat) (x y : MediaRecorder) :
  l !! i = Some x ->
  length (List.filter terminated (<[i := y]> l))
    + (if terminated x then 1 else 0)
  = length (List.filter terminated l) + (if terminated y then 1 else 0).
Proof.
  revert i. induction l as [|z l IH]; intros i Hl; [discriminate|].
  destruct i as [|i]; cbn in Hl |- *.
  - clear IH. injection Hl as ->.
    destruct (terminated x), (terminated y); cbn;
      rewrite ?Nat.add_0_r, ?Nat.add_1_r; reflexivity.
  - specialize (IH i Hl). destruct (terminated z); cbn;
      [f_equal|]; exact IH.
Qed.

Lemma finished_retire rid w r :
  recorders w !! rid = Some r -> terminated r = false ->
  finished (retire rid w) = S (finished w).
Proof.
  intros Hl Hlive. unfold finished, retire. rewrite Hl. cbn [recorders setRecorders].
  pose proof (finished_insert (recorders w) rid r (withState inactive true r) Hl) as H.
  rewrite Hlive in H. cbn in H. lia.
Qed.

Lemma finished_recorderStop rid w : finished (recorderStop rid w) = finished w.
Proof.
  unfold finished, recorderStop.
  destruct (recorders w !! rid) as [r|] eqn:Hl; [|reflexivity].
  cbn [recorders setRecorders emit].
  pose proof (finished_insert (recorders w) rid r
                (withState inactive (terminated r) r) Hl) as H.
  cbn [terminated withState] in H. lia.
Qed.

Lemma finished_inactivate rid w : finished (inactivate rid w) = finished w.
Proof.
  unfold finished, inactivate.
  destruct (recorders w !! rid) as [r|] eqn:Hl; [|reflexivity].
  cbn [recorders setRecorders].
  pose proof (finished_insert (recorders w) rid r
                (withState inactive (terminated r) r) Hl) as H.
  cbn [terminated withState] in H. lia.
Qed.

Lemma Modern_step_finished w e :
  finished w <= finished (Modern.step w e) /\
  (forall rid r now exn,
     e = FireStop rid now exn -> recorders w !! rid = Some r ->
     terminated r = false -> finished (Modern.step w e) = S (finished w)).
Proof.
  destruct e as [p| |rid data|rid now exn|rid err|i]; cbn [Modern.step];
    (split; [|try (intros; discriminate)]).
  - unfold finished. destruct (modernStarts p) as [[nv m]|] eqn:Hst.
    + destruct (Modern_startRecording_success p w nv m Hst) as (-> & _).
      rewrite List.filter_app, length_app. lia.
    + destruct (Modern_startRecording_failure p w Hst) as (-> & _). lia.
  - unfold Modern.stopRecording.
    destruct (mediaRecorder w) as [rid|]; [|reflexivity].
    destruct (recorders w !! rid) as [r|]; [|reflexivity].
    destruct (state r); try reflexivity;
      unfold finished at 2; cbn [recorders emit];
      fold (finished (recorderStop rid w)); rewrite finished_recorderStop; lia.
  - destruct (recorders w !! rid) as [r|]; [|reflexivity].
    destruct (terminated r); [reflexivity|].
    unfold Modern.ondataavailable. destruct data as [b|]; [|reflexivity].
    destruct (0 <? blobSize b)%nat; reflexivity.
  - destruct (recorders w !! rid) as [r|] eqn:Hl; [|reflexivity].
    destruct (terminated r) eqn:Hlive; [reflexivity|].
    unfold finished at 2. rewrite recorders_Modern_onstop.
    fold (finished (retire rid w)). rewrite (finished_retire rid w r Hl Hlive). lia.
  - intros rid' r now' exn' [= -> -> ->] Hl Hlive. rewrite Hl, Hlive.
    unfold finished at 1. rewrite recorders_Modern_onstop.
    fold (finished (retire rid' w)). apply (finished_retire rid' w r Hl Hlive).
  - destruct (recorders w !! rid) as [r|] eqn:Hl; [|reflexivity].
    destruct (terminated r) eqn:Hlive; [reflexivity|].
    unfold finished at 2. rewrite recorders_Modern_onerror.
    fold (finished (inactivate rid w)). rewrite finished_inactivate. lia.
  - destruct (timers w !! i); reflexivity.
Qed.

(** X2. In every reachable state of the current script the number of
    downloads is at most the number of recorders whose [stop] event has
    been delivered, which is at most the number of recorders created. *)
Theorem Modern_downloads_bounded_by_stops (evs : list Event) :
  length (downloads (Modern.run initialWorld evs))
  <= finished (Modern.run initialWorld evs)
  <= length (recorders (Modern.run initialWorld evs)).
Proof.
  split; [|unfold finished; apply List.filter_length_le].
  induction evs as [|e evs IH] using rev_ind; [reflexivity|].
  rewrite Modern_run_snoc.
  destruct (Modern_step_finished (Modern.run initialWorld evs) e) as [Hmono Hstop].
  destruct (Modern_step_downloads (Modern.run initialWorld evs) e)
    as [-> | (rid & r & now & He & Hl & Hlive & _ & ->)]; [lia|].
  rewrite (Hstop rid r now None He Hl Hlive), length_app. cbn. lia.
Qed.

(** ** The recorder named by [mediaRecorder], and the stop signal *)

Lemma stopSignals_app rid l1 l2 :
  stopSignals rid (l1 ++ l2) = stopSignals rid l1 + stopSignals rid l2.
Proof.
  induction l1 as [|e l1 IH]; [reflexivity|].
  destruct e; cbn; rewrite IH; lia.
Qed.

Lemma stopSignals_stops rid ts : stopSignals rid (rev (map TrackStop ts)) = 0.
Proof.
  induction ts as [|t ts IH]; [reflexivity|].
  cbn. rewrite stopSignals_app, IH. reflexivity.
Qed.

Lemma stopSignals_stopAll rid ts w :
  stopSignals rid (log (stopAll ts w)) = stopSignals rid (log w).
Proof. rewrite log_stopAll, stopSignals_app, stopSignals_stops. reflexivity. Qed.

Lemma stopSignals_Modern_startRecording rid p w :
  stopSignals rid (log (Modern.startRecording p w)) = stopSignals rid (log w).
Proof.
  unfold Modern.startRecording.
  destruct (demogl p) as [nv|]; [|reflexivity].
  destruct (getUserMedia p) as [msg|na]; cbv beta iota zeta;
    (destruct (_ =? 0)%nat;
     [|destruct (find _ _) as [m|]; [destruct (constructorThrows p)|]]);
    rewrite ?stopSignals_stopAll; try reflexivity;
    unfold recorderStart; cbn [recorders setMediaRecorder setRecorders emit];
    rewrite lookup_snoc_new; reflexivity.
Qed.

Lemma stopSignals_Modern_onstop rid r now exn w :
  stopSignals rid (log (Modern.onstop r now exn w)) = stopSignals rid (log w).
Proof.
  unfold Modern.onstop. cbv zeta. cbn [log setMediaRecorder emit stopSignals].
  rewrite stopSignals_stopAll.
  destruct (length _ =? 0)%nat; [|destruct exn]; reflexivity.
Qed.

Lemma stopSignals_Modern_onerror rid r err w :
  stopSignals rid (log (Modern.onerror r err w)) = stopSignals rid (log w).
Proof.
  unfold Modern.onerror. cbv zeta. cbn [log setMediaRecorder emit stopSignals].
  rewrite stopSignals_stopAll. reflexivity.
Qed.

Lemma lookup_Modern_startRecording p w rid r :
  recorders w !! rid = Some r ->
  recorders (Modern.startRecording p w) !! rid = Some r.
Proof.
  intros Hl. destruct (modernStarts p) as [[nv m]|] eqn:Hst.
  - destruct (Modern_startRecording_success p w nv m Hst) as (-> & _).
    apply lookup_app_Some. left. exact Hl.
  - destruct (Modern_startRecording_failure p w Hst) as (-> & _). exact Hl.
Qed.

(** What the heap cell of a recorder can become in one step. *)
Lemma lookup_retire rid w j rj :
  recorders (retire rid w) !! j = Some rj ->
  recorders w !! j = Some rj \/
  (j = rid /\ state rj = inactive /\ terminated rj = true).
Proof.
  unfold retire. destruct (recorders w !! rid) as [r|] eqn:Hl; [|auto].
  cbn. intros [(<- & <- & _) | [_ Hlj]]%list_lookup_insert_Some; auto.
Qed.

Lemma lookup_inactivate rid w j rj :
  recorders (inactivate rid w) !! j = Some rj ->
  recorders w !! j = Some rj \/ (j = rid /\ state rj = inactive).
Proof.
  unfold inactivate. destruct (recorders w !! rid) as [r|] eqn:Hl; [|auto].
  cbn. intros [(<- & <- & _) | [_ Hlj]]%list_lookup_insert_Some; auto.
Qed.

Lemma lookup_recorderStop rid w j rj :
  recorders (recorderStop rid w) !! j = Some rj ->
  recorders w !! j = Some rj \/
  (j = rid /\ state rj = inactive /\
   exists r, recorders w !! rid = Some r /\ terminated rj = terminated r).
Proof.
  unfold recorderStop. destruct (recorders w !! rid) as [r|] eqn:Hl; [|auto].
  cbn. intros [(<- & <- & _) | [_ Hlj]]%list_lookup_insert_Some; [|auto].
  right. split; [reflexivity|]. split; [reflexivity|]. exists r. auto.
Qed.

Lemma Modern_discipline (evs : list Event) :
  let w := Modern.run initialWorld evs in
  (forall rid, mediaRecorder w = Some rid ->
     exists r, recorders w !! rid = Some r /\ terminated r = false) /\
  (forall rid r, recorders w !! rid = Some r ->
     state r = recording \/ state r = inactive) /\
  (forall rid, stopSignals rid (log w) <= 1) /\
  (forall rid, stopSignals rid (log w) <> 0 ->
     exists r, recorders w !! rid = Some r /\ state r = inactive).
Proof.
  induction evs as [|e evs IH] using rev_ind.
  - cbn. repeat split; try discriminate; try lia.
  - rewrite Modern_run_snoc. cbv zeta in IH.
    set (w := Modern.run initialWorld evs) in *.
    destruct IH as (Hcur & Hst & Hsig & Hsd).
    destruct e as [p| |rid0 data|rid0 now exn|rid0 err|i]; cbn [Modern.step].
    + (* startRecording *)
      split; [|split; [|split]].
      * intros rid. destruct (modernStarts p) as [[nv m]|] eqn:Hs.
        -- destruct (Modern_startRecording_success p w nv m Hs) as (-> & -> & _).
           intros [= <-]. exists (modernRecorder p nv m w).
           split; [apply lookup_snoc_new|].
           unfold modernRecorder. destruct (getUserMedia p); reflexivity.
        -- destruct (Modern_startRecording_failure p w Hs) as (-> & -> & _).
           apply Hcur.
      * intros rid r. destruct (modernStarts p) as [[nv m]|] eqn:Hs.
        -- destruct (Modern_startRecording_success p w nv m Hs) as (-> & _).
           intros [Hl | [_ [_ <-]%list_lookup_singleton_Some]]%lookup_app_Some.
           ++ apply (Hst rid r Hl).
           ++ left. unfold modernRecorder. destruct (getUserMedia p); reflexivity.
        -- destruct (Modern_startRecording_failure p w Hs) as (-> & _).
           apply Hst.
      * intros rid. rewrite stopSignals_Modern_startRecording. apply Hsig.
      * intros rid. rewrite stopSignals_Modern_startRecording.
        intros (r & Hl & Hin)%Hsd. exists r.
        split; [apply lookup_Modern_startRecording, Hl | exact Hin].
    + (* stopRecording *)
      unfold Modern.stopRecording.
      destruct (mediaRecorder w) as [rid0|] eqn:Hm;
        [|cbn [mediaRecorder recorders log emit stopSignals];
          rewrite ?Hm; auto].
      destruct (recorders w !! rid0) as [r0|] eqn:Hl0;
        [|cbn [mediaRecorder recorders log emit stopSignals];
          rewrite ?Hm; auto].
      assert (Hact : state r0 <> inactive ->
        let w' := emit (ConsoleLog "Stop recording signal sent to MediaRecorder.")
                    (recorderStop rid0 w) in
        (forall rid, mediaRecorder w' = Some rid ->
           exists r, recorders w' !! rid = Some r /\ terminated r = false) /\
        (forall rid r, recorders w' !! rid = Some r ->
           state r = recording \/ state r = inactive) /\
        (forall rid, stopSignals rid (log w') <= 1) /\
        (forall rid, stopSignals rid (log w') <> 0 ->
           exists r, recorders w' !! rid = Some r /\ state r = inactive)).
      { intros Hne w'.
        assert (H0 : stopSignals rid0 (log w) = 0).
        { destruct (stopSignals rid0 (log w)) eqn:E; [reflexivity|].
          exfalso. destruct (Hsd rid0) as (r & Hl & Hin); [lia|]. congruence. }
        assert (Hlog : forall rid, stopSignals rid (log w')
                  = (if decide (rid0 = rid) then 1 else 0) + stopSignals rid (log w)).
        { intros rid. subst w'. unfold recorderStop. rewrite Hl0. reflexivity. }
        split; [|split; [|split]].
        - intros rid. subst w'. cbn [mediaRecorder emit].
          rewrite mediaRecorder_recorderStop, Hm. intros (r & Hl & Hlive)%Hcur.
          destruct (recorderStop_keeps_live rid0 w rid r Hl Hlive)
            as (r' & Hl' & Hlive' & _). exists r'. auto.
        - intros rid r [Hl | (_ & Hin & _)]%lookup_recorderStop; [|auto].
          apply (Hst rid r Hl).
        - intros rid. rewrite Hlog. destruct (decide (rid0 = rid)) as [<-|].
          + rewrite H0. lia.
          + apply Hsig.
        - intros rid. rewrite Hlog. destruct (decide (rid0 = rid)) as [<-|Hne'].
          + intros _. exists (withState inactive (terminated r0) r0).
            split; [|reflexivity]. subst w'. unfold recorderStop. rewrite Hl0. cbn.
            apply list_lookup_insert_Some. left. split; [reflexivity|].
            split; [reflexivity|]. eapply lookup_lt_Some. eassumption.
          + intros (r & Hl & Hin)%Hsd. exists r. split; [|exact Hin].
            subst w'. unfold recorderStop. rewrite Hl0. cbn.
            apply list_lookup_insert_Some. right. auto. }
      destruct (state r0) eqn:Hs0;
        [cbn [mediaRecorder recorders log emit stopSignals]; rewrite ?Hm; auto
        | apply Hact; discriminate | apply Hact; discriminate].
    + (* dataavailable *)
      destruct (recorders w !! rid0) as [r0|]; [|auto].
      destruct (terminated r0); [auto|].
      unfold Modern.ondataavailable. destruct data as [b|]; [|auto].
      destruct (0 <? blobSize b)%nat; auto.
    + (* stop *)
      destruct (recorders w !! rid0) as [r0|] eqn:Hl0; [|auto].
      destruct (terminated r0) eqn:Hlive0; [auto|].
      split; [|split; [|split]].
      * intros rid. discriminate.
      * intros rid r. rewrite recorders_Modern_onstop.
        intros [Hl | (_ & Hin & _)]%lookup_retire; [apply (Hst rid r Hl) | auto].
      * intros rid. rewrite stopSignals_Modern_onstop, log_retire. apply Hsig.
      * intros rid. rewrite stopSignals_Modern_onstop, log_retire,
          recorders_Modern_onstop.
        intros (r & Hl & Hin)%Hsd. destruct (decide (rid = rid0)) as [->|Hne].
        -- exists (withState inactive true r0). split; [|reflexivity].
           apply recorders_retire_live, Hl0.
        -- exists r. split; [|exact Hin]. unfold retire. rewrite Hl0. cbn.
           apply list_lookup_insert_Some. right. auto.
    + (* error *)
      destruct (recorders w !! rid0) as [r0|] eqn:Hl0; [|auto].
      destruct (terminated r0) eqn:Hlive0; [auto|].
      split; [|split; [|split]].
      * intros rid. discriminate.
      * intros rid r. rewrite recorders_Modern_onerror.
        intros [Hl | (_ & Hin)]%lookup_inactivate; [apply (Hst rid r Hl) | auto].
      * intros rid. rewrite stopSignals_Modern_onerror, log_inactivate. apply Hsig.
      * intros rid. rewrite stopSignals_Modern_onerror, log_inactivate,
          recorders_Modern_onerror.
        intros (r & Hl & Hin)%Hsd. destruct (decide (rid = rid0)) as [->|Hne].
        -- exists (withState inactive (terminated r0) r0). split; [|reflexivity].
           apply recorders_inactivate_live, Hl0.
        -- exists r. split; [|exact Hin]. unfold inactivate. rewrite Hl0. cbn.
           apply list_lookup_insert_Some. right. auto.
    + (* timeout *)
      destruct (timers w !! i); auto.
Qed.

(** X3. [mediaRecorder] is either null or names a recorder that has not
    delivered its [stop] event: the callbacks clear the variable before
    a finished recorder could be reached through it. *)
Theorem Modern_mediaRecorder_names_running_session (evs : list Event) (rid : nat) :
  mediaRecorder (Modern.run initialWorld evs) = Some rid ->
  exists r, recorders (Modern.run initialWorld evs) !! rid = Some r /\
            terminated r = false /\
            (state r = recording \/ state r = inactive).
Proof.
  intros Hm. destruct (Modern_discipline evs) as (Hcur & Hst & _).
  destruct (Hcur rid Hm) as (r & Hl & Hlive).
  exists r. split; [exact Hl|]. split; [exact Hlive | apply (Hst rid r Hl)].
Qed.

Lemma Modern_mediaRecorder_names_running_session_witness :
  exists r,
    recorders (Modern.run initialWorld [CallStart samplePage; CallStop]) !! 0
    = Some r /\ terminated r = false /\
    (state r = recording \/ state r = inactive).
Proof.
  apply (Modern_mediaRecorder_names_running_session
           [CallStart samplePage; CallStop] 0).
  reflexivity.
Defined.

(** X4. Over any sequence of calls and callbacks the script calls
    [stop()] on each recorder at most once, never on a recorder that is
    still marked [recording] without changing that mark, and no recorder
    is ever [paused]. *)
Theorem Modern_stop_signal_at_most_once (evs : list Event) (rid : nat) :
  let w := Modern.run initialWorld evs in
  stopSignals rid (log w) <= 1 /\
  (forall r, recorders w !! rid = Some r -> state r = recording ->
             stopSignals rid (log w) = 0) /\
  (forall r, recorders w !! rid = Some r -> state r <> paused).
Proof.
  intros w. destruct (Modern_discipline evs) as (_ & Hst & Hsig & Hsd).
  fold w in Hst, Hsig, Hsd.
  split; [apply Hsig|]. split.
  - intros r Hl Hrec. destruct (stopSignals rid (log w)) eqn:E; [reflexivity|].
    exfalso. destruct (Hsd rid) as (r' & Hl' & Hin); [lia|]. congruence.
  - intros r Hl Hp. destruct (Hst rid r Hl); congruence.
Qed.

Lemma Modern_stop_signal_at_most_once_witness :
  stopSignals 0
    (log (Modern.run initialWorld
            [CallStart samplePage; CallStop; CallStop; CallStop])) <= 1
  /\ stopSignals 0 (log (Modern.run initialWorld [CallStart samplePage])) = 0.
Proof.
  split.
  - apply (Modern_stop_signal_at_most_once
             [CallStart samplePage; CallStop; CallStop; CallStop] 0).
  - apply (proj1 (proj2 (Modern_stop_signal_at_most_once [CallStart samplePage] 0))
             sampleRecorder); reflexivity.
Defined.

(** ** Two stop requests in a row *)

Lemma Modern_stopRecording_idle w :
  (mediaRecorder w = None \/
   exists rid, mediaRecorder w = Some rid /\
     (recorders w !! rid = None \/
      exists r, recorders w !! rid = Some r /\ state r = inactive)) ->
  Modern.stopRecording w = emit (ConsoleWarn Modern.notActiveWarning) w.
Proof.
  unfold Modern.stopRecording.
  intros [-> | (rid & -> & [-> | (r & -> & ->)])]; reflexivity.
Qed.

(** X5. For every page state, a second [stopRecording] right after a
    first only adds the warning: the first call has either sent the stop
    signal, which leaves the recorder [inactive], or found nothing to
    stop. *)
Theorem Modern_stopRecording_twice (w : World) :
  Modern.stopRecording (Modern.stopRecording w)
  = emit (ConsoleWarn Modern.notActiveWarning) (Modern.stopRecording w).
Proof.
  apply Modern_stopRecording_idle.
  rewrite mediaRecorder_Modern_stopRecording.
  destruct (mediaRecorder w) as [rid|] eqn:Hm; [|left; reflexivity].
  right. exists rid. split; [reflexivity|].
  unfold Modern.stopRecording. rewrite Hm.
  destruct (recorders w !! rid) as [r|] eqn:Hl; [|left; exact Hl].
  right. destruct (state r) eqn:Hs.
  - exists r. split; [exact Hl | exact Hs].
  - exists (withState inactive (terminated r) r). split; [|reflexivity].
    unfold recorderStop. rewrite Hl. cbn.
    apply list_lookup_insert_Some. left. split; [reflexivity|].
    split; [reflexivity|]. eapply lookup_lt_Some. eassumption.
  - exists (withState inactive (terminated r) r). split; [|reflexivity].
    unfold recorderStop. rewrite Hl. cbn.
    apply list_lookup_insert_Some. left. split; [reflexivity|].
    split; [reflexivity|]. eapply lookup_lt_Some. eassumption.
Qed.

(** ** When [startRecording] starts a recorder *)

Lemma modernStarts_iff p :
  (exists nv m, modernStarts p = Some (nv, m)) <->
  (exists nv, demogl p = Some nv /\ nv + audioCount p <> 0) /\
  (exists m, In m Modern.mimeTypes /\ isTypeSupported p m = true) /\
  constructorThrows p = None.
Proof.
  split.
  - intros (nv & m & (Hc & Hf & Hctor & Hn)%modernStarts_find).
    split; [exists nv; auto|]. split; [|exact Hctor].
    exists m. apply find_some in Hf. exact Hf.
  - intros ((nv & Hc & Hn) & (m & Hin & Hm) & Hctor).
    unfold modernStarts. rewrite Hc, Hctor.
    destruct (nv + audioCount p =? 0)%nat eqn:E;
      [apply Nat.eqb_eq in E; contradiction|].
    destruct (find (isTypeSupported p) Modern.mimeTypes) as [m'|] eqn:Hf.
    + exists nv, m'. reflexivity.
    + exfalso. pose proof (find_none _ _ Hf m Hin) as H. congruence.
Qed.

(** X6. [startRecording] of the current script starts a recorder exactly
    when the canvas exists, at least one track was obtained from canvas or
    microphone, some candidate MIME type is supported and the
    [MediaRecorder] constructor returns; in every other case the recorder
    heap, [mediaRecorder], the pending timeouts and the downloads are left
    as they were. *)
Theorem Modern_start_succeeds_iff (p : Page) (w : World) :
  let w' := Modern.startRecording p w in
  let ready :=
    (exists nv, demogl p = Some nv /\ nv + audioCount p <> 0) /\
    (exists m, In m Modern.mimeTypes /\ isTypeSupported p m = true) /\
    constructorThrows p = None in
  ((exists r, recorders w' = recorders w ++ [r] /\ state r = recording /\
              terminated r = false /\
              mediaRecorder w' = Some (length (recorders w))) <-> ready) /\
  (~ ready ->
   recorders w' = recorders w /\ mediaRecorder w' = mediaRecorder w /\
   timers w' = timers w /\ downloads w' = downloads w).
Proof.
  intros w' ready. split; [split|].
  - intros (r & Hr & _). apply modernStarts_iff.
    destruct (modernStarts p) as [[nv m]|] eqn:Hst; [eauto|].
    destruct (Modern_startRecording_failure p w Hst) as (Hsame & _).
    fold w' in Hsame. rewrite Hsame in Hr.
    apply (f_equal length) in Hr. rewrite length_app in Hr. cbn in Hr. lia.
  - intros (nv & m & Hst)%modernStarts_iff.
    destruct (Modern_startRecording_success p w nv m Hst) as (Hr & Hm & _).
    exists (modernRecorder p nv m w). split; [exact Hr|].
    split; [|split; [|exact Hm]];
      unfold modernRecorder; destruct (getUserMedia p); reflexivity.
  - intros Hnot. apply Modern_startRecording_failure.
    destruct (modernStarts p) as [[nv m]|] eqn:Hst; [|reflexivity].
    exfalso. apply Hnot, modernStarts_iff. eauto.
Qed.

Lemma Modern_start_succeeds_iff_witness :
  exists r,
    recorders (Modern.startRecording samplePage initialWorld) = [] ++ [r] /\
    state r = recording /\ terminated r = false /\
    mediaRecorder (Modern.startRecording samplePage initialWorld) = Some 0.
Proof.
  apply (proj2 (proj1 (Modern_start_succeeds_iff samplePage initialWorld))).
  split; [exists 1; split; [reflexivity | discriminate]|].
  split; [|reflexivity].
  exists "video/webm". split; [|reflexivity]. cbn. auto 10.
Defined.

(** ** Sessions that end without an artifact *)

Lemma recordedBlobs_Modern_onerror r err w :
  recordedBlobs (Modern.onerror r err w) = recordedBlobs w.
Proof.
  unfold Modern.onerror. cbn [recordedBlobs setMediaRecorder emit].
  rewrite recordedBlobs_stopAll. reflexivity.
Qed.

Lemma downloads_Modern_onerror r err w :
  downloads (Modern.onerror r err w) = downloads w.
Proof.
  unfold Modern.onerror, downloads. cbn [log setMediaRecorder emit downloadsOf].
  rewrite log_stopAll, downloadsOf_stops. reflexivity.
Qed.

(** [ondataavailable] reads nothing but [recordedBlobs]. *)
Lemma recordedBlobs_Modern_ondataavailable data w w0 :
  recordedBlobs w = recordedBlobs w0 ->
  recordedBlobs (Modern.ondataavailable data w)
  = recordedBlobs (Modern.ondataavailable data w0).
Proof.
  intros E. unfold Modern.ondataavailable. destruct data as [b|]; [|exact E].
  destruct (0 <? blobSize b)%nat; [|exact E].
  cbn [recordedBlobs setRecordedBlobs]. rewrite E. reflexivity.
Qed.

Lemma Modern_ondataavailable_keeps data w :
  recordedBlobs w <> [] -> recordedBlobs (Modern.ondataavailable data w) <> [].
Proof.
  intros Hne. unfold Modern.ondataavailable. destruct data as [b|]; [|exact Hne].
  destruct (0 <? blobSize b)%nat; [|exact Hne].
  cbn [recordedBlobs setRecordedBlobs]. intros [H _]%app_eq_nil. congruence.
Qed.

(** X7. An encoder fault on a running recorder: [onerror] reports it on
    the console and by an alert, stops the tracks of that recorder and
    clears [mediaRecorder]; it downloads nothing, schedules no timeout and
    keeps the chunks in [recordedBlobs], and a following [stopRecording]
    only prints its warning.  The recorder is left inactive with its
    [stop] event still to come: when the runtime then delivers the final
    [dataavailable] and [stop], [onstop] saves the chunks recorded up to
    the fault, so the error path ends with a download after all. *)
Theorem Modern_encoder_fault_outcome (w : World) (rid : nat) (r : MediaRecorder)
    (err : string) (data : option Blob) (now : Date) :
  recorders w !! rid = Some r -> terminated r = false ->
  let w' := Modern.step w (FireError rid err) in
  let w'' := Modern.run w' [FireData rid data; FireStop rid now None] in
  log w' = ConsoleLog "All tracks stopped (MediaRecorder error)."
             :: rev (map TrackStop (stream r))
             ++ Alert "MediaRecorder error. Recording cannot continue. Check console for details."
             :: ConsoleError ("MediaRecorder error: " +:+ err) :: log w /\
  downloads w' = downloads w /\ timers w' = timers w /\
  recordedBlobs w' = recordedBlobs w /\ mediaRecorder w' = None /\
  recorders w' !! rid = Some (withState inactive false r) /\
  Modern.stopRecording w' = emit (ConsoleWarn Modern.notActiveWarning) w' /\
  (recordedBlobs w <> [] ->
   downloads w''
   = downloads w ++ [(Modern.downloadName now (mimeType r),
                      newBlob (recordedBlobs (Modern.ondataavailable data w))
                        (mimeType r))]).
Proof.
  intros Hl Hlive w' w''.
  assert (Hstep : w' = Modern.onerror r err (inactivate rid w)).
  { subst w'. cbn [Modern.step]. rewrite Hl, Hlive. reflexivity. }
  assert (Hlog : log w' = ConsoleLog "All tracks stopped (MediaRecorder error)."
             :: rev (map TrackStop (stream r))
             ++ Alert "MediaRecorder error. Recording cannot continue. Check console for details."
             :: ConsoleError ("MediaRecorder error: " +:+ err) :: log w).
  { rewrite Hstep. unfold Modern.onerror. cbv zeta.
    cbn [log setMediaRecorder emit]. rewrite log_stopAll. cbn [log emit].
    rewrite log_inactivate. reflexivity. }
  assert (Hblobs : recordedBlobs w' = recordedBlobs w).
  { rewrite Hstep, recordedBlobs_Modern_onerror. apply recordedBlobs_inactivate. }
  assert (Hdown : downloads w' = downloads w).
  { unfold downloads. rewrite Hlog. cbn [downloadsOf].
    rewrite downloadsOf_stops. reflexivity. }
  split; [exact Hlog|]. split; [exact Hdown|].
  split; [|split; [exact Hblobs|split; [|split; [|split]]]].
  - rewrite Hstep. unfold Modern.onerror. cbn [timers setMediaRecorder emit].
    rewrite timers_stopAll. cbn [timers emit]. apply timers_inactivate.
  - rewrite Hstep. reflexivity.
  - rewrite Hstep, recorders_Modern_onerror,
      (recorders_inactivate_live rid w r Hl), Hlive. reflexivity.
  - apply Modern_stopRecording_idle. left. rewrite Hstep. reflexivity.
  - intros Hne.
    assert (Hseq : w'' = Modern.onstop r now None
                           (retire rid (Modern.ondataavailable data w'))).
    { subst w''. rewrite Hstep.
      rewrite <- (Modern_fault_sequence w rid r err data now None Hl Hlive).
      unfold Modern.run. cbn [fold_left Modern.step]. rewrite Hl, Hlive.
      reflexivity. }
    assert (Hkept : recordedBlobs (Modern.ondataavailable data w')
                    = recordedBlobs (Modern.ondataavailable data w))
      by apply recordedBlobs_Modern_ondataavailable, Hblobs.
    rewrite Hseq, Modern_onstop_saved
      by (rewrite recordedBlobs_retire, Hkept;
          apply Modern_ondataavailable_keeps, Hne).
    rewrite recordedBlobs_retire, Hkept.
    unfold downloads at 1. rewrite log_retire, log_Modern_ondataavailable.
    fold (downloads w'). rewrite Hdown. reflexivity.
Qed.

Lemma Modern_encoder_fault_outcome_witness :
  downloads (Modern.step
               (Modern.run initialWorld
                  [CallStart samplePage; FireData 0 (Some sampleChunk)])
               (FireError 0 "encoder failed")) = []
  /\ downloads (Modern.run
                  (Modern.step
                     (Modern.run initialWorld
                        [CallStart samplePage; FireData 0 (Some sampleChunk)])
                     (FireError 0 "encoder failed"))
                  [FireData 0 None; FireStop 0 sampleNow None])
     = [("shadertoy-recording_2024-01-15_09-30-45.webm",
         {| blobData := blobData sampleChunk;
            blobType := mimeType sampleRecorder |})].
Proof.
  pose proof (Modern_encoder_fault_outcome
                (Modern.run initialWorld
                   [CallStart samplePage; FireData 0 (Some sampleChunk)])
                0 sampleRecorder "encoder failed" None sampleNow
                eq_refl eq_refl)
    as (_ & Hd & _ & _ & _ & _ & _ & Hsave).
  split; [exact Hd|].
  refine (eq_trans (Hsave _) _); [discriminate | vm_compute; reflexivity].
Defined.

(** X8. When saving throws in the stop-completion callback although
    chunks were recorded, the error is printed and alerted, nothing is
    downloaded and no cleanup timeout is scheduled; the tracks of the
    recorder are stopped all the same and [mediaRecorder] is cleared. *)
Theorem Modern_save_exception_outcome (w : World) (rid : nat) (r : MediaRecorder)
    (now : Date) (err : string) :
  recorders w !! rid = Some r -> terminated r = false ->
  recordedBlobs w <> [] ->
  let w' := Modern.step w (FireStop rid now (Some err)) in
  log w' = ConsoleLog "All tracks stopped (onstop)."
             :: rev (map TrackStop (stream r))
             ++ Alert "Error saving video. Please try again. Check console for details."
             :: ConsoleError ("Error saving video: " +:+ err)
             :: ConsoleLog "MediaRecorder stopped." :: log w /\
  downloads w' = downloads w /\ timers w' = timers w /\
  mediaRecorder w' = None.
Proof.
  intros Hl Hlive Hne w'.
  assert (Hstep : w' = Modern.onstop r now (Some err) (retire rid w)).
  { subst w'. cbn [Modern.step]. rewrite Hl, Hlive. reflexivity. }
  assert (Hlog : log w' = ConsoleLog "All tracks stopped (onstop)."
             :: rev (map TrackStop (stream r))
             ++ Alert "Error saving video. Please try again. Check console for details."
             :: ConsoleError ("Error saving video: " +:+ err)
             :: ConsoleLog "MediaRecorder stopped." :: log w).
  { rewrite Hstep. unfold Modern.onstop. cbv zeta.
    cbn [recordedBlobs emit log setMediaRecorder].
    rewrite recordedBlobs_retire.
    destruct (recordedBlobs w) as [|b bs]; [congruence|].
    cbn [length Nat.eqb]. rewrite log_stopAll. cbn [log emit].
    rewrite log_retire. reflexivity. }
  split; [exact Hlog|]. split; [|split].
  - unfold downloads. rewrite Hlog. cbn [downloadsOf].
    rewrite downloadsOf_stops. reflexivity.
  - rewrite Hstep.
    rewrite (proj2 (Modern_onstop_unsaved r now (Some err) (retire rid w)
               (or_intror (fun H : Some err = None => eq_ind (Some err)
                  (fun o => match o with Some _ => True | None => False end)
                  I None H)))).
    apply timers_retire.
  - rewrite Hstep. reflexivity.
Qed.

Lemma Modern_save_exception_outcome_witness :
  downloads (Modern.step
               (Modern.run initialWorld
                  [CallStart samplePage; FireData 0 (Some sampleChunk); CallStop])
               (FireStop 0 sampleNow (Some "QuotaExceededError"))) = []
  /\ mediaRecorder (Modern.step
               (Modern.run initialWorld
                  [CallStart samplePage; FireData 0 (Some sampleChunk); CallStop])
               (FireStop 0 sampleNow (Some "QuotaExceededError"))) = None.
Proof.
  pose proof (Modern_save_exception_outcome
                (Modern.run initialWorld
                   [CallStart samplePage; FireData 0 (Some sampleChunk); CallStop])
                0 (withState inactive false sampleRecorder) sampleNow
                "QuotaExceededError" eq_refl eq_refl)
    as H.
  destruct H as (_ & Hd & _ & Hm); [discriminate|].
  split; [exact Hd | exact Hm].
Defined.

(** ** Two sessions at once *)

(** X9. The callbacks clear [mediaRecorder] without looking at which
    recorder it names.  If a second recorder was started while a first
    was still live, the [stop] event of the first leaves the second
    recording but unreachable: [stopRecording] then only prints its
    warning. *)
Theorem Modern_overlapping_sessions_orphan (w : World) (rid1 rid2 : nat)
    (r1 r2 : MediaRecorder) (now : Date) (saveThrows : option string) :
  rid1 <> rid2 ->
  recorders w !! rid1 = Some r1 -> terminated r1 = false ->
  recorders w !! rid2 = Some r2 -> mediaRecorder w = Some rid2 ->
  let w' := Modern.step w (FireStop rid1 now saveThrows) in
  mediaRecorder w' = None /\ recorders w' !! rid2 = Some r2 /\
  Modern.stopRecording w' = emit (ConsoleWarn Modern.notActiveWarning) w'.
Proof.
  intros Hne Hl1 Hlive1 Hl2 Hm w'.
  assert (Hstep : w' = Modern.onstop r1 now saveThrows (retire rid1 w)).
  { subst w'. cbn [Modern.step]. rewrite Hl1, Hlive1. reflexivity. }
  assert (Hidle : Modern.stopRecording w'
                  = emit (ConsoleWarn Modern.notActiveWarning) w').
  { apply Modern_stopRecording_idle. left. rewrite Hstep. reflexivity. }
  split; [rewrite Hstep; reflexivity|]. split; [|exact Hidle].
  rewrite Hstep, recorders_Modern_onstop. unfold retire. rewrite Hl1. cbn.
  apply list_lookup_insert_Some. right. auto.
Qed.

Lemma Modern_overlapping_sessions_orphan_witness :
  let w' := Modern.step
              (Modern.run initialWorld
                 [CallStart samplePage; CallStart samplePage])
              (FireStop 0 sampleNow None) in
  mediaRecorder w' = None /\
  (state <$> recorders w' !! 1) = Some recording /\
  Modern.stopRecording w' = emit (ConsoleWarn Modern.notActiveWarning) w'.
Proof.
  pose proof (Modern_overlapping_sessions_orphan
                (Modern.run initialWorld
                   [CallStart samplePage; CallStart samplePage])
                0 1 sampleRecorder
                {| stream := [{| trackId := 1; kind := video |}];
                   mimeType := mimeType sampleRecorder;
                   videoBitsPerSecond := 5000000; audioBitsPerSecond := None;
                   state := recording; timeslice := Some 100%Z;
                   terminated := false |}
                sampleNow None (Nat.neq_0_succ 0) eq_refl eq_refl eq_refl eq_refl)
    as (Hm & Hl & Hs).
  cbv zeta. split; [exact Hm|]. split; [|exact Hs].
  rewrite Hl. reflexivity.
Defined.

(** ** The legacy script: what releases the tracks *)

Lemma stops_recorderStop t rid w : stops t (recorderStop rid w) = stops t w.
Proof. unfold recorderStop. destruct (recorders w !! rid); reflexivity. Qed.

Lemma stops_retire t rid w : stops t (retire rid w) = stops t w.
Proof. unfold stops. rewrite log_retire. reflexivity. Qed.

Lemma stops_inactivate t rid w : stops t (inactivate rid w) = stops t w.
Proof. unfold stops. rewrite log_inactivate. reflexivity. Qed.

Lemma Legacy_startRecording_timers p w :
  timers (Legacy.startRecording p w) = timers w.
Proof.
  unfold Legacy.startRecording.
  destruct (demogl p) as [nv|]; [|reflexivity]. cbv zeta.
  destruct (constructorThrows p); [reflexivity|].
  unfold recorderStart. cbn [recorders setMediaRecorder setRecorders emit].
  rewrite lookup_snoc_new. reflexivity.
Qed.

(** Every step but a timeout leaves the stop counts alone; every step but
    a timeout or a save leaves the pending timeouts alone. *)
Lemma Legacy_step_release w e :
  (forall t, (forall i, e <> FireTimer i) ->
             stops t (Legacy.step w e) = stops t w) /\
  ((forall i, e <> FireTimer i) ->
   downloads (Legacy.step w e) = downloads w ->
   timers (Legacy.step w e) = timers w).
Proof.
  destruct e as [p| |rid data|rid now exn|rid err|i]; cbn [Legacy.step].
  - split; intros; [apply Legacy_startRecording_stops
                   | apply Legacy_startRecording_timers].
  - unfold Legacy.stopRecording.
    destruct (mediaRecorder w) as [rid|]; [|split; reflexivity].
    destruct (recorders w !! rid) as [r|]; [|split; reflexivity].
    destruct (state r); split; intros; try reflexivity.
    + unfold stops. cbn [log emit stopsIn]. apply stops_recorderStop.
    + cbn [timers emit]. apply timers_recorderStop.
  - destruct (recorders w !! rid) as [r|]; [|split; reflexivity].
    destruct (terminated r); [split; reflexivity|].
    unfold Legacy.ondataavailable. destruct data as [b|]; [|split; reflexivity].
    destruct (0 <? blobSize b)%nat; split; reflexivity.
  - destruct (recorders w !! rid) as [r|]; [|split; reflexivity].
    destruct (terminated r); [split; reflexivity|].
    unfold Legacy.onstop. rewrite recordedBlobs_retire.
    destruct (length (recordedBlobs w) =? 0)%nat; [|destruct exn as [err|]];
      (split; [intros t _; unfold stops; cbn [log emit setTimers stopsIn];
               rewrite log_retire; reflexivity|]);
      intros _; try (intros _; cbn [timers emit]; apply timers_retire).
    unfold downloads. cbn [log emit setTimers downloadsOf]. rewrite log_retire.
    intros Hd. exfalso.
    apply (f_equal length) in Hd. rewrite length_app in Hd. cbn in Hd. lia.
  - destruct (recorders w !! rid) as [r|]; [|split; reflexivity].
    destruct (terminated r); [split; reflexivity|].
    split; intros; [apply stops_inactivate | apply timers_inactivate].
  - split; [intros t H | intros H]; exfalso; apply (H i); reflexivity.
Qed.

(** X10. In the legacy script only the cleanup timeout of a successful
    save calls [track.stop()]: every other call or callback leaves the
    stop count of every track unchanged, and as long as nothing has been
    downloaded no timeout is pending and no track has been stopped. *)
Theorem Legacy_tracks_released_only_after_save :
  (forall (w : World) (e : Event) (t : MediaStreamTrack),
     (forall i, e <> FireTimer i) ->
     stops t (Legacy.step w e) = stops t w) /\
  (forall (evs : list Event),
     downloads (Legacy.run initialWorld evs) = [] ->
     timers (Legacy.run initialWorld evs) = [] /\
     forall t, stops t (Legacy.run initialWorld evs) = 0).
Proof.
  split; [intros w e t; apply Legacy_step_release|].
  induction evs as [|e evs IH] using rev_ind; [intros _; split; reflexivity|].
  rewrite Legacy_run_snoc. set (w := Legacy.run initialWorld evs) in *.
  intros Hd.
  assert (Hd0 : downloads w = []).
  { destruct (Legacy_step_downloads w e) as [H | (now & b & H)];
      rewrite H in Hd; [exact Hd|].
    apply app_eq_nil in Hd as [_ Hd]. discriminate. }
  destruct (IH Hd0) as [Ht Hs].
  destruct (Legacy_step_release w e) as [Hstops Htimers].
  assert (Hcases : (forall i, e <> FireTimer i) \/ exists i, e = FireTimer i).
  { destruct e; try (left; discriminate). right. eauto. }
  destruct Hcases as [Hne | (i & ->)].
  - split.
    + rewrite Htimers; [exact Ht | exact Hne | congruence].
    + intros t. rewrite Hstops; [apply Hs | exact Hne].
  - cbn [Legacy.step]. rewrite Ht, lookup_nil. split; [exact Ht | exact Hs].
Qed.

Lemma Legacy_tracks_released_only_after_save_witness :
  timers (Legacy.run initialWorld
            [CallStart samplePage; CallStop; FireStop 0 sampleNow None;
             FireTimer 0; CallStart samplePage; FireError 1 "encoder failed"]) = []
  /\ forall t,
       stops t (Legacy.run initialWorld
            [CallStart samplePage; CallStop; FireStop 0 sampleNow None;
             FireTimer 0; CallStart samplePage; FireError 1 "encoder failed"]) = 0.
Proof.
  apply (proj2 Legacy_tracks_released_only_after_save
           [CallStart samplePage; CallStop; FireStop 0 sampleNow None;
            FireTimer 0; CallStart samplePage; FireError 1 "encoder failed"]).
  reflexivity.
Defined.

(** ** The legacy script: starting *)

(** X11. Once the canvas is found the legacy [startRecording] has no
    failure path of its own: it acquires the canvas tracks, empties
    [recordedBlobs] and stops no track.  The MIME type it hands to the
    constructor is the first supported candidate, or ["video/webm"] when
    the browser supports none, a type it has just reported as unsupported.
    If the constructor returns, the recorder is started at 100 ms; if it
    throws, the recorder heap and [mediaRecorder] stay as they were and
    the acquired tracks stay unstopped. *)
Theorem Legacy_start_outcome (p : Page) (w : World) (nv : nat) :
  demogl p = Some nv ->
  let w' := Legacy.startRecording p w in
  let m := match find (isTypeSupported p) Legacy.mimeTypes with
           | Some m => m
           | None => "video/webm"
           end in
  tracks w' = tracks w ++ freshTracks video nv w /\
  recordedBlobs w' = [] /\
  (forall t, stops t w' = stops t w) /\
  In m Legacy.mimeTypes /\
  (find (isTypeSupported p) Legacy.mimeTypes = None -> isTypeSupported p m = false) /\
  (constructorThrows p = None ->
   recorders w' = recorders w ++
     [{| stream := freshTracks video nv w; mimeType := m;
         videoBitsPerSecond := 5000000; audioBitsPerSecond := None;
         state := recording; timeslice := Some 100%Z; terminated := false |}] /\
   mediaRecorder w' = Some (length (recorders w))) /\
  (constructorThrows p <> None ->
   recorders w' = recorders w /\ mediaRecorder w' = mediaRecorder w).
Proof.
  intros Hc w' m.
  split; [|split; [|split; [|split; [|split; [|split]]]]].
  - subst w'. unfold Legacy.startRecording. rewrite Hc. cbv zeta.
    destruct (constructorThrows p); [reflexivity|].
    unfold recorderStart. cbn [recorders setMediaRecorder setRecorders emit].
    rewrite lookup_snoc_new. reflexivity.
  - apply Legacy_startRecording_resets. congruence.
  - intros t. apply Legacy_startRecording_stops.
  - subst m. destruct (find _ _) as [m|] eqn:Hf.
    + apply find_some in Hf. apply Hf.
    + cbn. auto.
  - intros Hf. subst m. rewrite Hf.
    apply (find_none _ _ Hf). cbn. auto.
  - intros Hctor. subst w' m. unfold Legacy.startRecording.
    rewrite Hc, Hctor. cbv zeta.
    unfold recorderStart. cbn [recorders setMediaRecorder setRecorders emit acquire].
    rewrite lookup_snoc_new. cbn [recorders setRecorders mediaRecorder emit
      setMediaRecorder stream mimeType videoBitsPerSecond audioBitsPerSecond
      terminated].
    rewrite insert_snoc_new. split; reflexivity.
  - intros Hctor. subst w'. unfold Legacy.startRecording. rewrite Hc. cbv zeta.
    destruct (constructorThrows p); [split; reflexivity | congruence].
Qed.

Lemma Legacy_start_outcome_witness :
  recorders (Legacy.startRecording samplePageNoFormat initialWorld)
  = [{| stream := [sampleVideoTrack]; mimeType := "video/webm";
        videoBitsPerSecond := 5000000; audioBitsPerSecond := None;
        state := recording; timeslice := Some 100%Z; terminated := false |}]
  /\ nothingSupported "video/webm" = false.
Proof.
  pose proof (Legacy_start_outcome samplePageNoFormat initialWorld 1 eq_refl)
    as (_ & _ & _ & _ & Hunsupported & Hok & _).
  split; [apply (proj1 (Hok eq_refl)) | apply (Hunsupported eq_refl)].
Defined.

(** ** The legacy script: a session and its artifact *)

Lemma Legacy_step_within w rid r e :
  recorders w !! rid = Some r -> terminated r = false ->
  withinSession rid e = true ->
  recordedBlobs (Legacy.step w e)
  = recordedBlobs w ++ List.filter nonEmptyChunk (emittedChunks rid [e]) /\
  downloads (Legacy.step w e) = downloads w /\
  exists r', recorders (Legacy.step w e) !! rid = Some r' /\
             terminated r' = false /\ sameConfig r r'.
Proof.
  intros Hl Hlive Hin.
  assert (Hkeep : exists r', recorders w !! rid = Some r' /\
                             terminated r' = false /\ sameConfig r r').
  { exists r. split; [exact Hl|]. split; [exact Hlive | apply sameConfig_refl]. }
  destruct e as [p| |rid' data|rid' now exn|rid' err|i]; cbn in Hin;
    try discriminate; cbn [Legacy.step].
  - unfold Legacy.stopRecording.
    destruct (mediaRecorder w) as [rid0|];
      [destruct (recorders w !! rid0) as [r0|]; [destruct (state r0)|]|];
      cbn [recordedBlobs recorders emit emittedChunks List.filter];
      rewrite ?recordedBlobs_recorderStop, ?app_nil_r;
      (split; [reflexivity|]);
      (split; [try reflexivity; apply downloads_recorderStop|]);
      try exact Hkeep; apply recorderStop_keeps_live; assumption.
  - apply bool_decide_eq_true in Hin as ->. rewrite Hl, Hlive.
    destruct data as [b|]; cbn [Legacy.ondataavailable emittedChunks].
    + destruct (decide (rid = rid)); [|congruence].
      cbn [List.filter]. unfold nonEmptyChunk.
      destruct (0 <? blobSize b)%nat; cbn [recordedBlobs setRecordedBlobs];
        rewrite ?app_nil_r; auto.
    + cbn [List.filter]. rewrite app_nil_r. auto.
  - destruct (timers w !! i) as [ts|]; cbn [emittedChunks List.filter];
      rewrite app_nil_r; [|auto].
    unfold Legacy.ontimeout.
    rewrite recordedBlobs_stopAll, downloads_stopAll, recorders_stopAll. auto.
Qed.

Lemma Legacy_session w rid r evs :
  recorders w !! rid = Some r -> terminated r = false ->
  forallb (withinSession rid) evs = true ->
  recordedBlobs (Legacy.run w evs)
  = recordedBlobs w ++ List.filter nonEmptyChunk (emittedChunks rid evs) /\
  downloads (Legacy.run w evs) = downloads w /\
  exists r', recorders (Legacy.run w evs) !! rid = Some r' /\
             terminated r' = false /\ sameConfig r r'.
Proof.
  revert w r. induction evs as [|e evs IH]; intros w r Hl Hlive Hall.
  - cbn. rewrite app_nil_r. split; [reflexivity|]. split; [reflexivity|].
    exists r. split; [exact Hl|]. split; [exact Hlive | apply sameConfig_refl].
  - cbn in Hall. apply andb_true_iff in Hall as [He Hall].
    destruct (Legacy_step_within w rid r e Hl Hlive He)
      as (Hb & Hd & r1 & Hl1 & Hlive1 & Hs1).
    destruct (IH (Legacy.step w e) r1 Hl1 Hlive1 Hall)
      as (Hb2 & Hd2 & r2 & Hl2 & Hlive2 & Hs2).
    cbn [Legacy.run fold_left]. fold (Legacy.run (Legacy.step w e) evs).
    rewrite Hb2, Hd2, Hb, Hd, (emittedChunks_cons rid e evs), List.filter_app,
      app_assoc.
    split; [reflexivity|]. split; [reflexivity|].
    exists r2. split; [exact Hl2|]. split; [exact Hlive2|].
    eapply sameConfig_trans; eassumption.
Qed.

(** X12. In the legacy script too, a session that starts from any page
    state collects exactly its emitted chunks of non-zero size, in
    emission order, and a stop completion that finds chunks downloads
    their concatenation tagged with the recorder's MIME type and schedules
    one timeout holding the tracks of the session; with no chunk it
    downloads nothing and schedules nothing. *)
Theorem Legacy_session_artifact (w0 : World) (p : Page) (r : MediaRecorder)
    (evs : list Event) (now : Date) :
  let rid := length (recorders w0) in
  let w1 := Legacy.startRecording p w0 in
  let w2 := Legacy.run w1 evs in
  let w3 := Legacy.step w2 (FireStop rid now None) in
  let kept := List.filter nonEmptyChunk (emittedChunks rid evs) in
  recorders w1 !! rid = Some r ->
  forallb (withinSession rid) evs = true ->
  recordedBlobs w2 = kept /\
  (kept <> [] ->
   downloads w3 = downloads w0 ++ [(Legacy.downloadName now, newBlob kept (mimeType r))] /\
   timers w3 = timers w2 ++ [stream r]) /\
  (kept = [] -> downloads w3 = downloads w0 /\ timers w3 = timers w2).
Proof.
  intros rid w1 w2 w3 kept Hl Hall.
  assert (Hcanvas : demogl p <> None).
  { intros Hc. subst w1. unfold Legacy.startRecording in Hl. rewrite Hc in Hl.
    apply lookup_lt_Some in Hl. cbn in Hl. subst rid. lia. }
  assert (Hlive : terminated r = false).
  { subst w1. unfold Legacy.startRecording in Hl.
    destruct (demogl p) as [nv|]; [|congruence]. cbv zeta in Hl.
    destruct (constructorThrows p).
    - apply lookup_lt_Some in Hl. cbn in Hl. subst rid. lia.
    - unfold recorderStart in Hl.
      cbn [recorders setMediaRecorder setRecorders emit acquire] in Hl.
      rewrite lookup_snoc_new in Hl. cbn [recorders setRecorders emit] in Hl.
      subst rid. rewrite insert_snoc_new, lookup_snoc_new in Hl.
      injection Hl as <-. reflexivity. }
  destruct (Legacy_session w1 rid r evs Hl Hlive Hall)
    as (Hb2 & Hd2 & r2 & Hl2 & Hlive2 & Hs2).
  fold w2 in Hb2, Hd2, Hl2.
  replace (recordedBlobs w1) with (@nil Blob) in Hb2
    by (symmetry; apply Legacy_startRecording_resets, Hcanvas).
  cbn [app] in Hb2. fold kept in Hb2.
  replace (downloads w1) with (downloads w0) in Hd2
    by (symmetry; apply Legacy_startRecording_downloads).
  assert (Hstep : w3 = Legacy.onstop r2 now None (retire rid w2)).
  { subst w3. cbn [Legacy.step]. rewrite Hl2, Hlive2. reflexivity. }
  destruct Hs2 as (Hstream & Hmime & _).
  split; [exact Hb2|]. split.
  - intros Hne. rewrite Hstep. unfold Legacy.onstop.
    rewrite recordedBlobs_retire, Hb2.
    destruct kept as [|b bs] eqn:Ek; [congruence|]. cbn [length Nat.eqb].
    unfold downloads. cbn [log timers emit setTimers downloadsOf].
    rewrite log_retire, timers_retire, Hstream, Hmime.
    fold (downloads w2). rewrite Hd2. split; reflexivity.
  - intros Hempty. rewrite Hstep. unfold Legacy.onstop.
    rewrite recordedBlobs_retire, Hb2, Hempty. cbn [length Nat.eqb].
    unfold downloads. cbn [log timers emit downloadsOf].
    rewrite log_retire, timers_retire. fold (downloads w2). rewrite Hd2.
    split; reflexivity.
Qed.

Lemma Legacy_session_artifact_witness :
  recordedBlobs
    (Legacy.run (Legacy.startRecording samplePage initialWorld)
       [FireData 0 (Some sampleChunk); FireData 0 (Some emptyChunk); CallStop;
        FireData 0 (Some sampleChunk)])
  = [sampleChunk; sampleChunk].
Proof.
  exact (proj1 (Legacy_session_artifact initialWorld samplePage
                  {| stream := [sampleVideoTrack];
                     mimeType := "video/webm;codecs=h264";
                     videoBitsPerSecond := 5000000; audioBitsPerSecond := None;
                     state := recording; timeslice := Some 100%Z;
                     terminated := false |}
                  [FireData 0 (Some sampleChunk); FireData 0 (Some emptyChunk);
                   CallStop; FireData 0 (Some sampleChunk)]
                  sampleNow eq_refl eq_refl)).
Defined.

(** ** The popup: the duration display *)

Lemma padStart0_small (n : nat) :
  n < 100 -> padStart0 2 (jsString (Z.of_nat n)) = decimal 2 n.
Proof.
  intros Hn.
  assert (Hall : forallb
            (fun k => String.eqb (padStart0 2 (jsString (Z.of_nat k))) (decimal 2 k))
            (seq 0 100) = true) by (vm_compute; reflexivity).
  rewrite forallb_forall in Hall.
  apply String.eqb_eq, Hall, in_seq. lia.
Qed.

Lemma padStart0_long (s : string) : 2 <= String.length s -> padStart0 2 s = s.
Proof.
  intros Hs. unfold padStart0.
  replace (2 - String.length s) with 0 by lia. reflexivity.
Qed.

Lemma jsString_two_digits (z : Z) : (10 <= z)%Z -> 2 <= String.length (jsString z).
Proof.
  intros Hz. destruct z as [|p|p]; try lia.
  unfold jsString. cbn [Z.to_int NilZero.string_of_int].
  pose proof (DecimalPos.Unsigned.of_to p) as Hback.
  destruct (Pos.to_uint p) as [|d|d|d|d|d|d|d|d|d|d];
    try (cbn in Hback; lia);
    destruct d; cbn in Hback |- *; lia.
Qed.

(** X13. The duration text of the popup (and of the legacy popup after
    ["Duration: "]).  When the clock has not gone back: under 100 minutes
    it is the fixed-width [MM:SS], minutes and seconds of the elapsed
    whole seconds; from 10 minutes on the minutes are printed in full and
    unpadded (reading the field back as a decimal gives the elapsed
    minutes), so nothing wraps into hours. *)
Theorem formatDuration_shape (now startTime : Z) :
  (startTime <= now)%Z ->
  let elapsed := ((now - startTime) / 1000)%Z in
  let mm := (elapsed / 60)%Z in
  let ss := (elapsed mod 60)%Z in
  ((now - startTime < 6000000)%Z ->
   formatDuration now startTime
   = decimal 2 (Z.to_nat mm) +:+ ":" +:+ decimal 2 (Z.to_nat ss)) /\
  ((600000 <= now - startTime)%Z ->
   formatDuration now startTime
   = jsString mm +:+ ":" +:+ decimal 2 (Z.to_nat ss) /\
   option_map Z.of_int (NilZero.int_of_string (jsString mm)) = Some mm).
Proof.
  intros Hle elapsed mm ss.
  assert (He : (0 <= elapsed)%Z) by (apply Z.div_pos; lia).
  assert (Hss : (0 <= ss < 60)%Z) by (apply Z.mod_pos_bound; lia).
  assert (Hrem : Z.rem elapsed 60 = ss) by (apply Z.rem_mod_nonneg; lia).
  assert (Hsec : padStart0 2 (jsString (Z.rem elapsed 60)) = decimal 2 (Z.to_nat ss)).
  { rewrite Hrem. rewrite <- (Z2Nat.id ss) at 1 by lia.
    apply padStart0_small. lia. }
  assert (Hmm : (0 <= mm)%Z) by (apply Z.div_pos; lia).
  unfold formatDuration. cbv zeta. fold elapsed. fold mm. rewrite Hsec.
  split.
  - intros Hlt.
    assert (Hm : (mm < 100)%Z).
    { subst mm elapsed. apply Z.div_lt_upper_bound; [lia|].
      apply Z.div_lt_upper_bound; lia. }
    rewrite <- (Z2Nat.id mm) at 1 by lia.
    rewrite padStart0_small by lia. reflexivity.
  - intros Hge.
    assert (Hm : (10 <= mm)%Z).
    { subst mm elapsed. apply Z.div_le_lower_bound; [lia|].
      apply Z.div_le_lower_bound; lia. }
    rewrite padStart0_long by (apply jsString_two_digits, Hm).
    split; [reflexivity|]. unfold jsString.
    rewrite NilZero.isi.
    + cbn. rewrite DecimalZ.of_to. reflexivity.
    + destruct mm as [|q|q]; try lia. cbn. intros [= Hq].
      pose proof (DecimalPos.Unsigned.of_to q) as Hback.
      rewrite Hq in Hback. discriminate.
    + destruct mm as [|q|q]; try lia. discriminate.
Qed.

Lemma formatDuration_shape_witness :
  formatDuration 1718003725999 1718000000000 = "62:05"
  /\ formatDuration 1718006000000 1718000000000 = "100:00".
Proof.
  split.
  - refine (eq_trans (proj1 (formatDuration_shape 1718003725999 1718000000000 _) _) _).
    + lia.
    + lia.
    + reflexivity.
  - refine (eq_trans (proj1 (proj2 (formatDuration_shape 1718006000000 1718000000000 _) _)) _).
    + lia.
    + lia.
    + reflexivity.
Defined.

(** ** The popup: state across closing and reopening *)

Lemma truthy_Some_nonzero (z : Z) : z <> 0%Z -> truthy (Some z) = true.
Proof.
  intros Hz. cbn. destruct (z =? 0)%Z eqn:E; [|reflexivity].
  apply Z.eqb_eq in E. contradiction.
Qed.

(** X14. What the popup writes to the extension storage brings its state
    back when it is opened again on a tab.  After a start click whose
    script call resolved and whose write succeeded (the clock not reading
    0), the reopened popup is recording from the stored start time, shows
    [00:00] until the first tick and then the duration since that time,
    with Start disabled and Stop enabled.  After such a stop click the
    reopened popup is not recording, with Start enabled and Stop
    disabled.  If the write of a start click fails, the storage is
    unchanged and the popup still shows itself recording. *)
Theorem popup_state_survives_reopen (c : Click) (b : Browser) (tab : Z) :
  truthy (currentTabId (popup b)) = true ->
  scriptRejects c = None -> tab <> 0%Z ->
  (storageFails c = None -> clock c <> 0%Z ->
   let b' := reopen (Some tab) (handleStart c b) in
   popup b' = {| isRecording := true; startTime := Some (clock c);
                 duration := "00:00"; currentTabId := Some tab |} /\
   (forall now, duration (tick now (popup b')) = formatDuration now (clock c)) /\
   startDisabled (popup b') = true /\ stopDisabled (popup b') = false /\
   page b' = Modern.startRecording (found c) (page b)) /\
  (storageFails c = None ->
   let b' := reopen (Some tab) (handleStop c b) in
   popup b' = {| isRecording := false; startTime := None;
                 duration := "00:00"; currentTabId := Some tab |} /\
   startDisabled (popup b') = false /\ stopDisabled (popup b') = true /\
   page b' = Modern.stopRecording (page b)) /\
  (storageFails c <> None ->
   storage (handleStart c b) = storage b /\
   isRecording (popup (handleStart c b)) = true).
Proof.
  intros Htab Hscript Hnz.
  pose proof (truthy_Some_nonzero tab Hnz) as Htab'.
  split; [|split].
  - intros Hstore Hclock b'.
    pose proof (truthy_Some_nonzero (clock c) Hclock) as Hc.
    assert (Hp : popup b' = {| isRecording := true; startTime := Some (clock c);
                               duration := "00:00"; currentTabId := Some tab |}).
    { subst b'. unfold reopen, handleStart, onTabs, onRestore, storageSet.
      rewrite Htab, Hscript, Hstore. cbn [negb]. cbv zeta.
      cbn [storage popup]. rewrite Htab'.
      cbn [popup currentTabId storage recordingState recordingStartTime negb].
      rewrite Htab'. cbn [negb]. rewrite Hc.
      unfold timerEffect. cbn [isRecording startTime andb]. rewrite Hc.
      reflexivity. }
    split; [exact Hp|]. split; [|split; [|split]].
    + intros now. rewrite Hp. unfold tick. cbn [startTime isRecording andb].
      rewrite Hc. reflexivity.
    + rewrite Hp. reflexivity.
    + rewrite Hp. unfold stopDisabled. cbn [isRecording currentTabId negb orb].
      rewrite Htab'. reflexivity.
    + subst b'. unfold reopen, handleStart, onTabs, onRestore, storageSet.
      rewrite Htab, Hscript, Hstore. cbn [negb]. cbv zeta.
      cbn [storage popup]. rewrite Htab'.
      cbn [popup currentTabId negb]. rewrite Htab'. reflexivity.
  - intros Hstore b'.
    assert (Hp : popup b' = {| isRecording := false; startTime := None;
                               duration := "00:00"; currentTabId := Some tab |}).
    { subst b'. unfold reopen, handleStop, onTabs, onRestore, storageSet.
      rewrite Htab, Hscript, Hstore. cbn [negb]. cbv zeta.
      cbn [storage popup]. rewrite Htab'.
      cbn [popup currentTabId storage recordingState recordingStartTime negb].
      rewrite Htab'. reflexivity. }
    split; [exact Hp|]. split; [|split].
    + rewrite Hp. unfold startDisabled. cbn [isRecording currentTabId negb orb].
      rewrite Htab'. reflexivity.
    + rewrite Hp. reflexivity.
    + subst b'. unfold reopen, handleStop, onTabs, onRestore, storageSet.
      rewrite Htab, Hscript, Hstore. cbn [negb]. cbv zeta.
      cbn [storage popup]. rewrite Htab'.
      cbn [popup currentTabId negb]. rewrite Htab'. reflexivity.
  - intros Hfail. unfold handleStart, storageSet. rewrite Htab, Hscript. cbn [negb].
    cbv zeta. destruct (storageFails c) as [err|]; [|congruence].
    split; [reflexivity|]. cbn [popup]. unfold timerEffect.
    cbn [isRecording startTime]. destruct (true && _); reflexivity.
Qed.

Lemma popup_state_survives_reopen_witness :
  let b := {| popup := {| isRecording := false; startTime := None;
                          duration := "00:00"; currentTabId := Some 7%Z |};
              storage := {| recordingState := None; recordingStartTime := None |};
              page := initialWorld; popupLog := [] |} in
  let c := {| scriptRejects := None; found := samplePage;
              clock := 1718000000000; storageFails := None |} in
  popup (reopen (Some 7%Z) (handleStart c b))
  = {| isRecording := true; startTime := Some 1718000000000%Z;
       duration := "00:00"; currentTabId := Some 7%Z |}
  /\ popup (reopen (Some 7%Z) (handleStop c (handleStart c b)))
     = {| isRecording := false; startTime := None;
          duration := "00:00"; currentTabId := Some 7%Z |}.
Proof.
  intros b c. split.
  - apply (proj1 (popup_state_survives_reopen c b 7 eq_refl eq_refl
                    ltac:(discriminate)) eq_refl ltac:(discriminate)).
  - apply (proj1 (proj2 (popup_state_survives_reopen c (handleStart c b) 7
                           eq_refl eq_refl ltac:(discriminate))) eq_refl).
Defined.

(** ** The popup: clicks that cannot reach the page *)

(** X15. Without a usable tab id, or when [executeScript] rejects, a
    click changes neither the popup state nor the storage nor the page
    and does not close the window.  A start click then reports on the
    console and by an alert; a stop click reports on the console only. *)
Theorem popup_click_failure (c : Click) (b : Browser) :
  truthy (currentTabId (popup b)) = false \/ scriptRejects c <> None ->
  let b1 := handleStart c b in
  let b2 := handleStop c b in
  (popup b1 = popup b /\ storage b1 = storage b /\ page b1 = page b /\
   exists alert err, popupLog b1 = PopupAlert alert :: PopupConsoleError err :: popupLog b) /\
  (popup b2 = popup b /\ storage b2 = storage b /\ page b2 = page b /\
   exists err, popupLog b2 = PopupConsoleError err :: popupLog b).
Proof.
  intros Hfail b1 b2. subst b1 b2. unfold handleStart, handleStop.
  destruct (truthy (currentTabId (popup b))) eqn:Htab; cbn [negb].
  - destruct Hfail as [Hf|Hf]; [discriminate|].
    destruct (scriptRejects c) as [err|]; [|congruence].
    split; (split; [reflexivity|]); (split; [reflexivity|]);
      (split; [reflexivity|]); eauto.
  - split; (split; [reflexivity|]); (split; [reflexivity|]);
      (split; [reflexivity|]); eauto.
Qed.

Lemma popup_click_failure_witness :
  let b := {| popup := initialPopup;
              storage := {| recordingState := Some storedRecording;
                            recordingStartTime := Some 1718000000000%Z |};
              page := initialWorld; popupLog := [] |} in
  let c := {| scriptRejects := None; found := samplePage;
              clock := 1718000000000; storageFails := None |} in
  page (handleStart c b) = initialWorld /\ storage (handleStop c b) = storage b.
Proof.
  intros b c.
  pose proof (popup_click_failure c b (or_introl eq_refl))
    as ((_ & _ & Hpage & _) & (_ & Hstorage & _)).
  split; [exact Hpage | exact Hstorage].
Defined.

(** ** The popup and the content script together *)

Lemma handleStart_resolved (c : Click) (b : Browser) :
  truthy (currentTabId (popup b)) = true -> scriptRejects c = None ->
  popup (handleStart c b)
  = timerEffect {| isRecording := true; startTime := Some (clock c);
                   duration := duration (popup b);
                   currentTabId := currentTabId (popup b) |} /\
  page (handleStart c b) = Modern.startRecording (found c) (page b).
Proof.
  intros Htab Hscript. unfold handleStart, storageSet.
  rewrite Htab, Hscript. cbn [negb]. cbv zeta.
  destruct (storageFails c); split; reflexivity.
Qed.

Lemma handleStop_resolved (c : Click) (b : Browser) :
  truthy (currentTabId (popup b)) = true -> scriptRejects c = None ->
  isRecording (popup (handleStop c b)) = false /\
  page (handleStop c b) = Modern.stopRecording (page b) /\
  exists l, popupLog (handleStop c b) = l ++ WindowClose :: popupLog b.
Proof.
  intros Htab Hscript. unfold handleStop, storageSet.
  rewrite Htab, Hscript. cbn [negb]. cbv zeta.
  destruct (storageFails c) as [err|]; (split; [reflexivity|]);
    (split; [reflexivity|]).
  - eexists [_]. reflexivity.
  - exists []. reflexivity.
Qed.

Lemma currentTabId_timerEffect s : currentTabId (timerEffect s) = currentTabId s.
Proof. unfold timerEffect. destruct (_ && _); reflexivity. Qed.

Lemma isRecording_timerEffect s : isRecording (timerEffect s) = isRecording s.
Proof. unfold timerEffect. destruct (_ && _); reflexivity. Qed.

(** X16. [startRecording] reports its failures itself and resolves, so a
    start click whose script call resolves marks the popup as recording
    and enables Stop whether or not a recorder was started.  When the
    content script started none, the page keeps its recorder heap and
    [mediaRecorder]; if no session was running, the stop click that
    follows only makes [stopRecording] print its warning. *)
Theorem popup_marks_recording_when_script_resolves (c c' : Click) (b : Browser) :
  truthy (currentTabId (popup b)) = true -> scriptRejects c = None ->
  let b1 := handleStart c b in
  isRecording (popup b1) = true /\ stopDisabled (popup b1) = false /\
  page b1 = Modern.startRecording (found c) (page b) /\
  (modernStarts (found c) = None ->
   recorders (page b1) = recorders (page b) /\
   mediaRecorder (page b1) = mediaRecorder (page b) /\
   (mediaRecorder (page b) = None -> scriptRejects c' = None ->
    page (handleStop c' b1)
    = emit (ConsoleWarn Modern.notActiveWarning) (page b1))).
Proof.
  intros Htab Hscript b1.
  destruct (handleStart_resolved c b Htab Hscript) as [Hp Hpage].
  fold b1 in Hp, Hpage.
  assert (Htab1 : truthy (currentTabId (popup b1)) = true)
    by (rewrite Hp, currentTabId_timerEffect; exact Htab).
  assert (Hrec : isRecording (popup b1) = true)
    by (rewrite Hp, isRecording_timerEffect; reflexivity).
  split; [exact Hrec|]. split; [|split; [exact Hpage|]].
  - unfold stopDisabled. rewrite Hrec, Htab1. reflexivity.
  - intros Hfail.
    destruct (Modern_startRecording_failure (found c) (page b) Hfail)
      as (Hr & Hm & _).
    rewrite Hpage. split; [exact Hr|]. split; [exact Hm|].
    intros Hnone Hscript'.
    destruct (handleStop_resolved c' b1 Htab1 Hscript') as (_ & -> & _).
    rewrite Hpage. apply Modern_stopRecording_idle. left. congruence.
Qed.

Lemma popup_marks_recording_when_script_resolves_witness :
  let b := {| popup := {| isRecording := false; startTime := None;
                          duration := "00:00"; currentTabId := Some 7%Z |};
              storage := {| recordingState := None; recordingStartTime := None |};
              page := initialWorld; popupLog := [] |} in
  let c := {| scriptRejects := None;
              found := {| demogl := None; getUserMedia := Granted 1;
                          isTypeSupported := webmOnly; constructorThrows := None |};
              clock := 1718000000000; storageFails := None |} in
  isRecording (popup (handleStart c b)) = true /\
  recorders (page (handleStart c b)) = [].
Proof.
  intros b c.
  pose proof (popup_marks_recording_when_script_resolves c c b eq_refl eq_refl)
    as (Hrec & _ & _ & Hfail).
  split; [exact Hrec | apply (proj1 (Hfail eq_refl))].
Defined.

(** X17. A start click on a page where [startRecording] starts a
    recorder, followed by a stop click, both script calls resolving: the
    recorder that the start click created has received exactly one stop
    signal, is [inactive] with its stop completion pending, and is still
    the one named by [mediaRecorder]; the popup is not recording and has
    closed its window. *)
Theorem popup_click_cycle (evs : list Event) (c1 c2 : Click) (b : Browser)
    (nv : nat) (m : string) :
  page b = Modern.run initialWorld evs ->
  truthy (currentTabId (popup b)) = true ->
  scriptRejects c1 = None -> scriptRejects c2 = None ->
  modernStarts (found c1) = Some (nv, m) ->
  let rid := length (recorders (page b)) in
  let b2 := handleStop c2 (handleStart c1 b) in
  stopSignals rid (log (page b2)) = 1 /\
  recorders (page b2) !! rid
  = Some (withState inactive false (modernRecorder (found c1) nv m (page b))) /\
  mediaRecorder (page b2) = Some rid /\
  isRecording (popup b2) = false /\
  In WindowClose (popupLog b2).
Proof.
  intros Hreach Htab Hs1 Hs2 Hst rid b2.
  destruct (handleStart_resolved c1 b Htab Hs1) as [Hp Hpage].
  assert (Htab1 : truthy (currentTabId (popup (handleStart c1 b))) = true)
    by (rewrite Hp, currentTabId_timerEffect; exact Htab).
  destruct (handleStop_resolved c2 (handleStart c1 b) Htab1 Hs2)
    as (Hrec & Hpage2 & l & Hlog).
  fold b2 in Hrec, Hpage2, Hlog.
  destruct (Modern_startRecording_success (found c1) (page b) nv m Hst)
    as (Hr & Hm & _).
  set (w1 := Modern.startRecording (found c1) (page b)) in *.
  set (r := modernRecorder (found c1) nv m (page b)) in *.
  assert (Hl : recorders w1 !! rid = Some r)
    by (rewrite Hr; apply lookup_snoc_new).
  assert (Hstate : state r = recording)
    by (subst r; unfold modernRecorder; destruct (getUserMedia (found c1)); reflexivity).
  assert (Hlive : terminated r = false)
    by (subst r; unfold modernRecorder; destruct (getUserMedia (found c1)); reflexivity).
  assert (H0 : stopSignals rid (log w1) = 0).
  { subst w1. rewrite stopSignals_Modern_startRecording, Hreach.
    destruct (stopSignals rid (log (Modern.run initialWorld evs))) eqn:E;
      [reflexivity|].
    exfalso. destruct (Modern_discipline evs) as (_ & _ & _ & Hsd).
    destruct (Hsd rid) as (r' & Hl' & _); [lia|].
    apply lookup_lt_Some in Hl'. subst rid. rewrite Hreach in Hl'. lia. }
  assert (Hstop : Modern.stopRecording w1
                  = emit (ConsoleLog "Stop recording signal sent to MediaRecorder.")
                      (recorderStop rid w1)).
  { unfold Modern.stopRecording. rewrite Hm. fold rid. rewrite Hl, Hstate.
    reflexivity. }
  rewrite Hpage2, Hpage. fold w1. rewrite Hstop.
  split; [|split; [|split; [|split]]].
  - unfold recorderStop. rewrite Hl. cbn [log emit setRecorders stopSignals].
    destruct (decide (rid = rid)); [|congruence]. rewrite H0. reflexivity.
  - cbn [recorders emit]. unfold recorderStop. rewrite Hl. cbn [recorders setRecorders].
    rewrite Hlive. apply list_lookup_insert_Some. left.
    split; [reflexivity|]. split; [reflexivity|]. eapply lookup_lt_Some, Hl.
  - cbn [mediaRecorder emit]. rewrite mediaRecorder_recorderStop. exact Hm.
  - exact Hrec.
  - rewrite Hlog. apply in_or_app. right. left. reflexivity.
Qed.

Lemma popup_click_cycle_witness :
  let b := {| popup := {| isRecording := false; startTime := None;
                          duration := "00:00"; currentTabId := Some 7%Z |};
              storage := {| recordingState := None; recordingStartTime := None |};
              page := initialWorld; popupLog := [] |} in
  let c := {| scriptRejects := None; found := samplePage;
              clock := 1718000000000; storageFails := None |} in
  stopSignals 0 (log (page (handleStop c (handleStart c b)))) = 1 /\
  mediaRecorder (page (handleStop c (handleStart c b))) = Some 0.
Proof.
  intros b c.
  pose proof (popup_click_cycle [] c c b 1 (mimeType sampleRecorder)
                eq_refl eq_refl eq_refl eq_refl eq_refl)
    as (Hsig & _ & Hm & _).
  split; [exact Hsig | exact Hm].
Defined.

(** ** The timestamp as part of a file name *)

Lemma allChars_replaceColonsAndPeriods s :
  allChars plainChar (replaceColonsAndPeriods s) = true.
Proof.
  induction s as [|c s IH]; [reflexivity|].
  cbn [replaceColonsAndPeriods allChars]. rewrite IH, andb_true_r.
  unfold plainChar. destruct (isColonOrPeriod c) eqn:E; [reflexivity|].
  rewrite E. reflexivity.
Qed.

Lemma allChars_replaceFirst P c d s :
  P d = true -> allChars P s = true -> allChars P (replaceFirst c d s) = true.
Proof.
  intros Hd. induction s as [|x s IH]; [reflexivity|].
  cbn [replaceFirst allChars]. intros [Hx Hs]%andb_true_iff.
  destruct (Ascii.eqb x c); cbn [allChars].
  - rewrite Hd, Hs. reflexivity.
  - rewrite Hx, (IH Hs). reflexivity.
Qed.

Lemma allChars_slice0 P n s :
  allChars P s = true -> allChars P (slice0 n s) = true.
Proof.
  revert s. induction n as [|n IH]; intros s; [destruct s; reflexivity|].
  destruct s as [|c s]; [reflexivity|].
  cbn [slice0 allChars]. intros [Hc Hs]%andb_true_iff.
  rewrite Hc, (IH s Hs). reflexivity.
Qed.

Lemma length_slice0 n s : String.length (slice0 n s) <= n.
Proof.
  revert s. induction n as [|n IH]; intros s; [destruct s; cbn; lia|].
  destruct s as [|c s]; cbn; [lia|]. specialize (IH s). lia.
Qed.

Lemma allChars_append P s1 s2 :
  allChars P (s1 +:+ s2) = allChars P s1 && allChars P s2.
Proof.
  induction s1 as [|c s1 IH]; [reflexivity|].
  cbv [String.append]. fold String.append. cbn [allChars].
  rewrite IH, andb_assoc. reflexivity.
Qed.

(** X18. For every date, also one outside the four-digit years, the
    timestamp that [onstop] puts into the file name has at most 19
    characters and contains neither a colon nor a period; the only period
    of a download name of either script is the one of the extension. *)
Theorem timestamp_filename_safe (now : Date) :
  String.length (timestamp now) <= 19 /\
  allChars plainChar (timestamp now) = true /\
  (forall m,
     exists ext,
       Modern.downloadName now m
       = ("shadertoy-recording_" +:+ timestamp now) +:+ "." +:+ ext /\
       allChars plainChar ("shadertoy-recording_" +:+ timestamp now) = true /\
       allChars plainChar ext = true) /\
  Legacy.downloadName now
  = ("shadertoy-recording_" +:+ timestamp now) +:+ "." +:+ "mp4".
Proof.
  assert (Hts : allChars plainChar (timestamp now) = true).
  { unfold timestamp. apply allChars_slice0, allChars_replaceFirst;
      [reflexivity | apply allChars_replaceColonsAndPeriods]. }
  assert (Hassoc : forall a b c : string, a +:+ b +:+ c = (a +:+ b) +:+ c).
  { intros a b c. induction a as [|x a IH]; [reflexivity|].
    cbv [String.append]. fold String.append. rewrite <- IH. reflexivity. }
  split; [apply length_slice0|]. split; [exact Hts|]. split.
  - intros m. unfold Modern.downloadName. cbv zeta.
    exists (if startsWith m "video/webm" then "webm" else "mp4").
    split; [|split].
    + rewrite <- Hassoc. destruct (startsWith m "video/webm"); reflexivity.
    + rewrite allChars_append, Hts. reflexivity.
    + destruct (startsWith m "video/webm"); reflexivity.
  - unfold Legacy.downloadName. rewrite <- Hassoc. reflexivity.
Qed.

(** ** Recording with a microphone *)

(** X19. When the microphone is granted and the call starts a recorder,
    the recorded stream is the canvas tracks followed by the microphone
    tracks: all of them new to the page, pairwise distinct, the first
    [nv] video and the rest audio, and the audio bitrate is set to
    128,000 bit/s. *)
Theorem Modern_audio_granted_combined_stream (w : World) (p : Page)
    (nv na : nat) (m : string) :
  getUserMedia p = Granted na -> modernStarts p = Some (nv, m) ->
  exists vs ats,
    recorders (Modern.startRecording p w) !! length (recorders w)
    = Some {| stream := vs ++ ats; mimeType := m;
              videoBitsPerSecond := 5000000;
              audioBitsPerSecond := Some 128000%Z;
              state := recording; timeslice := Some 100%Z;
              terminated := false |} /\
    length vs = nv /\ length ats = na /\
    (forall t, t ∈ vs -> kind t = video) /\
    (forall t, t ∈ ats -> kind t = audio) /\
    NoDup (vs ++ ats) /\
    (forall t, t ∈ vs ++ ats -> length (tracks w) <= trackId t) /\
    tracks (Modern.startRecording p w) = tracks w ++ ats ++ vs.
Proof.
  intros Hg Hst.
  destruct (Modern_startRecording_success p w nv m Hst)
    as (Hr & _ & _ & _ & _ & Ht).
  assert (Hna : audioCount p = na) by (unfold audioCount; rewrite Hg; reflexivity).
  rewrite Hna in Ht.
  exists (freshTracks video nv (acquire (freshTracks audio na w) w)),
         (freshTracks audio na w).
  split; [|split; [|split; [|split; [|split; [|split; [|split]]]]]].
  - rewrite Hr, lookup_snoc_new. unfold modernRecorder. rewrite Hg. reflexivity.
  - apply fresh_length.
  - apply fresh_length.
  - intros t. apply fresh_kind.
  - intros t. apply fresh_kind.
  - apply NoDup_app. split; [apply fresh_nodup|]. split; [|apply fresh_nodup].
    intros t (i & _ & ->)%fresh_spec (j & Hj & Heq)%fresh_spec.
    injection Heq as Hid. cbn [tracks acquire] in Hid.
    rewrite length_app, fresh_length in Hid. lia.
  - intros t [(i & _ & ->)%fresh_spec | (i & _ & ->)%fresh_spec]%elem_of_app;
      cbn [trackId tracks acquire]; rewrite ?length_app; lia.
  - exact Ht.
Qed.

Lemma Modern_audio_granted_combined_stream_witness :
  exists vs ats,
    recorders (Modern.startRecording samplePageWithAudio initialWorld) !! 0
    = Some {| stream := vs ++ ats; mimeType := mimeType sampleRecorder;
              videoBitsPerSecond := 5000000;
              audioBitsPerSecond := Some 128000%Z;
              state := recording; timeslice := Some 100%Z;
              terminated := false |} /\
    length vs = 1 /\ length ats = 1.
Proof.
  destruct (Modern_audio_granted_combined_stream initialWorld samplePageWithAudio
              1 1 (mimeType sampleRecorder) eq_refl eq_refl)
    as (vs & ats & Hl & Hv & Ha & _).
  exists vs, ats. split; [exact Hl|]. split; [exact Hv | exact Ha].
Defined.
